(** * buttercup: the submission read paths of [util_cli.py]

    A shallow embedding of [src/common/src/buttercup/common/util_cli.py]:
    [truncate_stacktraces], the [ReadSubmissionsSettings] branch of
    [handle_subcommand] and [extract_povs], with the properties the
    specification states about them. *)

From Stdlib Require Import ZArith String Ascii List Lia.
From stdpp Require Import base option list gmap strings pretty.

Local Open Scope string_scope.
Local Open Scope Z_scope.
Local Open Scope list_scope.

(** ** Messages of [msg_pb2] *)

(** Modelled from the spec: the generated module [msg_pb2] is not part of the
    sources, so the message types are taken from section 3 of the
    specification ([result] ranges over NONE, PASSED and FAILED) and from the
    field accesses of [util_cli.py]. *)
Inductive SubmissionResult : Type := NONE | PASSED | FAILED.

#[global] Instance SubmissionResult_eq_dec : EqDecision SubmissionResult.
Proof. solve_decision. Defined.

(** [SubmissionResult.Name(r) if r else "NONE"] *)
Definition result_name (r : SubmissionResult) : string :=
  match r with NONE => "NONE" | PASSED => "PASSED" | FAILED => "FAILED" end.

Module BuildOutput.
Record t : Type := mk { task_id : string; sanitizer : string; engine : string }.
End BuildOutput.

Module Crash.
Record t : Type := mk {
  target : BuildOutput.t;
  harness_name : string;
  crash_input_path : string;
  stacktrace : string;
  crash_token : string }.
Definition set_stacktrace (v : string) (c : t) : t :=
  mk (target c) (harness_name c) (crash_input_path c) v (crash_token c).
Definition set_crash_token (v : string) (c : t) : t :=
  mk (target c) (harness_name c) (crash_input_path c) (stacktrace c) v.
End Crash.

Module TracedCrash.
Record t : Type := mk { crash : Crash.t; tracer_stacktrace : string }.
Definition set_crash (v : Crash.t) (c : t) : t := mk v (tracer_stacktrace c).
Definition set_tracer_stacktrace (v : string) (c : t) : t := mk (crash c) v.
End TracedCrash.

Module CrashWithId.
Record t : Type := mk {
  crash : TracedCrash.t;
  competition_pov_id : string;
  result : SubmissionResult }.
Definition set_crash (v : TracedCrash.t) (c : t) : t :=
  mk v (competition_pov_id c) (result c).
End CrashWithId.

Module SubmissionEntryPatch.
Record t : Type := mk {
  patch : string;
  internal_patch_id : string;
  competition_patch_id : string;
  result : SubmissionResult }.
End SubmissionEntryPatch.

(** Bundles are opaque grouping records; the read paths only test whether an
    entry has one and count them. *)
Module Bundle.
Record t : Type := mk { bundle_id : string }.
End Bundle.

Module SubmissionEntry.
Record t : Type := mk {
  stop : bool;
  crashes : list CrashWithId.t;
  patches : list SubmissionEntryPatch.t;
  bundles : list Bundle.t;
  patch_idx : Z }.
Definition set_crashes (v : list CrashWithId.t) (e : t) : t :=
  mk (stop e) v (patches e) (bundles e) (patch_idx e).
Definition set_patches (v : list SubmissionEntryPatch.t) (e : t) : t :=
  mk (stop e) (crashes e) v (bundles e) (patch_idx e).
Definition set_stop (v : bool) (e : t) : t :=
  mk v (crashes e) (patches e) (bundles e) (patch_idx e).
End SubmissionEntry.

(** The task record of the registry ([TaskRegistry.get] returns it or [None]). *)
Module Task.
Record t : Type := mk { project_name : string; task_type : Z }.
End Task.

(** ** Python strings *)

(** [len(s)] *)
Definition py_len (s : string) : Z := Z.of_nat (String.length s).

(** Truth value of a string: the empty string is false. *)
Definition str_bool (s : string) : bool :=
  match s with EmptyString => false | String _ _ => true end.

(** [s[:stop]]: a negative [stop] counts from the end. *)
Definition py_slice_to (s : string) (stop : Z) : string :=
  let n := if stop <? 0 then Z.max 0 (py_len s + stop) else stop in
  String.substring 0 (Z.to_nat n) s.

Definition TRUNCATED : string := "... (truncated)".

(** ** [truncate_stacktraces] (util_cli.py, lines 44-66) *)

(** The guarded assignment the loop applies to each of the three fields:
    [if s and len(s) > max_length: s = s[:max_length] + "... (truncated)"]. *)
Definition truncate_field (max_length : Z) (s : string) : string :=
  if str_bool s && (max_length <? py_len s)
  then py_slice_to s max_length +:+ TRUNCATED
  else s.

(** One iteration of the loop of lines 55-64 on [crash_with_id]:
    [crash = crash_with_id.crash], then the stacktrace, the tracer stacktrace
    and the crash token are assigned in this order. *)
Definition truncate_crash (max_length : Z) (crash_with_id : CrashWithId.t) : CrashWithId.t :=
  let crash := CrashWithId.crash crash_with_id in
  let crash :=
    TracedCrash.set_crash
      (Crash.set_stacktrace
         (truncate_field max_length (Crash.stacktrace (TracedCrash.crash crash)))
         (TracedCrash.crash crash)) crash in
  let crash :=
    TracedCrash.set_tracer_stacktrace
      (truncate_field max_length (TracedCrash.tracer_stacktrace crash)) crash in
  let crash :=
    TracedCrash.set_crash
      (Crash.set_crash_token
         (truncate_field max_length (Crash.crash_token (TracedCrash.crash crash)))
         (TracedCrash.crash crash)) crash in
  CrashWithId.set_crash crash crash_with_id.

(** The message the call returns.  [text_format.MessageToString] followed by
    [text_format.Parse] into a new [SubmissionEntry()] yields a message equal
    to the argument (protobuf's text-format round trip); the loop then edits
    every crash of that new message. *)
Definition truncate_stacktraces (submission : SubmissionEntry.t) (max_length : Z)
  : SubmissionEntry.t :=
  let truncated_submission := submission in
  SubmissionEntry.set_crashes
    (map (truncate_crash max_length) (SubmissionEntry.crashes truncated_submission))
    truncated_submission.

(** The default [max_length: int = 80]. *)
Definition DEFAULT_MAX_LENGTH : Z := 80.

(** *** The same function over an object store

    Messages are mutable objects.  To state that the argument is left alone,
    the function is also given over a store of message objects: the copy is a
    newly allocated object and the loop assigns into that object in place. *)
Abbreviation loc := positive (only parsing).
Abbreviation heap := (gmap positive SubmissionEntry.t) (only parsing).

(** [truncated_submission.crashes[i]] edited in place by [f]. *)
Definition edit_crash (i : nat) (f : CrashWithId.t → CrashWithId.t)
  (e : SubmissionEntry.t) : SubmissionEntry.t :=
  SubmissionEntry.set_crashes (alter f i (SubmissionEntry.crashes e)) e.

(** The [for] loop of lines 55-64 over the crash positions [idxs] of the
    object at [l]. *)
Fixpoint truncate_loop (max_length : Z) (l : loc) (idxs : list nat) (h : heap) : heap :=
  match idxs with
  | [] => h
  | i :: idxs' =>
      truncate_loop max_length l idxs'
        (alter (edit_crash i (truncate_crash max_length)) l h)
  end.

(** [truncate_stacktraces] on the store: [None] when [submission] is not an
    object of the store. *)
Definition truncate_stacktraces_heap (submission : loc) (max_length : Z) (h : heap)
  : option (loc * heap) :=
  match h !! submission with
  | None => None
  | Some e =>
      let truncated_submission := fresh (dom h) in
      let h1 := <[truncated_submission := e]> h in
      Some (truncated_submission,
            truncate_loop max_length truncated_submission
              (seq 0 (length (SubmissionEntry.crashes e))) h1)
  end.

(** *** The display copy in the words of the specification *)

(** The first [n] characters of [s]. *)
Definition first_chars (n : nat) (s : string) : string := String.substring 0 n s.

(** A text longer than [max_length] is replaced by its first [max_length]
    characters followed by the marker; any other text is kept. *)
Definition clipped (max_length : Z) (s : string) : string :=
  if max_length <? py_len s
  then first_chars (Z.to_nat max_length) s +:+ TRUNCATED
  else s.

(** [c'] displays [c]: both stacktraces are clipped, a crash token of length
    at most [max_length] and every other field are those of [c]. *)
Definition displays_crash (max_length : Z) (c c' : CrashWithId.t) : Prop :=
  let k := TracedCrash.crash (CrashWithId.crash c) in
  let k' := TracedCrash.crash (CrashWithId.crash c') in
  Crash.stacktrace k' = clipped max_length (Crash.stacktrace k)
  ∧ TracedCrash.tracer_stacktrace (CrashWithId.crash c')
    = clipped max_length (TracedCrash.tracer_stacktrace (CrashWithId.crash c))
  ∧ (py_len (Crash.crash_token k) ≤ max_length → Crash.crash_token k' = Crash.crash_token k)
  ∧ Crash.target k' = Crash.target k
  ∧ Crash.harness_name k' = Crash.harness_name k
  ∧ Crash.crash_input_path k' = Crash.crash_input_path k
  ∧ CrashWithId.competition_pov_id c' = CrashWithId.competition_pov_id c
  ∧ CrashWithId.result c' = CrashWithId.result c.

Definition displays (max_length : Z) (e e' : SubmissionEntry.t) : Prop :=
  SubmissionEntry.stop e' = SubmissionEntry.stop e
  ∧ SubmissionEntry.patches e' = SubmissionEntry.patches e
  ∧ SubmissionEntry.bundles e' = SubmissionEntry.bundles e
  ∧ SubmissionEntry.patch_idx e' = SubmissionEntry.patch_idx e
  ∧ Forall2 (displays_crash max_length)
      (SubmissionEntry.crashes e) (SubmissionEntry.crashes e').

(** The crash token of [c'] is the clipped crash token of [c]. *)
Definition token_clipped (max_length : Z) (c c' : CrashWithId.t) : Prop :=
  Crash.crash_token (TracedCrash.crash (CrashWithId.crash c'))
  = clipped max_length (Crash.crash_token (TracedCrash.crash (CrashWithId.crash c))).

(** ** Exceptions, output and the [try]/[except] blocks *)

(** The exceptions the modelled statements raise inside the [try] blocks:
    [SubmissionEntry.FromString] on bytes that do not decode,
    [submission.crashes[0]] on an empty list, and the [assert]. *)
Inductive exn : Type := DecodeError | IndexError | AssertionError.

Inductive level : Type := DEBUG | INFO | WARNING | ERROR.

(** File system paths, by their components ([a / b / c]). *)
Abbreviation path := (list string) (only parsing).

(** [p / name] *)
Definition pjoin (p : path) (name : string) : path := (p ++ [name])%list.
Infix "//" := pjoin (at level 40, left associativity).

(** [json.dumps] of the flat dictionaries [extract_povs] writes. *)
Inductive jvalue : Type := JStr (s : string) | JInt (n : Z) | JBool (b : bool).
Abbreviation json := (list (string * jvalue)) (only parsing).

(** The per-task summary record (lines 33-41). *)
Module TaskResult.
Record t : Type := mk {
  task_id : string;
  project_name : string;
  mode : string;
  n_vulnerabilities : nat;
  n_patches : nat;
  n_bundles : nat;
  patched_vulnerabilities : list string;
  non_patched_vulnerabilities : list string }.
Definition incr_n_vulnerabilities (r : t) : t :=
  mk (task_id r) (project_name r) (mode r) (S (n_vulnerabilities r)) (n_patches r)
     (n_bundles r) (patched_vulnerabilities r) (non_patched_vulnerabilities r).
Definition incr_n_patches (r : t) : t :=
  mk (task_id r) (project_name r) (mode r) (n_vulnerabilities r) (S (n_patches r))
     (n_bundles r) (patched_vulnerabilities r) (non_patched_vulnerabilities r).
Definition incr_n_bundles (r : t) : t :=
  mk (task_id r) (project_name r) (mode r) (n_vulnerabilities r) (n_patches r)
     (S (n_bundles r)) (patched_vulnerabilities r) (non_patched_vulnerabilities r).
Definition append_patched (v : string) (r : t) : t :=
  mk (task_id r) (project_name r) (mode r) (n_vulnerabilities r) (n_patches r)
     (n_bundles r) (patched_vulnerabilities r ++ [v]) (non_patched_vulnerabilities r).
Definition append_non_patched (v : string) (r : t) : t :=
  mk (task_id r) (project_name r) (mode r) (n_vulnerabilities r) (n_patches r)
     (n_bundles r) (patched_vulnerabilities r) (non_patched_vulnerabilities r ++ [v]).
End TaskResult.

(** The log and print statements, by their format string and arguments. *)
Inductive message : Type :=
| No_submissions_found
| Found_submissions (n : nat)
| Skipping_stopped_submission (i : nat)
| Task_not_found_in_registry (task_id : string)
| Skipping_submission_for_task_not (i : nat) (task_id wanted : string)
| Failed_to_parse_submission (i : nat) (e : exn)
| Done
| No_pod_found (pod_label namespace : string)
| Using_pod (pod_name : string)
| Found_submissions_extracting (n : nat) (output_dir : path)
| Skipping_submission_with_no_crashes (i : nat)
| Skipping_submission_for_task (i : nat) (task_id : string)
| Skipping_submission_no_PASSED_crashes (i : nat)
| Extracted_vulnerability (vuln_num : nat) (project_name task_id : string)
    (n_crashes n_patches : nat)
| Failed_to_process_submission (i : nat) (e : exn)
| Extraction_complete (total_vulns n_tasks : nat)
| PoV_files (copied failed : nat)
| Task_vulnerabilities (task_id : string) (count : nat).

Inductive event : Type :=
| Log (lvl : level) (m : message)
| Print_submission (i : nat) (submission : SubmissionEntry.t)
| Print_totals (total_vulnerabilities total_patches total_task_vuln : nat)
| Print_task (task_result : TaskResult.t)
| Print_non_patched (project_name task_id vuln_id : string)
| Print_none
| Mkdir (p : path)
| Write_text (p : path) (content : string)
| Write_json (p : path) (content : json)
| Kubectl_cp (namespace pod_name remote_path : string) (local_path : path) (ok : bool).

(** A Python [dict] with string keys: the items and the insertion order of the
    keys, which is the order [.items()] and [.values()] iterate in. *)
Module dict.
Record t (V : Type) : Type := mk { keys : list string; items : gmap string V }.
Arguments mk {V} _ _.
Arguments keys {V} _.
Arguments items {V} _.
Definition empty {V} : t V := mk [] ∅.
Definition get {V} (d : t V) (k : string) : option V := items d !! k.
Definition contains {V} (d : t V) (k : string) : bool := bool_decide (is_Some (items d !! k)).
(** [d[k] = v] *)
Definition set {V} (k : string) (v : V) (d : t V) : t V :=
  mk (if contains d k then keys d else keys d ++ [k]) (<[k := v]> (items d)).
(** [d[k] = f(d[k])] for a key that is present (no change otherwise). *)
Definition update {V} (k : string) (f : V → V) (d : t V) : t V :=
  mk (keys d) (alter f k (items d)).
Definition to_list {V} (d : t V) : list (string * V) :=
  omap (λ k, (λ v, (k, v)) <$> items d !! k) (keys d).
Definition values {V} (d : t V) : list V := snd <$> to_list d.
End dict.

(** Statements that change a state of type [St] and may raise. *)
Definition M (St A : Type) : Type := St → St * (exn + A).

#[global] Instance M_ret {St} : MRet (M St) := λ A a s, (s, inr a).
#[global] Instance M_bind {St} : MBind (M St) := λ A B k m s,
  match m s with
  | (s', inl e) => (s', inl e)
  | (s', inr a) => k a s'
  end.

Definition raise {St A} (e : exn) : M St A := λ s, (s, inl e).
Definition modify {St} (f : St → St) : M St unit := λ s, (f s, inr tt).
Definition gets {St A} (f : St → A) : M St A := λ s, (s, inr (f s)).
Definition when {St} (b : bool) (m : M St unit) : M St unit :=
  if b then m else mret tt.

(** [try: body  except Exception as e: handler(e)]: the state changes made
    before the exception are kept. *)
Definition try_except {St} (body : M St unit) (handler : exn → M St unit) : St → St :=
  λ s, match body s with
       | (s', inl e) => fst (handler e s')
       | (s', inr _) => s'
       end.

(** [for i, x in enumerate(xs, start): s = body(i, x, s)] *)
Fixpoint for_enumerate {St A} (body : nat → A → St → St) (start : nat) (xs : list A)
  (s : St) : St :=
  match xs with
  | [] => s
  | x :: xs' => for_enumerate body (S start) xs' (body start x s)
  end.

(** [x = o] where decoding or indexing [o] fails with [e]. *)
Definition or_raise {St A} (e : exn) (o : option A) : M St A :=
  match o with Some a => mret a | None => raise e end.

(** ** [read_submissions]: the [ReadSubmissionsSettings] branch of
    [handle_subcommand] (util_cli.py, lines 418-522) *)

Module ReadSubmissionsSettings.
Record t : Type := mk { task_id : string; verbose : bool; filter_stop : bool }.
End ReadSubmissionsSettings.

(** The local variable [result] and what has been printed and logged. *)
Module rs.
Record state : Type := mk { result : dict.t TaskResult.t; out : list event }.
Definition init : state := mk dict.empty [].
Definition emit (ev : event) : M state unit :=
  modify (λ s, mk (result s) (out s ++ [ev])).
Definition on_result (f : dict.t TaskResult.t → dict.t TaskResult.t) : M state unit :=
  modify (λ s, mk (f (result s)) (out s)).
End rs.

(** [c.result == SubmissionResult.PASSED] *)
Definition crash_passed (c : CrashWithId.t) : bool :=
  bool_decide (CrashWithId.result c = PASSED).
Definition patch_passed (p : SubmissionEntryPatch.t) : bool :=
  bool_decide (SubmissionEntryPatch.result p = PASSED).

(** [submission.crashes[0].crash.crash.target.task_id] for a crash. *)
Definition crash_task_id (c : CrashWithId.t) : string :=
  BuildOutput.task_id (Crash.target (TracedCrash.crash (CrashWithId.crash c))).

(** *** Derived views of an entry (specification, sections 4.6 and 4.7) *)

(** At least one crash, respectively patch, has result PASSED. *)
Definition has_passed_crash (e : SubmissionEntry.t) : bool :=
  existsb crash_passed (SubmissionEntry.crashes e).
Definition has_passed_patch (e : SubmissionEntry.t) : bool :=
  existsb patch_passed (SubmissionEntry.patches e).
Definition has_bundle (e : SubmissionEntry.t) : bool :=
  match SubmissionEntry.bundles e with [] => false | _ :: _ => true end.

(** The id under which an entry is listed: the [competition_pov_id] of its
    first PASSED crash. *)
Definition first_passed_pov (e : SubmissionEntry.t) : string :=
  from_option CrashWithId.competition_pov_id "" (List.find crash_passed (SubmissionEntry.crashes e)).

(** A placeholder reservation: a patch entry with empty diff text. *)
Definition is_placeholder (p : SubmissionEntryPatch.t) : bool :=
  negb (str_bool (SubmissionEntryPatch.patch p)).
Definition non_placeholder_patches (e : SubmissionEntry.t) : list SubmissionEntryPatch.t :=
  List.filter (λ p, negb (is_placeholder p)) (SubmissionEntry.patches e).
Definition without_placeholders (e : SubmissionEntry.t) : SubmissionEntry.t :=
  SubmissionEntry.set_patches (non_placeholder_patches e) e.
(** The entry without the placeholders whose result is not PASSED. *)
Definition without_unpassed_placeholders (e : SubmissionEntry.t) : SubmissionEntry.t :=
  SubmissionEntry.set_patches
    (List.filter (λ p, negb (is_placeholder p) || patch_passed p) (SubmissionEntry.patches e)) e.

(** What one read entry adds to the record of its task. *)
Definition tally (e : SubmissionEntry.t) (tr : TaskResult.t) : TaskResult.t :=
  TaskResult.mk (TaskResult.task_id tr) (TaskResult.project_name tr) (TaskResult.mode tr)
    (TaskResult.n_vulnerabilities tr + Nat.b2n (has_passed_crash e))
    (TaskResult.n_patches tr + Nat.b2n (has_passed_patch e))
    (TaskResult.n_bundles tr
     + Nat.b2n (has_bundle e && implb (has_passed_patch e) (has_passed_crash e)))
    (TaskResult.patched_vulnerabilities tr
     ++ if has_passed_crash e && has_passed_patch e then [first_passed_pov e] else [])
    (TaskResult.non_patched_vulnerabilities tr
     ++ if has_passed_crash e && negb (has_passed_patch e) then [first_passed_pov e] else []).

(** [length [x for x in xs if f(x)]] *)
Definition count_if {A} (f : A → bool) (xs : list A) : nat := length (List.filter f xs).

(** The record of a task after the entries [es] have been read, from [tr]. *)
Definition summarize (tr : TaskResult.t) (es : list SubmissionEntry.t) : TaskResult.t :=
  TaskResult.mk (TaskResult.task_id tr) (TaskResult.project_name tr) (TaskResult.mode tr)
    (TaskResult.n_vulnerabilities tr + count_if has_passed_crash es)
    (TaskResult.n_patches tr + count_if has_passed_patch es)
    (TaskResult.n_bundles tr
     + count_if (λ e, has_bundle e && implb (has_passed_patch e) (has_passed_crash e)) es)
    (TaskResult.patched_vulnerabilities tr
     ++ (first_passed_pov
         <$> List.filter (λ e, has_passed_crash e && has_passed_patch e) es))
    (TaskResult.non_patched_vulnerabilities tr
     ++ (first_passed_pov
         <$> List.filter (λ e, has_passed_crash e && negb (has_passed_patch e)) es)).

Section ReadSubmissions.
Context {raw : Type}.
(** [SubmissionEntry.FromString]: [None] when the bytes do not decode. *)
Variable FromString : raw → option SubmissionEntry.t.
(** [TaskRegistry(redis).get] *)
Variable registry_get : string → option Task.t.
Variable command : ReadSubmissionsSettings.t.

(** Lines 437-476, for a decoded (and possibly truncated) [submission].
    [next((x for x in xs if ...), None)] is the first match or [None]; a
    message object is true, so [if c:], [if p:] and [if b:] test for [None]. *)
Definition read_entry (i : nat) (submission : SubmissionEntry.t) : M rs.state unit :=
  if ReadSubmissionsSettings.filter_stop command && SubmissionEntry.stop submission
  then rs.emit (Log INFO (Skipping_stopped_submission i))
  else
    first ← or_raise IndexError (head (SubmissionEntry.crashes submission));
    let task_id := crash_task_id first in
    match registry_get task_id with
    | None => rs.emit (Log ERROR (Task_not_found_in_registry task_id))
    | Some task =>
        if str_bool (ReadSubmissionsSettings.task_id command)
           && negb (String.eqb task_id (ReadSubmissionsSettings.task_id command))
        then rs.emit (Log INFO (Skipping_submission_for_task_not i task_id
                                  (ReadSubmissionsSettings.task_id command)))
        else
          known ← gets (λ s, dict.contains (rs.result s) task_id);
          when (negb known)
            (rs.on_result (dict.set task_id
               (TaskResult.mk task_id (Task.project_name task)
                  (pretty (Task.task_type task)) 0%nat 0%nat 0%nat [] [])));;
          let c := List.find crash_passed (SubmissionEntry.crashes submission) in
          when (bool_decide (is_Some c))
            (rs.on_result (dict.update task_id TaskResult.incr_n_vulnerabilities));;
          let p := List.find patch_passed (SubmissionEntry.patches submission) in
          match p with
          | Some _ =>
              rs.on_result (dict.update task_id TaskResult.incr_n_patches);;
              c ← or_raise AssertionError c;
              rs.on_result (dict.update task_id
                 (TaskResult.append_patched (CrashWithId.competition_pov_id c)))
          | None =>
              match c with
              | Some c =>
                  rs.on_result (dict.update task_id
                    (TaskResult.append_non_patched (CrashWithId.competition_pov_id c)))
              | None => mret tt
              end
          end;;
          let b := head (SubmissionEntry.bundles submission) in
          when (bool_decide (is_Some b))
            (rs.on_result (dict.update task_id TaskResult.incr_n_bundles));;
          rs.emit (Print_submission i submission)
    end.

(** The body of the [try] (lines 432-476). *)
Definition read_body (i : nat) (r : raw) : M rs.state unit :=
  submission ← or_raise DecodeError (FromString r);
  let submission :=
    if ReadSubmissionsSettings.verbose command then submission
    else truncate_stacktraces submission DEFAULT_MAX_LENGTH in
  read_entry i submission.

(** One iteration of the loop, with its [except] clause (lines 431-478). *)
Definition read_iteration (i : nat) (r : raw) : rs.state → rs.state :=
  try_except (read_body i r)
    (λ e, rs.emit (Log ERROR (Failed_to_parse_submission i e))).

(** The summary (lines 480-522), printed from [result]. *)
Definition read_summary (result : dict.t TaskResult.t) : list event :=
  let vs := dict.values result in
  let total_vulnerabilities := sum_list (TaskResult.n_vulnerabilities <$> vs) in
  let total_patches := sum_list (TaskResult.n_patches <$> vs) in
  let total_task_vuln :=
    length (filter (λ tr, 0 < TaskResult.n_vulnerabilities tr)%nat vs) in
  let all_non_patched :=
    vs ≫= (λ tr, (λ v, Print_non_patched (TaskResult.project_name tr)
                         (TaskResult.task_id tr) v)
                 <$> TaskResult.non_patched_vulnerabilities tr) in
  [Print_totals total_vulnerabilities total_patches total_task_vuln]
  ++ (Print_task <$> vs)
  ++ (match all_non_patched with [] => [Print_none] | _ => all_non_patched end)
  ++ [Log INFO Done].

(** The whole branch: the final value of [result] and the output. *)
Definition read_submissions (raw_submissions : list raw) : rs.state :=
  match raw_submissions with
  | [] => rs.mk dict.empty [Log INFO No_submissions_found]
  | _ =>
      let s0 := rs.mk dict.empty [Log INFO (Found_submissions (length raw_submissions))] in
      let s := for_enumerate read_iteration 0 raw_submissions s0 in
      rs.mk (rs.result s) (rs.out s ++ read_summary (rs.result s))
  end.

(** *** The entries a scan reads for a task *)

(** [command.task_id] is empty or equal to [t]. *)
Definition selected (t : string) : bool :=
  negb (str_bool (ReadSubmissionsSettings.task_id command)
        && negb (String.eqb t (ReadSubmissionsSettings.task_id command))).

(** The entry is kept by the [filter_stop] option. *)
Definition passes_stop_filter (e : SubmissionEntry.t) : bool :=
  negb (ReadSubmissionsSettings.filter_stop command && SubmissionEntry.stop e).

(** The task an entry belongs to: the task id of its first crash. *)
Definition entry_task (e : SubmissionEntry.t) : option string :=
  crash_task_id <$> head (SubmissionEntry.crashes e).

(** The task whose record the entry is counted in, when it is counted. *)
Definition counted_task (e : SubmissionEntry.t) : option (string * Task.t) :=
  if passes_stop_filter e then
    match entry_task e with
    | Some t =>
        match registry_get t with
        | Some task => if selected t then Some (t, task) else None
        | None => None
        end
    | None => None
    end
  else None.

(** The stored entries of task [t] that a scan of [raw_submissions] reads:
    the records that decode, in order, that the stop filter keeps and whose
    first crash names [t]. *)
Definition entries_for (t : string) (raw_submissions : list raw) : list SubmissionEntry.t :=
  List.filter (λ e, passes_stop_filter e && bool_decide (entry_task e = Some t))
    (omap FromString raw_submissions).

(** The record of a task before its first entry is read (lines 453-457). *)
Definition new_task_result (t : string) (task : Task.t) : TaskResult.t :=
  TaskResult.mk t (Task.project_name task) (pretty (Task.task_type task)) 0 0 0 [] [].

(** The record of [t] after the entries [es] have been read, from [base]
    ([None]: the task has no record yet). *)
Definition extend (t : string) (task : Task.t) (base : option TaskResult.t)
  (es : list SubmissionEntry.t) : option TaskResult.t :=
  match es with
  | [] => base
  | _ :: _ => Some (summarize (default (new_task_result t task) base) es)
  end.

(** The message a scan works on: the stored entry, truncated unless
    [verbose] is set (lines 434-435). *)
Definition shown (e : SubmissionEntry.t) : SubmissionEntry.t :=
  if ReadSubmissionsSettings.verbose command then e
  else truncate_stacktraces e DEFAULT_MAX_LENGTH.

(** What iteration [i] on [r] prints and logs. *)
Definition read_events (i : nat) (r : raw) : list event :=
  rs.out (read_iteration i r rs.init).

(** What the loop over [raw_submissions] prints and logs, from index [start]. *)
Fixpoint scan_events (start : nat) (raw_submissions : list raw) : list event :=
  match raw_submissions with
  | [] => []
  | r :: rest => read_events start r ++ scan_events (S start) rest
  end.

(** The same, spelled out for the entry [e] at index [i], [d] being the
    message that is printed for it. *)
Definition entry_events (i : nat) (e d : SubmissionEntry.t) : list event :=
  if passes_stop_filter e then
    match entry_task e with
    | None => [Log ERROR (Failed_to_parse_submission i IndexError)]
    | Some t =>
        match registry_get t with
        | None => [Log ERROR (Task_not_found_in_registry t)]
        | Some _ =>
            if selected t then
              if has_passed_patch e && negb (has_passed_crash e)
              then [Log ERROR (Failed_to_parse_submission i AssertionError)]
              else [Print_submission i d]
            else [Log INFO (Skipping_submission_for_task_not i t
                              (ReadSubmissionsSettings.task_id command))]
        end
    end
  else [Log INFO (Skipping_stopped_submission i)].

End ReadSubmissions.

(** Every key of the items of a dictionary is in its key list. *)
Definition dict_wf {V} (d : dict.t V) : Prop :=
  ∀ k, is_Some (dict.get d k) → k ∈ dict.keys d.

(** ** [extract_povs] (util_cli.py, lines 185-352) *)

Module ExtractPovsSettings.
Record t : Type := mk {
  output_dir : path;
  task_id : string;
  passed_only : bool;
  namespace : string;
  pod_label : string }.
End ExtractPovsSettings.

(** The locals [vuln_counter] and [stats], and the effects so far: log
    records, directories made, files written and [kubectl cp] runs. *)
Module ep.
Record state : Type := mk {
  vuln_counter : dict.t nat;
  povs_copied : nat;
  povs_failed : nat;
  out : list event }.
Definition init : state := mk dict.empty 0 0 [].
Definition emit (ev : event) : M state unit :=
  modify (λ s, mk (vuln_counter s) (povs_copied s) (povs_failed s) (out s ++ [ev])).
Definition emits (evs : list event) (s : state) : state :=
  mk (vuln_counter s) (povs_copied s) (povs_failed s) (out s ++ evs).
Definition on_counter (f : dict.t nat → dict.t nat) : M state unit :=
  modify (λ s, mk (f (vuln_counter s)) (povs_copied s) (povs_failed s) (out s)).
Definition count_pov (ok : bool) (s : state) : state :=
  if ok then mk (vuln_counter s) (S (povs_copied s)) (povs_failed s) (out s)
  else mk (vuln_counter s) (povs_copied s) (S (povs_failed s)) (out s).
End ep.

(** [f"{n:03d}"] *)
Definition fmt03d (n : nat) : string :=
  let digits := pretty n in
  String.concat "" (replicate (3 - String.length digits)%nat "0") +:+ digits.

Section ExtractPovs.
Context {raw : Type}.
Variable FromString : raw → option SubmissionEntry.t.
Variable registry_get : string → option Task.t.
(** [kubectl get pods ...]: the stripped standard output, [None] when the
    command fails ([CalledProcessError]). *)
Variable kubectl_get_pods : string → string → option string.
(** Whether [kubectl cp] of a remote path to a local path succeeds. *)
Variable kubectl_cp_ok : string → string → string → path → bool.
Variable command : ExtractPovsSettings.t.

(** Lines 152-165; the error logged on failure is not kept. *)
Definition get_pod_name (namespace label : string) : option string :=
  match kubectl_get_pods namespace label with
  | Some pod_name => if str_bool pod_name then Some pod_name else None
  | None => None
  end.

(** Lines 168-182: the run is recorded together with its outcome (the warning
    logged on failure goes with [ok = false]). *)
Definition kubectl_cp (namespace pod_name remote_path : string) (local_path : path)
  : ep.state → bool * ep.state :=
  λ s, let ok := kubectl_cp_ok namespace pod_name remote_path local_path in
       (ok, ep.emits [Kubectl_cp namespace pod_name remote_path local_path ok] s).

(** One iteration of the crash loop (lines 273-307). *)
Definition extract_crash (pod_name : string) (crashes_dir : path)
  (crash_idx : nat) (crash_with_id : CrashWithId.t) (s : ep.state) : ep.state :=
  let crash := CrashWithId.crash crash_with_id in
  let crash_dir := crashes_dir // ("crash_" +:+ fmt03d crash_idx) in
  let s := ep.emits [Mkdir crash_dir] s in
  let pov_remote_path := Crash.crash_input_path (TracedCrash.crash crash) in
  let pov_local_path := crash_dir // "pov.bin" in
  let '(ok, s) :=
    kubectl_cp (ExtractPovsSettings.namespace command) pod_name pov_remote_path
      pov_local_path s in
  let s := ep.count_pov ok s in
  let s := if ok then s
           else ep.emits [Write_text (crash_dir // "pov_path.txt") pov_remote_path] s in
  let s := if str_bool (Crash.stacktrace (TracedCrash.crash crash))
           then ep.emits [Write_text (crash_dir // "stacktrace.txt")
                            (Crash.stacktrace (TracedCrash.crash crash))] s
           else s in
  let s := if str_bool (TracedCrash.tracer_stacktrace crash)
           then ep.emits [Write_text (crash_dir // "tracer_stacktrace.txt")
                            (TracedCrash.tracer_stacktrace crash)] s
           else s in
  let crash_metadata :=
    [("competition_pov_id", JStr (CrashWithId.competition_pov_id crash_with_id));
     ("result", JStr (result_name (CrashWithId.result crash_with_id)));
     ("harness_name", JStr (Crash.harness_name (TracedCrash.crash crash)));
     ("crash_token", JStr (Crash.crash_token (TracedCrash.crash crash)));
     ("crash_input_path", JStr (Crash.crash_input_path (TracedCrash.crash crash)));
     ("sanitizer", JStr (BuildOutput.sanitizer (Crash.target (TracedCrash.crash crash))));
     ("engine", JStr (BuildOutput.engine (Crash.target (TracedCrash.crash crash))))] in
  ep.emits [Write_json (crash_dir // "metadata.json") crash_metadata] s.

(** The patch loop (lines 310-324): the files written and the final
    [patch_num], from the current [patch_num]. *)
Fixpoint extract_patches (patches_dir : path) (patches : list SubmissionEntryPatch.t)
  (patch_num : nat) (s : ep.state) : nat * ep.state :=
  match patches with
  | [] => (patch_num, s)
  | patch_entry :: patches' =>
      if negb (str_bool (SubmissionEntryPatch.patch patch_entry))
      then extract_patches patches_dir patches' patch_num s
      else
        let patch_num := S patch_num in
        let patch_file := patches_dir // ("patch_" +:+ fmt03d patch_num +:+ ".patch") in
        let patch_metadata :=
          [("internal_patch_id", JStr (SubmissionEntryPatch.internal_patch_id patch_entry));
           ("competition_patch_id",
              JStr (SubmissionEntryPatch.competition_patch_id patch_entry));
           ("result", JStr (result_name (SubmissionEntryPatch.result patch_entry)))] in
        let s :=
          ep.emits
            [Write_text patch_file (SubmissionEntryPatch.patch patch_entry);
             Write_json (patches_dir // ("patch_" +:+ fmt03d patch_num +:+ "_metadata.json"))
               patch_metadata] s in
        extract_patches patches_dir patches' patch_num s
  end.

(** Lines 232-341, for a decoded [submission]. *)
Definition extract_entry (pod_name : string) (i : nat) (submission : SubmissionEntry.t)
  : M ep.state unit :=
  if SubmissionEntry.stop submission
  then ep.emit (Log DEBUG (Skipping_stopped_submission i))
  else
    match SubmissionEntry.crashes submission with
    | [] => ep.emit (Log DEBUG (Skipping_submission_with_no_crashes i))
    | first :: _ =>
        let task_id := crash_task_id first in
        if str_bool (ExtractPovsSettings.task_id command)
           && negb (String.eqb task_id (ExtractPovsSettings.task_id command))
        then ep.emit (Log DEBUG (Skipping_submission_for_task i task_id))
        else if ExtractPovsSettings.passed_only command
                && negb (existsb crash_passed (SubmissionEntry.crashes submission))
        then ep.emit (Log DEBUG (Skipping_submission_no_PASSED_crashes i))
        else
          let project_name :=
            match registry_get task_id with
            | Some task => Task.project_name task
            | None => "unknown"
            end in
          known ← gets (λ s, dict.contains (ep.vuln_counter s) task_id);
          when (negb known) (ep.on_counter (dict.set task_id 0%nat));;
          ep.on_counter (dict.update task_id S);;
          vuln_num ← gets (λ s, default 0%nat (dict.get (ep.vuln_counter s) task_id));
          let vuln_dir :=
            ExtractPovsSettings.output_dir command
              // project_name // task_id // ("vuln_" +:+ fmt03d vuln_num) in
          let crashes_dir := vuln_dir // "crashes" in
          let patches_dir := vuln_dir // "patches" in
          ep.emit (Mkdir crashes_dir);;
          ep.emit (Mkdir patches_dir);;
          modify (for_enumerate (extract_crash pod_name crashes_dir) 1
                    (SubmissionEntry.crashes submission));;
          patch_num ← (λ s, let '(n, s') :=
                               extract_patches patches_dir
                                 (SubmissionEntry.patches submission) 0 s in
                             (s', inr n));
          let vuln_metadata :=
            [("task_id", JStr task_id);
             ("project_name", JStr project_name);
             ("num_crashes", JInt (Z.of_nat (length (SubmissionEntry.crashes submission))));
             ("num_patches", JInt (Z.of_nat patch_num));
             ("num_bundles", JInt (Z.of_nat (length (SubmissionEntry.bundles submission))));
             ("patch_idx", JInt (SubmissionEntry.patch_idx submission));
             ("stopped", JBool (SubmissionEntry.stop submission))] in
          ep.emit (Write_json (vuln_dir // "metadata.json") vuln_metadata);;
          ep.emit (Log INFO (Extracted_vulnerability vuln_num project_name task_id
                               (length (SubmissionEntry.crashes submission)) patch_num))
    end.

(** The body of the [try] (lines 230-341). *)
Definition extract_body (pod_name : string) (i : nat) (r : raw) : M ep.state unit :=
  submission ← or_raise DecodeError (FromString r);
  extract_entry pod_name i submission.

(** One iteration of the loop, with its [except] clause (lines 229-345). *)
Definition extract_iteration (pod_name : string) (i : nat) (r : raw)
  : ep.state → ep.state :=
  try_except (extract_body pod_name i r)
    (λ e, ep.emit (Log ERROR (Failed_to_process_submission i e))).

(** The summary logged after the loop (lines 347-352). *)
Definition extract_summary (s : ep.state) : list event :=
  let counts := dict.to_list (ep.vuln_counter s) in
  [Log INFO (Extraction_complete (sum_list (snd <$> counts)) (length counts));
   Log INFO (PoV_files (ep.povs_copied s) (ep.povs_failed s))]
  ++ ((λ kv, Log INFO (Task_vulnerabilities (fst kv) (snd kv))) <$> counts).

Definition extract_povs (raw_submissions : list raw) : ep.state :=
  match raw_submissions with
  | [] => ep.emits [Log INFO No_submissions_found] ep.init
  | _ =>
      match get_pod_name (ExtractPovsSettings.namespace command)
              (ExtractPovsSettings.pod_label command) with
      | None =>
          ep.emits [Log ERROR (No_pod_found (ExtractPovsSettings.pod_label command)
                                 (ExtractPovsSettings.namespace command))] ep.init
      | Some pod_name =>
          let s := ep.emits
                     [Log INFO (Using_pod pod_name);
                      Mkdir (ExtractPovsSettings.output_dir command);
                      Log INFO (Found_submissions_extracting (length raw_submissions)
                                  (ExtractPovsSettings.output_dir command))] ep.init in
          let s := for_enumerate (extract_iteration pod_name) 0 raw_submissions s in
          ep.emits (extract_summary s) s
      end
  end.

(** A record the scan only logs: its iteration adds one log record and
    changes nothing else. *)
Definition only_logged (pod_name : string) (r : raw) : Prop :=
  ∀ i s, ∃ lvl m, extract_iteration pod_name i r s = ep.emits [Log lvl m] s.

End ExtractPovs.

(** *** Effects of an extraction *)

Definition is_log (ev : event) : bool :=
  match ev with Log _ _ => true | _ => false end.

(** The directories made, files written and [kubectl cp] runs of an output. *)
Definition effects (out : list event) : list event :=
  List.filter (λ ev, negb (is_log ev)) out.

(** The files the patch loop writes for the patches [ps], all of them with
    diff text, the first one numbered [patch_num + 1]. *)
Fixpoint patch_files (patches_dir : list string) (patch_num : nat)
  (ps : list SubmissionEntryPatch.t) : list event :=
  match ps with
  | [] => []
  | p :: ps' =>
      [Write_text (patches_dir // ("patch_" +:+ fmt03d (S patch_num) +:+ ".patch"))
         (SubmissionEntryPatch.patch p);
       Write_json (patches_dir // ("patch_" +:+ fmt03d (S patch_num) +:+ "_metadata.json"))
         [("internal_patch_id", JStr (SubmissionEntryPatch.internal_patch_id p));
          ("competition_patch_id", JStr (SubmissionEntryPatch.competition_patch_id p));
          ("result", JStr (result_name (SubmissionEntryPatch.result p)))]]
      ++ patch_files patches_dir (S patch_num) ps'
  end.

(** Two states of [extract_povs] with the same counters and the same
    effects: they differ in log records only. *)
Definition same_extraction (s s' : ep.state) : Prop :=
  ep.vuln_counter s = ep.vuln_counter s'
  ∧ ep.povs_copied s = ep.povs_copied s'
  ∧ ep.povs_failed s = ep.povs_failed s'
  ∧ effects (ep.out s) = effects (ep.out s').


(** Computations that agree up to log records. *)
Definition agree {A} (m m' : M ep.state A) : Prop :=
  ∀ s s', same_extraction s s' →
    same_extraction (m s).1 (m' s').1 ∧ (m s).2 = (m' s').2.

(** Computations that only add to the output. *)
Definition appends {A} (m : M ep.state A) : Prop :=
  ∀ s, ep.out s `prefix_of` ep.out (m s).1.

(** ** Sample data *)

Module Sample.
Definition crash (task_id crash_token stacktrace tracer pov : string)
  (result : SubmissionResult) : CrashWithId.t :=
  CrashWithId.mk
    (TracedCrash.mk
       (Crash.mk (BuildOutput.mk task_id "address" "libfuzzer") "harness" "/pov/1"
          stacktrace crash_token)
       tracer)
    pov result.

(** A PASSED crash of task T1 with no patch. *)
Definition unpatched : SubmissionEntry.t :=
  SubmissionEntry.mk false [crash "T1" "token" "stack" "tracer" "pov-1" PASSED] [] [] 0.

(** The same vulnerability with a PASSED patch and a bundle. *)
Definition patched : SubmissionEntry.t :=
  SubmissionEntry.mk false [crash "T1" "token" "stack" "tracer" "pov-1" PASSED]
    [SubmissionEntryPatch.mk "" "p0" "" NONE;
     SubmissionEntryPatch.mk "--- a/f.c" "p1" "cp1" PASSED]
    [Bundle.mk "b1"] 1.

(** A PASSED crash whose only patch entry is a placeholder marked PASSED. *)
Definition placeholder_passed : SubmissionEntry.t :=
  SubmissionEntry.mk false [crash "T1" "token" "stack" "tracer" "pov-2" PASSED]
    [SubmissionEntryPatch.mk "" "p0" "" PASSED] [] 0.

(** A stopped entry, and a stopped entry without crashes. *)
Definition stopped : SubmissionEntry.t :=
  SubmissionEntry.mk true [crash "T1" "token" "stack" "tracer" "pov-3" PASSED] [] [] 0.
Definition stopped_empty : SubmissionEntry.t := SubmissionEntry.mk true [] [] [] 0.
Definition empty : SubmissionEntry.t := SubmissionEntry.mk false [] [] [] 0.

(** A crash whose stacktraces and crash token are empty, and one whose crash
    token alone is empty. *)
Definition blank : SubmissionEntry.t :=
  SubmissionEntry.mk false [crash "T1" "" "" "" "pov-4" NONE] [] [] 0.
Definition blank_token : SubmissionEntry.t :=
  SubmissionEntry.mk false [crash "T1" "" "stack" "tracer" "pov-5" NONE] [] [] 0.

(** Stored records given by their decoding; [None] is a corrupt record. *)
Definition FromString (r : option SubmissionEntry.t) : option SubmissionEntry.t := r.
Definition registry_get (task_id : string) : option Task.t :=
  if String.eqb task_id "T1" then Some (Task.mk "project" 1) else None.
Definition kubectl_get_pods (namespace label : string) : option string := Some "scheduler-0".
Definition kubectl_cp_ok (namespace pod_name remote_path : string) (local_path : list string)
  : bool := true.

(** A stored list with a corrupt record, and the record its scan has for T1. *)
Definition stored : list (option SubmissionEntry.t) :=
  [Some unpatched; None; Some patched; Some stopped; Some empty].
Definition record : TaskResult.t :=
  TaskResult.mk "T1" "project" "1" 3 1 1 ["pov-1"] ["pov-1"; "pov-3"].

Definition read_all : ReadSubmissionsSettings.t := ReadSubmissionsSettings.mk "" false false.
Definition read_active : ReadSubmissionsSettings.t := ReadSubmissionsSettings.mk "" false true.
Definition extract_all : ExtractPovsSettings.t :=
  ExtractPovsSettings.mk ["out"] "" false "crs" "app=scheduler".
End Sample.

(** ** Further views of the two scans *)

(** [command] with another [verbose] flag. *)
Definition with_verbose (b : bool) (c : ReadSubmissionsSettings.t)
  : ReadSubmissionsSettings.t :=
  ReadSubmissionsSettings.mk (ReadSubmissionsSettings.task_id c) b
    (ReadSubmissionsSettings.filter_stop c).

(** The [kubectl cp] runs of an output that succeeded, respectively failed. *)
Definition is_cp (ok : bool) (ev : event) : bool :=
  match ev with Kubectl_cp _ _ _ _ ok' => Bool.eqb ok ok' | _ => false end.

(** The local path an event makes, writes or copies to. *)
Definition event_path (ev : event) : option (list string) :=
  match ev with
  | Mkdir p | Write_text p _ | Write_json p _ | Kubectl_cp _ _ _ p _ => Some p
  | _ => None
  end.

Section ExtractViews.
Context {raw : Type}.
Variable FromString : raw → option SubmissionEntry.t.
Variable registry_get : string → option Task.t.
Variable kubectl_cp_ok : string → string → string → list string → bool.
Variable command : ExtractPovsSettings.t.

(** The entry passes the checks of lines 232-253: it is not stopped, has a
    crash, is of the task asked for, and has a PASSED crash when
    [passed_only] is set. *)
Definition extracted (e : SubmissionEntry.t) : bool :=
  negb (SubmissionEntry.stop e)
  && match head (SubmissionEntry.crashes e) with
     | Some first =>
         negb (str_bool (ExtractPovsSettings.task_id command)
               && negb (String.eqb (crash_task_id first)
                          (ExtractPovsSettings.task_id command)))
         && negb (ExtractPovsSettings.passed_only command && negb (has_passed_crash e))
     | None => false
     end.

(** The stored record decodes to an entry that is extracted. *)
Definition extractable (r : raw) : bool :=
  match FromString r with Some e => extracted e | None => false end.

(** The entries of task [t] that a scan of [raw_submissions] extracts. *)
Definition extracted_for (t : string) (raw_submissions : list raw)
  : list SubmissionEntry.t :=
  List.filter (λ e, extracted e && bool_decide (entry_task e = Some t))
    (omap FromString raw_submissions).

(** [task.project_name if task else "unknown"] *)
Definition project_of (t : string) : string :=
  match registry_get t with
  | Some task => Task.project_name task
  | None => "unknown"
  end.

(** [output_dir / project_name / task_id / f"vuln_{vuln_num:03d}"] *)
Definition vuln_dir (project_name t : string) (vuln_num : nat) : list string :=
  ExtractPovsSettings.output_dir command // project_name // t
    // ("vuln_" +:+ fmt03d vuln_num).

(** What the crash loop does from the initial state: its effects and the
    numbers of PoV files copied and not copied. *)
Definition crash_run (pod_name : string) (crashes_dir : list string) (start : nat)
  (crashes : list CrashWithId.t) : ep.state :=
  for_enumerate (extract_crash kubectl_cp_ok command pod_name crashes_dir) start crashes
    ep.init.

(** What one iteration of the crash loop makes, copies and writes for the
    crash [c] numbered [crash_idx] (lines 274-307). *)
Definition crash_output (pod_name : string) (crashes_dir : list string) (crash_idx : nat)
  (c : CrashWithId.t) : list event :=
  let crash := CrashWithId.crash c in
  let crash_dir := crashes_dir // ("crash_" +:+ fmt03d crash_idx) in
  let remote := Crash.crash_input_path (TracedCrash.crash crash) in
  let ok := kubectl_cp_ok (ExtractPovsSettings.namespace command) pod_name remote
              (crash_dir // "pov.bin") in
  [Mkdir crash_dir;
   Kubectl_cp (ExtractPovsSettings.namespace command) pod_name remote
     (crash_dir // "pov.bin") ok]
  ++ (if ok then [] else [Write_text (crash_dir // "pov_path.txt") remote])
  ++ (if str_bool (Crash.stacktrace (TracedCrash.crash crash))
      then [Write_text (crash_dir // "stacktrace.txt")
              (Crash.stacktrace (TracedCrash.crash crash))]
      else [])
  ++ (if str_bool (TracedCrash.tracer_stacktrace crash)
      then [Write_text (crash_dir // "tracer_stacktrace.txt")
              (TracedCrash.tracer_stacktrace crash)]
      else [])
  ++ [Write_json (crash_dir // "metadata.json")
        [("competition_pov_id", JStr (CrashWithId.competition_pov_id c));
         ("result", JStr (result_name (CrashWithId.result c)));
         ("harness_name", JStr (Crash.harness_name (TracedCrash.crash crash)));
         ("crash_token", JStr (Crash.crash_token (TracedCrash.crash crash)));
         ("crash_input_path", JStr (Crash.crash_input_path (TracedCrash.crash crash)));
         ("sanitizer",
            JStr (BuildOutput.sanitizer (Crash.target (TracedCrash.crash crash))));
         ("engine", JStr (BuildOutput.engine (Crash.target (TracedCrash.crash crash))))]].

(** [vuln_counter] after one more vulnerability of task [t] (lines 260-262). *)
Definition bump (t : string) (vuln_counter : dict.t nat) : dict.t nat :=
  dict.update t S
    (if dict.contains vuln_counter t then vuln_counter else dict.set t 0%nat vuln_counter).

(** What is made, written and logged for the entry [e] of task [t] that is
    extracted as vulnerability number [vuln_num] (lines 265-341). *)
Definition entry_output (pod_name : string) (vuln_num : nat) (t : string)
  (e : SubmissionEntry.t) : list event :=
  let dir := vuln_dir (project_of t) t vuln_num in
  [Mkdir (dir // "crashes"); Mkdir (dir // "patches")]
  ++ ep.out (crash_run pod_name (dir // "crashes") 1 (SubmissionEntry.crashes e))
  ++ patch_files (dir // "patches") 0 (non_placeholder_patches e)
  ++ [Write_json (dir // "metadata.json")
        [("task_id", JStr t);
         ("project_name", JStr (project_of t));
         ("num_crashes", JInt (Z.of_nat (length (SubmissionEntry.crashes e))));
         ("num_patches", JInt (Z.of_nat (length (non_placeholder_patches e))));
         ("num_bundles", JInt (Z.of_nat (length (SubmissionEntry.bundles e))));
         ("patch_idx", JInt (SubmissionEntry.patch_idx e));
         ("stopped", JBool (SubmissionEntry.stop e))];
      Log INFO (Extracted_vulnerability vuln_num (project_of t) t
                  (length (SubmissionEntry.crashes e))
                  (length (non_placeholder_patches e)))].

End ExtractViews.

(** The event touches no path outside [dir]. *)
Definition under (dir : list string) (ev : event) : Prop :=
  ∀ p, event_path ev = Some p → dir `prefix_of` p.

(** A [kubectl cp] run copies the input of one of [crashes] from the pod
    [pod_name] of [namespace], and is recorded with its outcome. *)
Definition cp_from (kubectl_cp_ok : string → string → string → list string → bool)
  (namespace pod_name : string) (crashes : list CrashWithId.t) (ev : event) : Prop :=
  match ev with
  | Kubectl_cp namespace' pod_name' remote_path local_path ok =>
      namespace' = namespace ∧ pod_name' = pod_name
      ∧ ok = kubectl_cp_ok namespace pod_name remote_path local_path
      ∧ ∃ c, c ∈ crashes
             ∧ remote_path
               = Crash.crash_input_path (TracedCrash.crash (CrashWithId.crash c))
  | _ => True
  end.

(** [sum(len(e.crashes) for e in es)] *)
Definition total_crashes (es : list SubmissionEntry.t) : nat :=
  sum_list (length <$> (SubmissionEntry.crashes <$> es)).

(** The number a string of decimal digits denotes ([int(s)]). *)
Definition digit (c : ascii) : N :=
  match c with
  | "1" => 1 | "2" => 2 | "3" => 3 | "4" => 4 | "5" => 5
  | "6" => 6 | "7" => 7 | "8" => 8 | "9" => 9 | _ => 0
  end%char%N.
Fixpoint decimal (s : string) : N :=
  match s with
  | EmptyString => 0
  | String c s' => digit c * 10 ^ N.of_nat (String.length s') + decimal s'
  end%N.

(** The keys of a dictionary are kept without repetition, and are the keys
    that have a value. *)
Definition dict_ok {V} (d : dict.t V) : Prop :=
  NoDup (dict.keys d) ∧ ∀ k, k ∈ dict.keys d ↔ is_Some (dict.get d k).

Section ReadViews.
Context {raw : Type}.
Variable FromString : raw → option SubmissionEntry.t.
Variable registry_get : string → option Task.t.
Variable command : ReadSubmissionsSettings.t.

(** The entries a scan of [raw_submissions] counts in some record. *)
Definition counted_entries (raw_submissions : list raw) : list SubmissionEntry.t :=
  List.filter (λ e, bool_decide (is_Some (counted_task registry_get command e)))
    (omap FromString raw_submissions).

(** The entry is printed: it is counted and its assertion holds. *)
Definition printed (e : SubmissionEntry.t) : bool :=
  bool_decide (is_Some (counted_task registry_get command e))
  && implb (has_passed_patch e) (has_passed_crash e).

End ReadViews.

(** A line that prints a submission. *)
Definition is_submission (ev : event) : bool :=
  match ev with Print_submission _ _ => true | _ => false end.

(** The output without the printed submissions. *)
Definition without_submissions (out : list event) : list event :=
  List.filter (λ ev, negb (is_submission ev)) out.

(** ** Further sample data *)

Module Fixture.
(** A PASSED crash of a task the registry does not know. *)
Definition unregistered : SubmissionEntry.t :=
  SubmissionEntry.mk false [Sample.crash "T2" "token" "stack" "tracer" "pov-6" PASSED]
    [] [] 0.

(** A PASSED patch for a crash that has not passed. *)
Definition patch_only : SubmissionEntry.t :=
  SubmissionEntry.mk false [Sample.crash "T1" "token" "stack" "tracer" "pov-7" NONE]
    [SubmissionEntryPatch.mk "--- a/g.c" "p2" "cp2" PASSED] [Bundle.mk "b2"] 0.

(** A pod from which nothing can be copied. *)
Definition kubectl_cp_fails (namespace pod_name remote_path : string)
  (local_path : list string) : bool := false.

(** A stored list with an entry of the unregistered task. *)
Definition stored : list (option SubmissionEntry.t) :=
  [Some Sample.unpatched; Some unregistered].
End Fixture.

(** * Properties *)

Ltac run :=
  unfold mbind, M_bind, mret, M_ret, raise, modify, gets, when, or_raise,
    rs.emit, rs.on_result, ep.emit, ep.on_counter in *; simpl in *.

(** ** The display copy *)

Lemma str_bool_length (s : string) : 0 < py_len s → str_bool s = true.
Proof. destruct s; [unfold py_len; simpl; lia | done]. Qed.

Lemma py_slice_to_nonneg (s : string) (n : Z) :
  0 ≤ n → py_slice_to s n = first_chars (Z.to_nat n) s.
Proof.
  intros Hn. unfold py_slice_to, first_chars.
  destruct (Z.ltb_spec n 0); [lia | done].
Qed.

Lemma truncate_field_clipped (m : Z) (s : string) :
  0 ≤ m → truncate_field m s = clipped m s.
Proof.
  intros Hm. unfold truncate_field, clipped.
  destruct (Z.ltb_spec m (py_len s)) as [Hlt | Hge].
  - rewrite str_bool_length by lia. simpl. by rewrite py_slice_to_nonneg.
  - by rewrite andb_false_r.
Qed.

Lemma truncate_crash_displays (m : Z) (c : CrashWithId.t) :
  0 ≤ m → displays_crash m c (truncate_crash m c).
Proof.
  intros Hm. destruct c as [[[tg hn ip st tk] tr] pov res].
  unfold displays_crash, truncate_crash; simpl.
  rewrite !truncate_field_clipped by done.
  repeat split. intros Hle. unfold clipped.
  destruct (Z.ltb_spec m (py_len tk)); [lia | done].
Qed.

Lemma truncate_stacktraces_displays (m : Z) (e : SubmissionEntry.t) :
  0 ≤ m → displays m e (truncate_stacktraces e m).
Proof.
  intros Hm. unfold displays, truncate_stacktraces; simpl.
  repeat split. apply Forall2_fmap_r, Forall_Forall2_diag, Forall_forall.
  intros c _. by apply truncate_crash_displays.
Qed.

(** The loop only touches the object it is run on. *)
Lemma truncate_loop_other (m : Z) (l : positive) (idxs : list nat)
  (h : gmap positive SubmissionEntry.t) (k : positive) :
  k ≠ l → truncate_loop m l idxs h !! k = h !! k.
Proof.
  intros Hk. revert h. induction idxs as [| i idxs IH]; intros h; simpl; [done |].
  rewrite IH. by rewrite lookup_alter_ne.
Qed.

Lemma truncate_loop_at (m : Z) (l : positive) (idxs : list nat)
  (h : gmap positive SubmissionEntry.t) (e : SubmissionEntry.t) :
  h !! l = Some e →
  truncate_loop m l idxs h !! l
  = Some (foldl (λ e i, edit_crash i (truncate_crash m) e) e idxs).
Proof.
  revert h e. induction idxs as [| i idxs IH]; intros h e He; simpl; [done |].
  apply IH. by rewrite lookup_alter_eq, He.
Qed.

(** Editing the positions [0 .. len - 1] one after the other is a [map]. *)
Lemma foldl_alter_seq {A} (f : A → A) (l pre : list A) :
  foldl (λ acc i, alter f i acc) (pre ++ l) (seq (length pre) (length l))
  = pre ++ map f l.
Proof.
  revert pre. induction l as [| x l IH]; intros pre; simpl; [done |].
  rewrite <- (Nat.add_0_r (length pre)) at 1.
  rewrite alter_app_r. simpl.
  rewrite (cons_middle (f x) pre l), app_assoc.
  replace (S (length pre)) with (length (pre ++ [f x])) by (rewrite length_app; simpl; lia).
  rewrite IH. by rewrite <- app_assoc.
Qed.

Lemma foldl_edit_crash (f : CrashWithId.t → CrashWithId.t) (idxs : list nat)
  (e : SubmissionEntry.t) :
  foldl (λ e i, edit_crash i f e) e idxs
  = SubmissionEntry.set_crashes
      (foldl (λ acc i, alter f i acc) (SubmissionEntry.crashes e) idxs) e.
Proof.
  revert e. induction idxs as [| i idxs IH]; intros e; simpl.
  - by destruct e.
  - rewrite IH. by destruct e.
Qed.

(** On the store, the call allocates one object holding the returned message
    and changes nothing else. *)
Lemma truncate_stacktraces_heap_value (l : positive) (m : Z)
  (h : gmap positive SubmissionEntry.t) (e : SubmissionEntry.t) :
  h !! l = Some e →
  truncate_stacktraces_heap l m h
  = Some (fresh (dom h), <[fresh (dom h) := truncate_stacktraces e m]> h).
Proof.
  intros He. unfold truncate_stacktraces_heap. rewrite He. do 2 f_equal.
  apply map_eq. intros k. destruct (decide (k = fresh (dom h))) as [-> | Hk].
  - rewrite (truncate_loop_at _ _ _ _ e) by apply lookup_insert_eq.
    rewrite lookup_insert_eq, foldl_edit_crash. f_equal.
    unfold truncate_stacktraces. f_equal.
    apply (foldl_alter_seq (truncate_crash m) (SubmissionEntry.crashes e) []).
  - rewrite truncate_loop_other by done. by rewrite !lookup_insert_ne.
Qed.

(** C5, amended to non-negative lengths: for every store [h], every entry [e]
    held at [submission] and every [max_length >= 0], [truncate_stacktraces]
    returns a newly allocated object [copy]; the argument still holds [e] and
    no other object of the store changes (nothing is written back).  In the
    copy every stacktrace and tracer stacktrace longer than [max_length] is
    its first [max_length] characters followed by "... (truncated)", and every
    text of length at most [max_length], like every other field, is the
    one of [e]. *)
Theorem truncate_stacktraces_display_copy (h : gmap positive SubmissionEntry.t)
  (submission : positive) (e : SubmissionEntry.t) (max_length : Z) :
  0 ≤ max_length →
  h !! submission = Some e →
  ∃ (copy : positive) (h' : gmap positive SubmissionEntry.t),
    truncate_stacktraces_heap submission max_length h = Some (copy, h')
    ∧ h !! copy = None
    ∧ h' !! submission = Some e
    ∧ (∀ l, l ≠ copy → h' !! l = h !! l)
    ∧ h' !! copy = Some (truncate_stacktraces e max_length)
    ∧ displays max_length e (truncate_stacktraces e max_length).
Proof.
  intros Hm He.
  assert (h !! fresh (dom h) = None) as Hfresh by apply not_elem_of_dom, is_fresh.
  exists (fresh (dom h)), (<[fresh (dom h) := truncate_stacktraces e max_length]> h).
  split; [by apply truncate_stacktraces_heap_value |].
  split; [done |].
  split; [rewrite lookup_insert_ne; [done | congruence] |].
  split; [intros l Hl; by rewrite lookup_insert_ne |].
  split; [apply lookup_insert_eq | by apply truncate_stacktraces_displays].
Qed.

Lemma truncate_stacktraces_display_copy_witness :
  ∃ (copy : positive) (h' : gmap positive SubmissionEntry.t),
    truncate_stacktraces_heap 1%positive 2 {[1%positive := Sample.unpatched]}
    = Some (copy, h')
    ∧ ({[1%positive := Sample.unpatched]} : gmap positive SubmissionEntry.t) !! copy = None
    ∧ h' !! 1%positive = Some Sample.unpatched
    ∧ (∀ l, l ≠ copy →
         h' !! l = ({[1%positive := Sample.unpatched]} : gmap positive SubmissionEntry.t) !! l)
    ∧ h' !! copy = Some (truncate_stacktraces Sample.unpatched 2)
    ∧ displays 2 Sample.unpatched (truncate_stacktraces Sample.unpatched 2).
Proof.
  apply (truncate_stacktraces_display_copy {[1%positive := Sample.unpatched]} 1%positive
           Sample.unpatched 2).
  - lia.
  - reflexivity.
Defined.

(** With [max_length = -1] the empty stacktrace of [Sample.blank] is longer
    than [max_length], yet the copy equals the argument: the stacktrace is
    not followed by "... (truncated)", whatever prefix is taken. *)
Lemma truncate_stacktraces_negative_max_length :
  -1 < py_len ""
  ∧ truncate_stacktraces Sample.blank (-1) = Sample.blank
  ∧ (∀ c prefix,
       c ∈ SubmissionEntry.crashes (truncate_stacktraces Sample.blank (-1)) →
       Crash.stacktrace (TracedCrash.crash (CrashWithId.crash c)) ≠ prefix +:+ TRUNCATED)
  ∧ ¬ displays (-1) Sample.blank (truncate_stacktraces Sample.blank (-1)).
Proof.
  split; [done |]. split; [reflexivity |]. split.
  - intros c prefix ->%list_elem_of_singleton. simpl. by destruct prefix.
  - intros (_ & _ & _ & _ & Hcrashes).
    apply Forall2_cons_1 in Hcrashes as [(Hstack & _) _].
    discriminate Hstack.
Qed.

(** C9, amended to non-negative lengths: for every entry and every
    [max_length >= 0], the crash token of every crash of the returned copy is
    the clipped crash token of the argument: a token longer than [max_length]
    is replaced by its first [max_length] characters followed by
    "... (truncated)".  The displayed token can differ from the stored one. *)
Theorem truncate_stacktraces_clips_crash_token (e : SubmissionEntry.t) (max_length : Z) :
  0 ≤ max_length →
  Forall2 (token_clipped max_length) (SubmissionEntry.crashes e)
    (SubmissionEntry.crashes (truncate_stacktraces e max_length))
  ∧ (∀ c, c ∈ SubmissionEntry.crashes e →
       max_length < py_len (Crash.crash_token (TracedCrash.crash (CrashWithId.crash c))) →
       Crash.crash_token (TracedCrash.crash (CrashWithId.crash (truncate_crash max_length c)))
       = first_chars (Z.to_nat max_length)
           (Crash.crash_token (TracedCrash.crash (CrashWithId.crash c))) +:+ TRUNCATED)
  ∧ (∃ e0 m0, 0 ≤ m0
       ∧ SubmissionEntry.crashes (truncate_stacktraces e0 m0) ≠ SubmissionEntry.crashes e0
       ∧ ¬ Forall2 (λ c c', Crash.crash_token (TracedCrash.crash (CrashWithId.crash c'))
                            = Crash.crash_token (TracedCrash.crash (CrashWithId.crash c)))
             (SubmissionEntry.crashes e0)
             (SubmissionEntry.crashes (truncate_stacktraces e0 m0))).
Proof.
  intros Hm. split; [| split].
  - unfold truncate_stacktraces; simpl.
    apply Forall2_fmap_r, Forall_Forall2_diag, Forall_forall. intros c _.
    unfold token_clipped. destruct c as [[[tg hn ip st tk] tr] pov res]; simpl.
    by apply truncate_field_clipped.
  - intros c _ Hlong. destruct c as [[[tg hn ip st tk] tr] pov res]; simpl in *.
    rewrite truncate_field_clipped by done. unfold clipped.
    destruct (Z.ltb_spec max_length (py_len tk)); [done | lia].
  - exists Sample.unpatched, 2. split; [lia |]. split; [done |].
    intros [Htoken _]%Forall2_cons_1. discriminate Htoken.
Qed.

Lemma truncate_stacktraces_clips_crash_token_witness :
  Forall2 (token_clipped 2) (SubmissionEntry.crashes Sample.unpatched)
    [Sample.crash "T1" "to... (truncated)" "st... (truncated)" "tr... (truncated)"
       "pov-1" PASSED].
Proof.
  apply (proj1 (truncate_stacktraces_clips_crash_token Sample.unpatched 2
                  ltac:(lia))).
Defined.

(** With [max_length = -1] the empty crash token of [Sample.blank_token] is
    longer than [max_length] and stays empty: it is not followed by
    "... (truncated)". *)
Lemma crash_token_negative_max_length :
  -1 < py_len ""
  ∧ SubmissionEntry.crashes (truncate_stacktraces Sample.blank_token (-1))
    = [Sample.crash "T1" "" "stac... (truncated)" "trace... (truncated)" "pov-5" NONE]
  ∧ (∀ c prefix,
       c ∈ SubmissionEntry.crashes (truncate_stacktraces Sample.blank_token (-1)) →
       Crash.crash_token (TracedCrash.crash (CrashWithId.crash c)) ≠ prefix +:+ TRUNCATED)
  ∧ ¬ Forall2 (token_clipped (-1)) (SubmissionEntry.crashes Sample.blank_token)
        (SubmissionEntry.crashes (truncate_stacktraces Sample.blank_token (-1))).
Proof.
  split; [done |]. split; [reflexivity |]. split.
  - intros c prefix ->%list_elem_of_singleton. simpl. by destruct prefix.
  - intros [Htoken _]%Forall2_cons_1. discriminate Htoken.
Qed.

(** ** Lists, dictionaries and task records *)

Lemma existsb_find {A} (f : A → bool) (l : list A) :
  existsb f l = match List.find f l with Some _ => true | None => false end.
Proof. induction l as [| x l IH]; simpl; [done |]. by destruct (f x). Qed.

Lemma find_map_invariant {A} (p : A → bool) (f : A → A) (l : list A) :
  (∀ x, p (f x) = p x) → List.find p (map f l) = f <$> List.find p l.
Proof.
  intros Hp. induction l as [| x l IH]; simpl; [done |].
  rewrite Hp. by destruct (p x).
Qed.

Lemma existsb_map_invariant {A} (p : A → bool) (f : A → A) (l : list A) :
  (∀ x, p (f x) = p x) → existsb p (map f l) = existsb p l.
Proof.
  intros Hp. induction l as [| x l IH]; simpl; [done |]. by rewrite Hp, IH.
Qed.

Lemma existsb_filter_implied {A} (f g : A → bool) (l : list A) :
  (∀ x, f x = true → g x = true) → existsb f (List.filter g l) = existsb f l.
Proof.
  intros Hfg. induction l as [| x l IH]; simpl; [done |].
  destruct (g x) eqn:Hg; simpl; rewrite IH; [done |].
  destruct (f x) eqn:Hf; [| done]. apply Hfg in Hf. congruence.
Qed.

Lemma filter_filter_same {A} (f : A → bool) (l : list A) :
  List.filter f (List.filter f l) = List.filter f l.
Proof.
  induction l as [| x l IH]; simpl; [done |].
  destruct (f x) eqn:Hf; simpl; [| done]. by rewrite Hf, IH.
Qed.

Lemma for_enumerate_app {St A} (body : nat → A → St → St) (xs ys : list A) (k : nat)
  (s : St) :
  for_enumerate body k (xs ++ ys) s
  = for_enumerate body (k + length xs) ys (for_enumerate body k xs s).
Proof.
  revert k s. induction xs as [| x xs IH]; intros k s; simpl.
  - by rewrite Nat.add_0_r.
  - rewrite IH. by rewrite Nat.add_succ_r.
Qed.

(** Lookups after [d[k] = f(d[k])] and [d[k] = v]. *)
Lemma dict_get_update {V} (k k' : string) (f : V → V) (d : dict.t V) :
  dict.get (dict.update k f d) k'
  = if decide (k' = k) then f <$> dict.get d k else dict.get d k'.
Proof.
  unfold dict.get, dict.update; simpl. case_decide as Hk.
  - subst. apply lookup_alter_eq.
  - by apply lookup_alter_ne.
Qed.

Lemma dict_get_set {V} (k k' : string) (v : V) (d : dict.t V) :
  dict.get (dict.set k v d) k' = if decide (k' = k) then Some v else dict.get d k'.
Proof.
  unfold dict.get, dict.set; simpl. case_decide as Hk.
  - subst. apply lookup_insert_eq.
  - by apply lookup_insert_ne.
Qed.

Lemma dict_contains_get {V} (d : dict.t V) (k : string) :
  dict.contains d k = match dict.get d k with Some _ => true | None => false end.
Proof.
  unfold dict.contains, dict.get. destruct (dict.items d !! k) eqn:E.
  - apply bool_decide_eq_true. eauto.
  - apply bool_decide_eq_false. by intros [? ?].
Qed.

(** The key list stays complete under the dictionary operations. *)
Lemma dict_wf_empty {V} : dict_wf (dict.empty : dict.t V).
Proof. intros k [v Hk]. unfold dict.get in Hk. simpl in Hk. by rewrite lookup_empty in Hk. Qed.

Lemma dict_wf_update {V} (k : string) (f : V → V) (d : dict.t V) :
  dict_wf d → dict_wf (dict.update k f d).
Proof.
  intros Hd k' Hk'. rewrite dict_get_update in Hk'. simpl. apply Hd.
  case_decide; [subst; by apply fmap_is_Some in Hk' | done].
Qed.

Lemma dict_wf_set {V} (k : string) (v : V) (d : dict.t V) :
  dict_wf d → dict_wf (dict.set k v d).
Proof.
  intros Hd k' Hk'. rewrite dict_get_set in Hk'. simpl.
  rewrite dict_contains_get.
  case_decide as Hkk.
  - subst k'. destruct (dict.get d k) eqn:E.
    + apply Hd. by rewrite E.
    + apply elem_of_app. right. by apply list_elem_of_singleton.
  - destruct (dict.get d k); [by apply Hd | apply elem_of_app; left; by apply Hd].
Qed.

(** [.values()] lists the items, and all of them. *)
Lemma elem_of_dict_values {V} (d : dict.t V) (v : V) :
  v ∈ dict.values d → ∃ k, dict.get d k = Some v.
Proof.
  unfold dict.values, dict.to_list.
  intros ([k v'] & -> & H)%list_elem_of_fmap.
  apply list_elem_of_omap in H as (k' & _ & H).
  unfold dict.get. destruct (dict.items d !! k') eqn:E; simpl in H; [| done].
  injection H as <- <-. eauto.
Qed.

Lemma dict_values_elem_of {V} (d : dict.t V) (k : string) (v : V) :
  dict_wf d → dict.get d k = Some v → v ∈ dict.values d.
Proof.
  intros Hd Hk. unfold dict.values, dict.to_list.
  apply list_elem_of_fmap. exists (k, v). split; [done |].
  apply list_elem_of_omap. exists k. split; [apply Hd; by rewrite Hk |].
  unfold dict.get in Hk. by rewrite Hk.
Qed.

(** [summarize] adds the entries one [tally] at a time. *)
Lemma summarize_nil (tr : TaskResult.t) : summarize tr [] = tr.
Proof.
  destruct tr. unfold summarize, count_if; simpl.
  rewrite !Nat.add_0_r, !app_nil_r. done.
Qed.

Lemma summarize_cons (tr : TaskResult.t) (e : SubmissionEntry.t)
  (es : list SubmissionEntry.t) :
  summarize tr (e :: es) = summarize (tally e tr) es.
Proof.
  unfold summarize, tally, count_if; simpl.
  destruct (has_passed_crash e), (has_passed_patch e), (has_bundle e); simpl;
    rewrite <- ?app_assoc; simpl; f_equal; lia.
Qed.

Lemma extend_cons t task base e es :
  extend t task base (e :: es)
  = extend t task (Some (tally e (default (new_task_result t task) base))) es.
Proof.
  unfold extend. rewrite summarize_cons. destruct es; [by rewrite summarize_nil | done].
Qed.

Lemma extend_Some (t : string) (task : Task.t) (es : list SubmissionEntry.t)
  (tr : TaskResult.t) :
  extend t task None es = Some tr → tr = summarize (new_task_result t task) es.
Proof. destruct es; [done |]. by intros [= <-]. Qed.

(** The summary logs no error and prints the records of [result]. *)
Lemma not_in_read_summary (d : dict.t TaskResult.t) (m : message) :
  Log ERROR m ∉ read_summary d.
Proof.
  unfold read_summary. cbv zeta. rewrite !elem_of_app. intros [H | [H | [H | H]]].
  - apply list_elem_of_singleton in H. discriminate.
  - apply list_elem_of_fmap in H as (? & ? & _). discriminate.
  - destruct (dict.values d ≫= _) as [| ev evs] eqn:Hevs.
    + apply list_elem_of_singleton in H. discriminate.
    + rewrite <- Hevs in H. apply list_elem_of_bind in H as (tr & H & _).
      apply list_elem_of_fmap in H as (? & ? & _). discriminate.
  - apply list_elem_of_singleton in H. discriminate.
Qed.

Lemma read_summary_task (d : dict.t TaskResult.t) (tr : TaskResult.t) :
  Print_task tr ∈ read_summary d ↔ tr ∈ dict.values d.
Proof.
  unfold read_summary. cbv zeta. rewrite !elem_of_app. split.
  - intros [H | [H | [H | H]]].
    + apply list_elem_of_singleton in H. discriminate.
    + apply list_elem_of_fmap in H as (tr' & [= ->] & H). done.
    + destruct (dict.values d ≫= _) as [| ev evs] eqn:Hevs.
      * apply list_elem_of_singleton in H. discriminate.
      * rewrite <- Hevs in H. apply list_elem_of_bind in H as (tr' & H & _).
        apply list_elem_of_fmap in H as (? & ? & _). discriminate.
    + apply list_elem_of_singleton in H. discriminate.
  - intros H. right. left. apply list_elem_of_fmap. eauto.
Qed.

(** ** [read_submissions] *)

(** Truncation keeps what the scans look at. *)

Lemma truncate_crash_result (m : Z) (c : CrashWithId.t) :
  CrashWithId.result (truncate_crash m c) = CrashWithId.result c.
Proof. done. Qed.

Lemma truncate_crash_passed (m : Z) (c : CrashWithId.t) :
  crash_passed (truncate_crash m c) = crash_passed c.
Proof. done. Qed.

Lemma truncate_crash_task_id (m : Z) (c : CrashWithId.t) :
  crash_task_id (truncate_crash m c) = crash_task_id c.
Proof. done. Qed.

Section ReadProps.
Context {raw : Type}.
Variable FromString : raw → option SubmissionEntry.t.
Variable registry_get : string → option Task.t.
Variable command : ReadSubmissionsSettings.t.

(** Two task records with the same texts and equal counts and lists. *)
Ltac task_record :=
  unfold TaskResult.incr_n_vulnerabilities, TaskResult.incr_n_patches,
    TaskResult.incr_n_bundles, TaskResult.append_patched, TaskResult.append_non_patched,
    new_task_result;
  simpl; rewrite ?app_nil_r; do 2 f_equal; lia.

(** The record of every task after one entry has been read. *)

Lemma read_entry_result (i : nat) (d : SubmissionEntry.t) (s : rs.state) (t' : string) :
  dict.get (rs.result (read_entry registry_get command i d s).1) t'
  = match counted_task registry_get command d with
    | Some (t, task) =>
        if decide (t' = t)
        then Some (tally d (default (new_task_result t task) (dict.get (rs.result s) t)))
        else dict.get (rs.result s) t'
    | None => dict.get (rs.result s) t'
    end.
Proof.
  unfold read_entry, counted_task, passes_stop_filter, entry_task, selected.
  destruct (ReadSubmissionsSettings.filter_stop command && SubmissionEntry.stop d);
    simpl; [done |].
  destruct (head (SubmissionEntry.crashes d)) as [c |] eqn:Hhead; run; [| done].
  destruct (registry_get (crash_task_id c)) as [task |]; simpl; [| done].
  destruct (str_bool _ && negb _); simpl; [done |].
  unfold tally, has_passed_crash, has_passed_patch, has_bundle, first_passed_pov.
  rewrite !existsb_find, dict_contains_get.
  destruct s as [res out]; simpl.
  destruct (dict.get res (crash_task_id c)) as [tr0 |] eqn:Hget;
    destruct (List.find crash_passed (SubmissionEntry.crashes d)) as [pc |];
    destruct (List.find patch_passed (SubmissionEntry.patches d)) as [pp |];
    destruct (SubmissionEntry.bundles d) as [| b bs]; simpl;
    rewrite ?dict_get_update, ?dict_get_set;
    (destruct (decide (t' = crash_task_id c)) as [-> | Ht'];
     [rewrite ?dict_get_update, ?dict_get_set, ?decide_True, ?Hget by done | done]);
    simpl; try destruct tr0; task_record.
Qed.

(** The message a scan works on has the stop flag, patches, bundles, verdicts,
    ids and task of the stored entry. *)
Lemma shown_stop e : SubmissionEntry.stop (shown command e) = SubmissionEntry.stop e.
Proof. unfold shown. by destruct (ReadSubmissionsSettings.verbose command). Qed.

Lemma shown_patches e :
  SubmissionEntry.patches (shown command e) = SubmissionEntry.patches e.
Proof. unfold shown. by destruct (ReadSubmissionsSettings.verbose command). Qed.

Lemma shown_bundles e :
  SubmissionEntry.bundles (shown command e) = SubmissionEntry.bundles e.
Proof. unfold shown. by destruct (ReadSubmissionsSettings.verbose command). Qed.

Lemma shown_has_passed_crash e : has_passed_crash (shown command e) = has_passed_crash e.
Proof.
  unfold shown. destruct (ReadSubmissionsSettings.verbose command); [done |].
  unfold has_passed_crash; simpl. by apply existsb_map_invariant.
Qed.

Lemma shown_has_passed_patch e : has_passed_patch (shown command e) = has_passed_patch e.
Proof. unfold has_passed_patch. by rewrite shown_patches. Qed.

Lemma shown_has_bundle e : has_bundle (shown command e) = has_bundle e.
Proof. unfold has_bundle. by rewrite shown_bundles. Qed.

Lemma shown_first_passed_pov e : first_passed_pov (shown command e) = first_passed_pov e.
Proof.
  unfold shown. destruct (ReadSubmissionsSettings.verbose command); [done |].
  unfold first_passed_pov; simpl.
  rewrite find_map_invariant by done.
  by destruct (List.find crash_passed (SubmissionEntry.crashes e)).
Qed.

Lemma shown_entry_task e : entry_task (shown command e) = entry_task e.
Proof.
  unfold shown. destruct (ReadSubmissionsSettings.verbose command); [done |].
  unfold entry_task; simpl. by destruct (SubmissionEntry.crashes e).
Qed.

Lemma shown_counted_task e :
  counted_task registry_get command (shown command e) = counted_task registry_get command e.
Proof.
  unfold counted_task, passes_stop_filter. by rewrite shown_stop, shown_entry_task.
Qed.

Lemma shown_tally e tr : tally (shown command e) tr = tally e tr.
Proof.
  unfold tally.
  by rewrite shown_has_passed_crash, shown_has_passed_patch, shown_has_bundle,
    shown_first_passed_pov.
Qed.

Lemma shown_crashes_nil (e : SubmissionEntry.t) :
  SubmissionEntry.crashes e = [] → SubmissionEntry.crashes (shown command e) = [].
Proof.
  intros He. unfold shown. destruct (ReadSubmissionsSettings.verbose command); [done |].
  simpl. by rewrite He.
Qed.

(** One iteration, by the outcome of decoding. *)
Lemma read_iteration_corrupt (i : nat) (r : raw) (s : rs.state) :
  FromString r = None →
  read_iteration FromString registry_get command i r s
  = rs.mk (rs.result s) (rs.out s ++ [Log ERROR (Failed_to_parse_submission i DecodeError)]).
Proof.
  intros Hr. unfold read_iteration, try_except, read_body. rewrite Hr. by run.
Qed.

Lemma read_iteration_decoded (i : nat) (r : raw) (e : SubmissionEntry.t) (s : rs.state) :
  FromString r = Some e →
  read_iteration FromString registry_get command i r s
  = match read_entry registry_get command i (shown command e) s with
    | (s', inl x) =>
        rs.mk (rs.result s') (rs.out s' ++ [Log ERROR (Failed_to_parse_submission i x)])
    | (s', inr _) => s'
    end.
Proof.
  intros Hr. unfold read_iteration, try_except, read_body. rewrite Hr. run.
  fold (shown command e).
  by destruct (read_entry registry_get command i (shown command e) s) as [s' [x | []]].
Qed.

(** The record of every task after one iteration. *)
Lemma read_iteration_result (i : nat) (r : raw) (s : rs.state) (t' : string) :
  dict.get (rs.result (read_iteration FromString registry_get command i r s)) t'
  = match FromString r with
    | Some e =>
        match counted_task registry_get command e with
        | Some (t, task) =>
            if decide (t' = t)
            then Some (tally e (default (new_task_result t task) (dict.get (rs.result s) t)))
            else dict.get (rs.result s) t'
        | None => dict.get (rs.result s) t'
        end
    | None => dict.get (rs.result s) t'
    end.
Proof.
  destruct (FromString r) as [e |] eqn:Hr; simpl.
  - rewrite (read_iteration_decoded _ _ e) by done.
    pose proof (read_entry_result i (shown command e) s t') as H.
    rewrite shown_counted_task in H.
    destruct (read_entry registry_get command i (shown command e) s) as [s' [x | []]];
      simpl in *; rewrite H;
      destruct (counted_task registry_get command e) as [[t task] |]; try done;
      by rewrite shown_tally.
  - by rewrite read_iteration_corrupt.
Qed.

(** The iterations that only log. *)
Lemma read_iteration_stop_filtered (i : nat) (r : raw) (e : SubmissionEntry.t)
  (s : rs.state) :
  FromString r = Some e →
  ReadSubmissionsSettings.filter_stop command = true →
  SubmissionEntry.stop e = true →
  read_iteration FromString registry_get command i r s
  = rs.mk (rs.result s) (rs.out s ++ [Log INFO (Skipping_stopped_submission i)]).
Proof.
  intros Hr Hf Hs. rewrite (read_iteration_decoded _ _ e) by done.
  unfold read_entry. rewrite shown_stop, Hf, Hs. by run.
Qed.

Lemma read_iteration_no_crashes (i : nat) (r : raw) (e : SubmissionEntry.t)
  (s : rs.state) :
  FromString r = Some e →
  SubmissionEntry.crashes e = [] →
  read_iteration FromString registry_get command i r s
  = rs.mk (rs.result s)
      (rs.out s
       ++ [if ReadSubmissionsSettings.filter_stop command && SubmissionEntry.stop e
           then Log INFO (Skipping_stopped_submission i)
           else Log ERROR (Failed_to_parse_submission i IndexError)]).
Proof.
  intros Hr Hcs. rewrite (read_iteration_decoded _ _ e) by done.
  unfold read_entry. rewrite shown_stop, (shown_crashes_nil e) by done.
  destruct (ReadSubmissionsSettings.filter_stop command && SubmissionEntry.stop e);
    by run.
Qed.

(** An entry is counted in [t] when the stop filter keeps it, its first crash
    names [t], and [t] is registered and selected. *)
Lemma counted_task_Some (e : SubmissionEntry.t) (t : string) (task : Task.t) :
  counted_task registry_get command e = Some (t, task)
  ↔ passes_stop_filter command e = true ∧ entry_task e = Some t
    ∧ registry_get t = Some task ∧ selected command t = true.
Proof.
  unfold counted_task.
  destruct (passes_stop_filter command e); [| by intuition].
  destruct (entry_task e) as [t1 |]; [| by intuition].
  destruct (registry_get t1) as [task1 |] eqn:Hreg;
    [destruct (selected command t1) eqn:Hsel |];
    (split; [intros [= <- <-] || intros [=]; by auto | intros (_ & [= <-] & ? & ?); congruence]).
Qed.

Lemma counted_task_unfiltered (e : SubmissionEntry.t) (b : bool) :
  ReadSubmissionsSettings.filter_stop command = false →
  counted_task registry_get command (SubmissionEntry.set_stop b e)
  = counted_task registry_get command e.
Proof. intros Hf. unfold counted_task, passes_stop_filter. by rewrite Hf. Qed.

Lemma entries_for_app (t : string) (xs ys : list raw) :
  entries_for FromString command t (xs ++ ys)
  = entries_for FromString command t xs ++ entries_for FromString command t ys.
Proof. unfold entries_for. by rewrite omap_app, List.filter_app. Qed.

Lemma entries_for_cons (t : string) (r : raw) (raws : list raw) :
  entries_for FromString command t (r :: raws)
  = match FromString r with
    | Some e =>
        if passes_stop_filter command e && bool_decide (entry_task e = Some t)
        then e :: entries_for FromString command t raws
        else entries_for FromString command t raws
    | None => entries_for FromString command t raws
    end.
Proof. unfold entries_for; simpl. by destruct (FromString r). Qed.

(** The record of a task after the loop: the entries read for it, summarized. *)
Lemma read_loop_result (raws : list raw) (i : nat) (s : rs.state) (t : string)
  (task : Task.t) :
  registry_get t = Some task → selected command t = true →
  dict.get (rs.result (for_enumerate (read_iteration FromString registry_get command)
                         i raws s)) t
  = extend t task (dict.get (rs.result s) t) (entries_for FromString command t raws).
Proof.
  intros Hreg Hsel. revert i s.
  induction raws as [| r raws IH]; intros i s; simpl; [done |].
  rewrite IH, read_iteration_result. unfold entries_for; simpl.
  destruct (FromString r) as [e |]; simpl; [| done].
  destruct (counted_task registry_get command e) as [[t1 task1] |] eqn:Hc.
  - apply counted_task_Some in Hc as (Hp & He & Hr1 & Hs1). rewrite Hp, He; simpl.
    case_decide as Ht.
    + subst t1. rewrite bool_decide_eq_true_2 by done.
      assert (task1 = task) as -> by congruence.
      symmetry. apply extend_cons.
    + rewrite bool_decide_eq_false_2 by congruence. done.
  - destruct (passes_stop_filter command e) eqn:Hp; simpl; [| done].
    case_bool_decide as He; [| done].
    exfalso. assert (counted_task registry_get command e = Some (t, task)) as Hc'
      by (by apply counted_task_Some).
    congruence.
Qed.

Lemma read_loop_result_hidden (raws : list raw) (i : nat) (s : rs.state) (t : string) :
  registry_get t = None ∨ selected command t = false →
  dict.get (rs.result (for_enumerate (read_iteration FromString registry_get command)
                         i raws s)) t
  = dict.get (rs.result s) t.
Proof.
  intros Hhid. revert i s.
  induction raws as [| r raws IH]; intros i s; simpl; [done |].
  rewrite IH, read_iteration_result.
  destruct (FromString r) as [e |]; [| done].
  destruct (counted_task registry_get command e) as [[t1 task1] |] eqn:Hc; [| done].
  apply counted_task_Some in Hc as (Hp & He & Hr1 & Hs1).
  case_decide; [| done]. subst. destruct Hhid; congruence.
Qed.

(** The record of every task at the end of [read_submissions]. *)
Lemma read_submissions_result (raws : list raw) (t : string) :
  dict.get (rs.result (read_submissions FromString registry_get command raws)) t
  = match registry_get t with
    | Some task =>
        if selected command t
        then extend t task None (entries_for FromString command t raws)
        else None
    | None => None
    end.
Proof.
  assert (dict.get (rs.result (read_submissions FromString registry_get command raws)) t
          = dict.get (rs.result (for_enumerate
              (read_iteration FromString registry_get command) 0 raws
              (rs.mk dict.empty [Log INFO (Found_submissions (length raws))]))) t) as ->.
  { by destruct raws. }
  destruct (registry_get t) as [task |] eqn:Hreg.
  - destruct (selected command t) eqn:Hsel.
    + by rewrite (read_loop_result _ _ _ _ task).
    + rewrite read_loop_result_hidden by auto. done.
  - rewrite read_loop_result_hidden by auto. done.
Qed.

(** A record that is not an entry read for [t] does not change the record of
    [t]. *)
Lemma read_submissions_skip (pre post : list raw) (r : raw) (t : string) :
  (∀ e, FromString r = Some e →
        passes_stop_filter command e && bool_decide (entry_task e = Some t) = false) →
  dict.get (rs.result (read_submissions FromString registry_get command
                         (pre ++ r :: post))) t
  = dict.get (rs.result (read_submissions FromString registry_get command
                           (pre ++ post))) t.
Proof.
  intros Hr. rewrite !read_submissions_result, !entries_for_app, entries_for_cons.
  destruct (FromString r) as [e |]; [| done]. by rewrite Hr.
Qed.

(** What reading one entry prints and logs, with the error of the [except]
    clause when the body raises. *)
Lemma read_entry_out (i : nat) (d : SubmissionEntry.t) (s : rs.state) :
  rs.out (read_entry registry_get command i d s).1
  ++ match (read_entry registry_get command i d s).2 with
     | inl x => [Log ERROR (Failed_to_parse_submission i x)]
     | inr _ => []
     end
  = rs.out s ++ entry_events registry_get command i d d.
Proof.
  unfold read_entry, entry_events, passes_stop_filter, entry_task, selected.
  destruct (ReadSubmissionsSettings.filter_stop command && SubmissionEntry.stop d);
    simpl; [by rewrite app_nil_r |].
  destruct (head (SubmissionEntry.crashes d)) as [c |] eqn:Hhead; run; [| done].
  destruct (registry_get (crash_task_id c)) as [task |]; simpl; [| by rewrite app_nil_r].
  destruct (str_bool _ && negb _); simpl; [by rewrite app_nil_r |].
  unfold has_passed_crash, has_passed_patch. rewrite !existsb_find.
  destruct (dict.contains (rs.result s) (crash_task_id c));
    destruct (List.find crash_passed (SubmissionEntry.crashes d)) as [pc |];
    destruct (List.find patch_passed (SubmissionEntry.patches d)) as [pp |];
    destruct (SubmissionEntry.bundles d) as [| b bs]; simpl;
    by rewrite ?app_nil_r.
Qed.

Lemma entry_events_shown (i : nat) (e d : SubmissionEntry.t) :
  entry_events registry_get command i (shown command e) d
  = entry_events registry_get command i e d.
Proof.
  unfold entry_events, passes_stop_filter.
  by rewrite shown_stop, shown_entry_task, shown_has_passed_patch, shown_has_passed_crash.
Qed.

Lemma entry_events_cases (i : nat) (e : SubmissionEntry.t) :
  (∀ d, entry_events registry_get command i e d = [Print_submission i d])
  ∨ (∃ lvl m, ∀ d, entry_events registry_get command i e d = [Log lvl m]).
Proof.
  unfold entry_events.
  destruct (passes_stop_filter command e); [| by right; eauto].
  destruct (entry_task e) as [t |]; [| by right; eauto].
  destruct (registry_get t); [| by right; eauto].
  destruct (selected command t); [| by right; eauto].
  destruct (has_passed_patch e && negb (has_passed_crash e)); [by right; eauto | by left].
Qed.

Lemma entry_events_unfiltered (i : nat) (e d : SubmissionEntry.t) (b : bool) :
  ReadSubmissionsSettings.filter_stop command = false →
  entry_events registry_get command i (SubmissionEntry.set_stop b e) d
  = entry_events registry_get command i e d.
Proof. intros Hf. unfold entry_events, passes_stop_filter. by rewrite Hf. Qed.

(** Every iteration only adds to the output, and what it adds does not depend
    on the state. *)
Lemma read_iteration_out (i : nat) (r : raw) (s : rs.state) :
  rs.out (read_iteration FromString registry_get command i r s)
  = rs.out s
    ++ match FromString r with
       | Some e => entry_events registry_get command i e (shown command e)
       | None => [Log ERROR (Failed_to_parse_submission i DecodeError)]
       end.
Proof.
  destruct (FromString r) as [e |] eqn:Hr.
  - rewrite (read_iteration_decoded _ _ e) by done.
    rewrite <- entry_events_shown, <- read_entry_out.
    destruct (read_entry registry_get command i (shown command e) s) as [s' [x | []]];
      simpl; by rewrite ?app_nil_r.
  - by rewrite read_iteration_corrupt.
Qed.

Lemma read_events_spec (i : nat) (r : raw) :
  read_events FromString registry_get command i r
  = match FromString r with
    | Some e => entry_events registry_get command i e (shown command e)
    | None => [Log ERROR (Failed_to_parse_submission i DecodeError)]
    end.
Proof. unfold read_events. by rewrite read_iteration_out. Qed.

Lemma read_loop_out (raws : list raw) (i : nat) (s : rs.state) :
  rs.out (for_enumerate (read_iteration FromString registry_get command) i raws s)
  = rs.out s ++ scan_events FromString registry_get command i raws.
Proof.
  revert i s. induction raws as [| r raws IH]; intros i s; simpl.
  - by rewrite app_nil_r.
  - by rewrite IH, read_iteration_out, read_events_spec, app_assoc.
Qed.

Lemma elem_of_scan_events (x : event) (raws : list raw) (i : nat) :
  x ∈ scan_events FromString registry_get command i raws
  ↔ ∃ j r, raws !! j = Some r
           ∧ x ∈ read_events FromString registry_get command (i + j) r.
Proof.
  revert i. induction raws as [| r raws IH]; intros i; simpl.
  - split; [by intros ?%elem_of_nil | intros (j & r & Hj & _); by destruct j].
  - rewrite elem_of_app, IH. split.
    + intros [Hx | (j & r' & Hj & Hx)].
      * exists 0%nat, r. by rewrite Nat.add_0_r.
      * exists (S j), r'. by rewrite Nat.add_succ_r.
    + intros ([| j] & r' & Hj & Hx); simpl in Hj.
      * left. injection Hj as ->. by rewrite Nat.add_0_r in Hx.
      * right. exists j, r'. by rewrite Nat.add_succ_r in Hx.
Qed.

Lemma scan_events_app (xs ys : list raw) (i : nat) :
  scan_events FromString registry_get command i (xs ++ ys)
  = scan_events FromString registry_get command i xs
    ++ scan_events FromString registry_get command (i + length xs) ys.
Proof.
  revert i. induction xs as [| x xs IH]; intros i; simpl.
  - by rewrite Nat.add_0_r.
  - by rewrite IH, Nat.add_succ_r, app_assoc.
Qed.

Lemma read_submissions_nonempty (raws : list raw) :
  raws ≠ [] →
  read_submissions FromString registry_get command raws
  = let s := for_enumerate (read_iteration FromString registry_get command) 0 raws
               (rs.mk dict.empty [Log INFO (Found_submissions (length raws))]) in
    rs.mk (rs.result s) (rs.out s ++ read_summary (rs.result s)).
Proof. by destruct raws. Qed.

(** The output of a scan of a non-empty list. *)
Lemma read_submissions_out (raws : list raw) :
  raws ≠ [] →
  rs.out (read_submissions FromString registry_get command raws)
  = [Log INFO (Found_submissions (length raws))]
    ++ scan_events FromString registry_get command 0 raws
    ++ read_summary (rs.result (read_submissions FromString registry_get command raws)).
Proof.
  intros Hne. rewrite read_submissions_nonempty by done. cbv zeta. simpl.
  rewrite read_loop_out. done.
Qed.

(** [result] keeps a complete key list, so the summary prints every record. *)
Lemma read_entry_wf (i : nat) (d : SubmissionEntry.t) (s : rs.state) :
  dict_wf (rs.result s) → dict_wf (rs.result (read_entry registry_get command i d s).1).
Proof.
  intros Hs. unfold read_entry.
  destruct (ReadSubmissionsSettings.filter_stop command && SubmissionEntry.stop d);
    simpl; [done |].
  destruct (head (SubmissionEntry.crashes d)) as [c |]; run; [| done].
  destruct (registry_get (crash_task_id c)) as [task |]; simpl; [| done].
  destruct (str_bool _ && negb _); simpl; [done |].
  destruct (dict.contains (rs.result s) (crash_task_id c));
    destruct (List.find crash_passed (SubmissionEntry.crashes d)) as [pc |];
    destruct (List.find patch_passed (SubmissionEntry.patches d)) as [pp |];
    destruct (SubmissionEntry.bundles d) as [| b bs]; simpl;
    repeat (apply dict_wf_update || apply dict_wf_set); done.
Qed.

Lemma read_iteration_wf (i : nat) (r : raw) (s : rs.state) :
  dict_wf (rs.result s) →
  dict_wf (rs.result (read_iteration FromString registry_get command i r s)).
Proof.
  intros Hs. destruct (FromString r) as [e |] eqn:Hr.
  - rewrite (read_iteration_decoded _ _ e) by done.
    pose proof (read_entry_wf i (shown command e) s Hs) as H.
    by destruct (read_entry registry_get command i (shown command e) s) as [s' [x | []]].
  - by rewrite read_iteration_corrupt.
Qed.

Lemma read_loop_wf (raws : list raw) (i : nat) (s : rs.state) :
  dict_wf (rs.result s) →
  dict_wf (rs.result (for_enumerate (read_iteration FromString registry_get command)
                        i raws s)).
Proof.
  revert i s. induction raws as [| r raws IH]; intros i s Hs; simpl; [done |].
  by apply IH, read_iteration_wf.
Qed.

Lemma read_submissions_wf (raws : list raw) :
  dict_wf (rs.result (read_submissions FromString registry_get command raws)).
Proof.
  destruct (decide (raws = [])) as [-> | Hne]; [apply dict_wf_empty |].
  rewrite read_submissions_nonempty by done. cbv zeta. simpl.
  apply read_loop_wf, dict_wf_empty.
Qed.

Lemma entry_events_no_task (i : nat) (e d : SubmissionEntry.t) (tr : TaskResult.t) :
  Print_task tr ∉ entry_events registry_get command i e d.
Proof.
  destruct (entry_events_cases i e) as [Hp | (lvl & m & Hl)].
  - rewrite Hp. by intros [=]%list_elem_of_singleton.
  - rewrite Hl. by intros [=]%list_elem_of_singleton.
Qed.

(** The records printed are exactly the records of [result]. *)
Lemma read_submissions_reports (raws : list raw) (tr : TaskResult.t) :
  Print_task tr ∈ rs.out (read_submissions FromString registry_get command raws)
  ↔ ∃ t, dict.get (rs.result (read_submissions FromString registry_get command raws)) t
         = Some tr.
Proof.
  destruct (decide (raws = [])) as [-> | Hne].
  { simpl. split.
    - by intros [=]%list_elem_of_singleton.
    - intros [t Ht]. unfold dict.get in Ht. simpl in Ht. by rewrite lookup_empty in Ht. }
  rewrite read_submissions_out by done. rewrite !elem_of_app, read_summary_task. split.
  - intros [H | [H | H]].
    + apply list_elem_of_singleton in H. discriminate.
    + apply elem_of_scan_events in H as (j & r & _ & H).
      rewrite read_events_spec in H. destruct (FromString r).
      * by apply entry_events_no_task in H.
      * apply list_elem_of_singleton in H. discriminate.
    + by apply elem_of_dict_values.
  - intros [t Ht]. right. right.
    eapply dict_values_elem_of; [apply read_submissions_wf | done].
Qed.

(** Where the errors of the [except] clause come from. *)
Lemma entry_events_assertion (i j : nat) (e d : SubmissionEntry.t) (x : exn) :
  Log ERROR (Failed_to_parse_submission j x) ∈ entry_events registry_get command i e d →
  j = i
  ∧ (x = AssertionError → has_passed_patch e = true ∧ has_passed_crash e = false)
  ∧ (has_passed_crash e = true → x = AssertionError).
Proof.
  unfold entry_events.
  destruct (passes_stop_filter command e);
    [| intros [=]%list_elem_of_singleton].
  destruct (entry_task e) as [t |] eqn:Ht.
  - destruct (registry_get t); [| intros [=]%list_elem_of_singleton].
    destruct (selected command t); [| intros [=]%list_elem_of_singleton].
    destruct (has_passed_patch e), (has_passed_crash e); simpl;
      intros [=]%list_elem_of_singleton; subst; done.
  - intros [= -> ->]%list_elem_of_singleton. split; [done |]. split; [done |].
    unfold entry_task, has_passed_crash in *.
    by destruct (SubmissionEntry.crashes e).
Qed.

Lemma read_events_failure (i j : nat) (r : raw) (x : exn) :
  Log ERROR (Failed_to_parse_submission j x)
    ∈ read_events FromString registry_get command i r →
  j = i
  ∧ match FromString r with
    | Some e =>
        (x = AssertionError → has_passed_patch e = true ∧ has_passed_crash e = false)
        ∧ (has_passed_crash e = true → x = AssertionError)
    | None => x = DecodeError
    end.
Proof.
  rewrite read_events_spec. destruct (FromString r) as [e |].
  - apply entry_events_assertion.
  - by intros [= -> ->]%list_elem_of_singleton.
Qed.

Lemma read_submissions_failure (raw_submissions : list raw) (j : nat) (x : exn) :
  Log ERROR (Failed_to_parse_submission j x)
    ∈ rs.out (read_submissions FromString registry_get command raw_submissions) →
  ∃ r, raw_submissions !! j = Some r
       ∧ Log ERROR (Failed_to_parse_submission j x)
           ∈ read_events FromString registry_get command j r.
Proof.
  destruct (decide (raw_submissions = [])) as [-> | Hne].
  { simpl. intros [=]%list_elem_of_singleton. }
  rewrite read_submissions_out by done. rewrite !elem_of_app.
  intros [H | [H | H]].
  - apply list_elem_of_singleton in H. discriminate.
  - apply elem_of_scan_events in H as (k & r & Hk & H). simpl in H.
    destruct (read_events_failure _ _ _ _ H) as [-> _]. eauto.
  - by apply not_in_read_summary in H.
Qed.

(** The boolean views say what their names say. *)
Lemma has_passed_crash_spec (e : SubmissionEntry.t) :
  has_passed_crash e = true
  ↔ ∃ c, c ∈ SubmissionEntry.crashes e ∧ CrashWithId.result c = PASSED.
Proof.
  unfold has_passed_crash. rewrite existsb_exists. unfold crash_passed.
  split; intros (c & Hc & Hr); exists c.
  - by rewrite <- list_elem_of_In, bool_decide_eq_true in *.
  - by rewrite <- list_elem_of_In, bool_decide_eq_true.
Qed.

Lemma has_passed_patch_spec (e : SubmissionEntry.t) :
  has_passed_patch e = true
  ↔ ∃ p, p ∈ SubmissionEntry.patches e ∧ SubmissionEntryPatch.result p = PASSED.
Proof.
  unfold has_passed_patch. rewrite existsb_exists. unfold patch_passed.
  split; intros (p & Hp & Hr); exists p.
  - by rewrite <- list_elem_of_In, bool_decide_eq_true in *.
  - by rewrite <- list_elem_of_In, bool_decide_eq_true.
Qed.

(** The summary lists every id of every non-patched list. *)
Lemma read_summary_non_patched (d : dict.t TaskResult.t) (tr : TaskResult.t) (v : string) :
  tr ∈ dict.values d →
  v ∈ TaskResult.non_patched_vulnerabilities tr →
  Print_non_patched (TaskResult.project_name tr) (TaskResult.task_id tr) v
    ∈ read_summary d.
Proof.
  intros Htr Hv. unfold read_summary. cbv zeta.
  rewrite !elem_of_app. right. right. left.
  assert (Print_non_patched (TaskResult.project_name tr) (TaskResult.task_id tr) v
          ∈ dict.values d ≫= (λ tr, (λ v, Print_non_patched (TaskResult.project_name tr)
                                            (TaskResult.task_id tr) v)
                                     <$> TaskResult.non_patched_vulnerabilities tr)) as Hin.
  { apply list_elem_of_bind. exists tr. split; [| done].
    apply list_elem_of_fmap. eauto. }
  destruct (dict.values d ≫= _) as [| ev evs]; [by apply elem_of_nil in Hin | done].
Qed.

(** C2: for every stored list, the record [tr] that [read_submissions] has
    for a task [t] is printed in the summary; its non-patched list holds, in
    order, one id for exactly those entries read for [t] that have a crash with
    result PASSED and no patch with result PASSED, and every id of it is
    printed among the non-patched vulnerabilities; its patched list holds the
    entries with a PASSED crash and a PASSED patch.  So an entry with a PASSED
    patch is never listed as non-patched. *)
Theorem non_patched_iff_passed_crash_without_passed_patch (raw_submissions : list raw)
  (t : string) (tr : TaskResult.t) :
  dict.get (rs.result (read_submissions FromString registry_get command raw_submissions)) t
  = Some tr →
  Print_task tr ∈ rs.out (read_submissions FromString registry_get command raw_submissions)
  ∧ TaskResult.non_patched_vulnerabilities tr
    = first_passed_pov
      <$> List.filter (λ e, has_passed_crash e && negb (has_passed_patch e))
            (entries_for FromString command t raw_submissions)
  ∧ TaskResult.patched_vulnerabilities tr
    = first_passed_pov
      <$> List.filter (λ e, has_passed_crash e && has_passed_patch e)
            (entries_for FromString command t raw_submissions)
  ∧ (∀ v, v ∈ TaskResult.non_patched_vulnerabilities tr →
       Print_non_patched (TaskResult.project_name tr) t v
         ∈ rs.out (read_submissions FromString registry_get command raw_submissions)).
Proof.
  intros Hget. pose proof Hget as Hspec. rewrite read_submissions_result in Hspec.
  destruct (registry_get t) as [task |]; [| done].
  destruct (selected command t); [| done].
  apply extend_Some in Hspec.
  split; [apply read_submissions_reports; eauto |].
  split; [by subst tr |]. split; [by subst tr |].
  intros v Hv.
  assert (TaskResult.task_id tr = t) as Ht by (by subst tr).
  assert (raw_submissions ≠ []) as Hne.
  { intros ->. unfold dict.get in Hget. simpl in Hget. by rewrite lookup_empty in Hget. }
  rewrite read_submissions_out by done. rewrite !elem_of_app. right. right.
  rewrite <- Ht. apply read_summary_non_patched; [| done].
  eapply dict_values_elem_of; [apply read_submissions_wf | done].
Qed.

(** C3: for every stored list and every registered task [t] that the
    [task_id] option selects and that has at least one entry read,
    [read_submissions] has and prints a record whose vulnerability count is
    the number of entries read for [t] with at least one PASSED crash, whose
    patch count is the number of those with at least one PASSED patch, and
    whose bundle count is the number of those with a bundle that did not fail
    the assertion; all three are computed from the stored entries. *)
Theorem read_submissions_counts (raw_submissions : list raw) (t : string) (task : Task.t) :
  registry_get t = Some task →
  selected command t = true →
  entries_for FromString command t raw_submissions ≠ [] →
  ∃ tr,
    dict.get (rs.result (read_submissions FromString registry_get command raw_submissions)) t
    = Some tr
    ∧ Print_task tr
        ∈ rs.out (read_submissions FromString registry_get command raw_submissions)
    ∧ TaskResult.n_vulnerabilities tr
      = count_if has_passed_crash (entries_for FromString command t raw_submissions)
    ∧ TaskResult.n_patches tr
      = count_if has_passed_patch (entries_for FromString command t raw_submissions)
    ∧ TaskResult.n_bundles tr
      = count_if (λ e, has_bundle e && implb (has_passed_patch e) (has_passed_crash e))
          (entries_for FromString command t raw_submissions).
Proof.
  intros Hreg Hsel Hes.
  pose proof (read_submissions_result raw_submissions t) as Hget.
  rewrite Hreg, Hsel in Hget.
  destruct (entries_for FromString command t raw_submissions) as [| e es] eqn:E; [done |].
  eexists. split; [exact Hget |].
  split; [apply read_submissions_reports; eauto | done].
Qed.

(** C8: if every stored entry that has a patch with result PASSED also has a
    crash with result PASSED, then no iteration of [read_submissions] fails
    the assertion, and for an entry with a PASSED patch the [except] branch
    is not taken at all: nothing is logged as failed for its index. *)
Theorem assertion_never_fails (raw_submissions : list raw) :
  (∀ r e, r ∈ raw_submissions → FromString r = Some e →
          has_passed_patch e = true → has_passed_crash e = true) →
  (∀ i, Log ERROR (Failed_to_parse_submission i AssertionError)
          ∉ rs.out (read_submissions FromString registry_get command raw_submissions))
  ∧ (∀ i r e x, raw_submissions !! i = Some r → FromString r = Some e →
        has_passed_patch e = true →
        Log ERROR (Failed_to_parse_submission i x)
          ∉ rs.out (read_submissions FromString registry_get command raw_submissions)).
Proof.
  intros Hpre. split.
  - intros i Hin.
    apply read_submissions_failure in Hin as (r & Hr & Hin).
    apply read_events_failure in Hin as [_ Hin].
    destruct (FromString r) as [e |] eqn:He; [| done].
    destruct Hin as [Hin _]. destruct (Hin eq_refl) as [Hp Hc].
    rewrite (Hpre r e) in Hc; [done | by eapply list_elem_of_lookup_2 | done | done].
  - intros i r e x Hr He Hp Hin.
    apply read_submissions_failure in Hin as (r' & Hr' & Hin).
    assert (r' = r) as -> by congruence.
    apply read_events_failure in Hin as [_ Hin]. rewrite He in Hin.
    destruct Hin as [Hin1 Hin2].
    assert (has_passed_crash e = true) as Hc
      by (apply (Hpre r e); [by eapply list_elem_of_lookup_2 | done | done]).
    destruct (Hin1 (Hin2 Hc)) as [_ Hc']. congruence.
Qed.

End ReadProps.

(** ** [extract_povs] *)

(** *** States that differ in log records only *)

Lemma effects_app (l1 l2 : list event) : effects (l1 ++ l2) = effects l1 ++ effects l2.
Proof. apply List.filter_app. Qed.

Lemma effects_logs (l : list event) : forallb is_log l = true → effects l = [].
Proof.
  induction l as [| ev l IH]; simpl; [done |].
  intros [Hev Hl]%andb_prop. unfold effects in *; simpl. by rewrite Hev, IH.
Qed.

#[local] Instance same_extraction_equiv : Equivalence same_extraction.
Proof.
  split.
  - by intros s.
  - intros s s' (? & ? & ? & ?). by repeat split.
  - intros s1 s2 s3 (? & ? & ? & ?) (? & ? & ? & ?). repeat split; congruence.
Qed.

Lemma same_extraction_emits (evs evs' : list event) (s s' : ep.state) :
  effects evs = effects evs' →
  same_extraction s s' → same_extraction (ep.emits evs s) (ep.emits evs' s').
Proof.
  intros Hev (? & ? & ? & Hout). repeat split; simpl; try done.
  rewrite !effects_app. congruence.
Qed.

Lemma same_extraction_logged (logs : list event) (s : ep.state) :
  forallb is_log logs = true → same_extraction (ep.emits logs s) s.
Proof.
  intros Hlogs. repeat split; simpl.
  by rewrite effects_app, (effects_logs logs), app_nil_r.
Qed.

Lemma same_extraction_count_pov (ok : bool) (s s' : ep.state) :
  same_extraction s s' → same_extraction (ep.count_pov ok s) (ep.count_pov ok s').
Proof.
  intros (? & ? & ? & Hout). destruct ok; repeat split; simpl; congruence.
Qed.

Lemma count_pov_out (ok : bool) (s : ep.state) : ep.out (ep.count_pov ok s) = ep.out s.
Proof. by destruct ok. Qed.

(** The statements of [extract_entry] agree up to log records. *)
Lemma agree_ret {A} (a : A) : agree (mret a) (mret a).
Proof. by intros s s' Hs. Qed.

Lemma agree_bind {A B} (m m' : M ep.state A) (k k' : A → M ep.state B) :
  agree m m' → (∀ a, agree (k a) (k' a)) → agree (m ≫= k) (m' ≫= k').
Proof.
  intros Hm Hk s s' Hs. destruct (Hm s s' Hs) as [Hs1 Hr]. run.
  destruct (m s) as [s1 [x | a]], (m' s') as [s1' [x' | a']]; simpl in *; try done.
  - by injection Hr as <-.
  - injection Hr as <-. by apply Hk.
Qed.

Lemma agree_emit_log (l l' : level) (m m' : message) :
  agree (ep.emit (Log l m)) (ep.emit (Log l' m')).
Proof.
  intros s s' Hs. split; [| done].
  by apply (same_extraction_emits [Log l m] [Log l' m']).
Qed.

Lemma agree_emit (ev : event) : agree (ep.emit ev) (ep.emit ev).
Proof. intros s s' Hs. split; [| done]. by apply (same_extraction_emits [ev] [ev]). Qed.

Lemma agree_on_counter (f : dict.t nat → dict.t nat) :
  agree (ep.on_counter f) (ep.on_counter f).
Proof. intros s s' (Hc & ? & ? & ?). run. repeat split; simpl; congruence. Qed.

Lemma agree_gets_counter {A} (f : dict.t nat → A) :
  agree (gets (λ s, f (ep.vuln_counter s))) (gets (λ s, f (ep.vuln_counter s))).
Proof. intros s s' Hs. run. split; [done |]. destruct Hs as [-> _]. done. Qed.

Lemma agree_when (b : bool) (m m' : M ep.state unit) :
  agree m m' → agree (when b m) (when b m').
Proof. intros Hm. destruct b; [done | apply agree_ret]. Qed.

Lemma agree_modify (g g' : ep.state → ep.state) :
  (∀ s s', same_extraction s s' → same_extraction (g s) (g' s')) →
  agree (modify g) (modify g').
Proof. intros Hg s s' Hs. run. split; [by apply Hg | done]. Qed.

Lemma for_enumerate_same {A} (body body' : nat → A → ep.state → ep.state)
  (xs : list A) (k k' : nat) (s s' : ep.state) :
  (∀ j j' x t t', same_extraction t t' → same_extraction (body j x t) (body' j' x t')) →
  same_extraction s s' →
  same_extraction (for_enumerate body k xs s) (for_enumerate body' k' xs s').
Proof.
  intros Hbody. revert k k' s s'.
  induction xs as [| x xs IH]; intros k k' s s' Hs; simpl; [done |].
  apply IH. by apply Hbody.
Qed.

Lemma for_enumerate_same_index {A} (body : nat → A → ep.state → ep.state)
  (xs : list A) (k : nat) (s s' : ep.state) :
  (∀ j x t t', same_extraction t t' → same_extraction (body j x t) (body j x t')) →
  same_extraction s s' →
  same_extraction (for_enumerate body k xs s) (for_enumerate body k xs s').
Proof.
  intros Hbody. revert k s s'.
  induction xs as [| x xs IH]; intros k s s' Hs; simpl; [done |].
  apply IH. by apply Hbody.
Qed.

(** *** The output only grows *)

Lemma appends_ret {A} (a : A) : appends (mret a : M ep.state A).
Proof. by intros s. Qed.

Lemma appends_bind {A B} (m : M ep.state A) (k : A → M ep.state B) :
  appends m → (∀ a, appends (k a)) → appends (m ≫= k).
Proof.
  intros Hm Hk s. specialize (Hm s). run.
  destruct (m s) as [s1 [x | a]]; simpl in *; [done |].
  etransitivity; [exact Hm | apply Hk].
Qed.

Lemma appends_emit (ev : event) : appends (ep.emit ev).
Proof. intros s. run. by apply prefix_app_r. Qed.

Lemma appends_on_counter (f : dict.t nat → dict.t nat) : appends (ep.on_counter f).
Proof. by intros s. Qed.

Lemma appends_gets {A} (f : ep.state → A) : appends (gets f).
Proof. by intros s. Qed.

Lemma appends_when (b : bool) (m : M ep.state unit) : appends m → appends (when b m).
Proof. intros Hm. destruct b; [done | apply appends_ret]. Qed.

Lemma appends_modify (g : ep.state → ep.state) :
  (∀ s, ep.out s `prefix_of` ep.out (g s)) → appends (modify g).
Proof. intros Hg s. apply Hg. Qed.

Lemma emits_prefix (evs : list event) (s : ep.state) :
  ep.out s `prefix_of` ep.out (ep.emits evs s).
Proof. by apply prefix_app_r. Qed.

Lemma for_enumerate_prefix {A} (body : nat → A → ep.state → ep.state) (xs : list A)
  (k : nat) (s : ep.state) :
  (∀ j x t, ep.out t `prefix_of` ep.out (body j x t)) →
  ep.out s `prefix_of` ep.out (for_enumerate body k xs s).
Proof.
  intros Hbody. revert k s. induction xs as [| x xs IH]; intros k s; simpl; [done |].
  etransitivity; [apply Hbody | apply IH].
Qed.

Section ExtractProps.
Context {raw : Type}.
Variable FromString : raw → option SubmissionEntry.t.
Variable registry_get : string → option Task.t.
Variable kubectl_get_pods : string → string → option string.
Variable kubectl_cp_ok : string → string → string → list string → bool.
Variable command : ExtractPovsSettings.t.

(** The patch loop writes one file and one metadata file for each patch
    with diff text and counts those patches. *)

Lemma extract_patches_files (patches_dir : list string) (ps : list SubmissionEntryPatch.t)
  (n : nat) (s : ep.state) :
  extract_patches patches_dir ps n s
  = ((n + length (List.filter (λ p, negb (is_placeholder p)) ps))%nat,
     ep.emits (patch_files patches_dir n (List.filter (λ p, negb (is_placeholder p)) ps)) s).
Proof.
  revert n s. induction ps as [| p ps IH]; intros n s; simpl.
  - rewrite Nat.add_0_r. destruct s; unfold ep.emits; simpl. by rewrite app_nil_r.
  - assert (negb (is_placeholder p) = str_bool (SubmissionEntryPatch.patch p)) as ->
      by apply negb_involutive.
    destruct (str_bool (SubmissionEntryPatch.patch p)); simpl; rewrite IH; [| done].
    f_equal; [lia |]. destruct s; unfold ep.emits; simpl. by rewrite <- app_assoc.
Qed.

(** The crash loop and the whole entry do not depend on the log so far nor,
    but for log records, on the index of the record. *)
Lemma extract_crash_same (pod_name : string) (crashes_dir : list string) (k : nat)
  (c : CrashWithId.t) (s s' : ep.state) :
  same_extraction s s' →
  same_extraction (extract_crash kubectl_cp_ok command pod_name crashes_dir k c s)
    (extract_crash kubectl_cp_ok command pod_name crashes_dir k c s').
Proof.
  intros Hs. unfold extract_crash, kubectl_cp. cbv zeta.
  apply same_extraction_emits; [done |].
  repeat (match goal with
          | |- same_extraction (if ?b then _ else _) (if ?b then _ else _) => destruct b
          | |- same_extraction (ep.emits _ _) (ep.emits _ _) =>
              apply same_extraction_emits; [done |]
          | |- same_extraction (ep.count_pov _ _) (ep.count_pov _ _) =>
              apply same_extraction_count_pov
          end); done.
Qed.

Lemma extract_crash_prefix (pod_name : string) (crashes_dir : list string) (k : nat)
  (c : CrashWithId.t) (s : ep.state) :
  ep.out s `prefix_of`
    ep.out (extract_crash kubectl_cp_ok command pod_name crashes_dir k c s).
Proof.
  unfold extract_crash, kubectl_cp. cbv zeta.
  etransitivity; [| apply emits_prefix].
  repeat (match goal with
          | |- _ `prefix_of` ep.out (if ?b then _ else _) => destruct b
          | |- _ `prefix_of` ep.out (ep.emits _ _) =>
              etransitivity; [| apply emits_prefix]
          | |- _ `prefix_of` ep.out (ep.count_pov _ _) => rewrite count_pov_out
          end); done.
Qed.

Lemma extract_entry_agree (pod_name : string) (i i' : nat) (e : SubmissionEntry.t) :
  agree (extract_entry registry_get kubectl_cp_ok command pod_name i e)
    (extract_entry registry_get kubectl_cp_ok command pod_name i' e).
Proof.
  unfold extract_entry.
  destruct (SubmissionEntry.stop e); [apply agree_emit_log |].
  destruct (SubmissionEntry.crashes e) as [| c cs] eqn:Hcs; [apply agree_emit_log |].
  destruct (str_bool _ && negb _); [apply agree_emit_log |].
  destruct (ExtractPovsSettings.passed_only command && negb _); [apply agree_emit_log |].
  cbv zeta.
  apply agree_bind; [apply (agree_gets_counter (λ d, dict.contains d _)) | intros known].
  apply agree_bind; [apply agree_when, agree_on_counter | intros _].
  apply agree_bind; [apply agree_on_counter | intros _].
  apply agree_bind;
    [apply (agree_gets_counter (λ d, default 0%nat (dict.get d _))) | intros vuln_num].
  apply agree_bind; [apply agree_emit | intros _].
  apply agree_bind; [apply agree_emit | intros _].
  apply agree_bind.
  { apply agree_modify. intros s s' Hs.
    apply for_enumerate_same_index; [| done]. intros. by apply extract_crash_same. }
  intros _. apply agree_bind.
  { intros s s' Hs. rewrite !extract_patches_files. simpl. split; [| done].
    by apply same_extraction_emits. }
  intros patch_num.
  apply agree_bind; [apply agree_emit | intros _]. apply agree_emit.
Qed.

Lemma extract_entry_appends (pod_name : string) (i : nat) (e : SubmissionEntry.t) :
  appends (extract_entry registry_get kubectl_cp_ok command pod_name i e).
Proof.
  unfold extract_entry.
  destruct (SubmissionEntry.stop e); [apply appends_emit |].
  destruct (SubmissionEntry.crashes e) as [| c cs] eqn:Hcs; [apply appends_emit |].
  destruct (str_bool _ && negb _); [apply appends_emit |].
  destruct (ExtractPovsSettings.passed_only command && negb _); [apply appends_emit |].
  cbv zeta.
  repeat (apply appends_bind; [| intros ?]);
    try apply appends_emit; try apply appends_gets; try apply appends_on_counter;
    try apply appends_when, appends_on_counter.
  - apply appends_modify. intros s. apply for_enumerate_prefix. intros.
    apply extract_crash_prefix.
  - intros s. rewrite extract_patches_files. apply emits_prefix.
Qed.

Lemma extract_iteration_same (pod_name : string) (i i' : nat) (r : raw) (s s' : ep.state) :
  same_extraction s s' →
  same_extraction (extract_iteration FromString registry_get kubectl_cp_ok command pod_name i r s)
    (extract_iteration FromString registry_get kubectl_cp_ok command pod_name i' r s').
Proof.
  intros Hs. unfold extract_iteration, try_except, extract_body.
  destruct (FromString r) as [e |]; run.
  - destruct (extract_entry_agree pod_name i i' e s s' Hs) as [Hs1 Hr].
    destruct (extract_entry _ _ _ _ i e s) as [s1 [x | []]],
      (extract_entry _ _ _ _ i' e s') as [s1' [x' | []]]; simpl in *; try done.
    by apply (same_extraction_emits [Log _ _] [Log _ _]).
  - by apply (same_extraction_emits [Log _ _] [Log _ _]).
Qed.

Lemma extract_iteration_prefix (pod_name : string) (i : nat) (r : raw) (s : ep.state) :
  ep.out s `prefix_of`
    ep.out (extract_iteration FromString registry_get kubectl_cp_ok command pod_name i r s).
Proof.
  unfold extract_iteration, try_except, extract_body.
  destruct (FromString r) as [e |]; run; [| by apply prefix_app_r].
  pose proof (extract_entry_appends pod_name i e s) as Hs.
  destruct (extract_entry _ _ _ _ i e s) as [s1 [x | []]]; simpl in *; [| done].
  etransitivity; [exact Hs | by apply prefix_app_r].
Qed.

(** The iterations that only log. *)
Lemma extract_iteration_corrupt (pod_name : string) (i : nat) (r : raw) (s : ep.state) :
  FromString r = None →
  extract_iteration FromString registry_get kubectl_cp_ok command pod_name i r s
  = ep.emits [Log ERROR (Failed_to_process_submission i DecodeError)] s.
Proof.
  intros Hr. unfold extract_iteration, try_except, extract_body. rewrite Hr. by run.
Qed.

Lemma extract_iteration_stopped (pod_name : string) (i : nat) (r : raw)
  (e : SubmissionEntry.t) (s : ep.state) :
  FromString r = Some e → SubmissionEntry.stop e = true →
  extract_iteration FromString registry_get kubectl_cp_ok command pod_name i r s
  = ep.emits [Log DEBUG (Skipping_stopped_submission i)] s.
Proof.
  intros Hr Hstop. unfold extract_iteration, try_except, extract_body, extract_entry.
  rewrite Hr. run. by rewrite Hstop.
Qed.

Lemma extract_iteration_no_crashes (pod_name : string) (i : nat) (r : raw)
  (e : SubmissionEntry.t) (s : ep.state) :
  FromString r = Some e → SubmissionEntry.crashes e = [] →
  extract_iteration FromString registry_get kubectl_cp_ok command pod_name i r s
  = ep.emits [Log DEBUG (if SubmissionEntry.stop e then Skipping_stopped_submission i
                         else Skipping_submission_with_no_crashes i)] s.
Proof.
  intros Hr Hcs. unfold extract_iteration, try_except, extract_body, extract_entry.
  rewrite Hr. run. rewrite Hcs. by destruct (SubmissionEntry.stop e).
Qed.

Lemma only_logged_corrupt (pod_name : string) (r : raw) :
  FromString r = None →
  only_logged FromString registry_get kubectl_cp_ok command pod_name r.
Proof. intros Hr i s. do 2 eexists. by apply extract_iteration_corrupt. Qed.

Lemma only_logged_stopped (pod_name : string) (r : raw) (e : SubmissionEntry.t) :
  FromString r = Some e → SubmissionEntry.stop e = true →
  only_logged FromString registry_get kubectl_cp_ok command pod_name r.
Proof. intros Hr Hs i s. do 2 eexists. by eapply extract_iteration_stopped. Qed.

Lemma only_logged_no_crashes (pod_name : string) (r : raw) (e : SubmissionEntry.t) :
  FromString r = Some e → SubmissionEntry.crashes e = [] →
  only_logged FromString registry_get kubectl_cp_ok command pod_name r.
Proof. intros Hr Hs i s. do 2 eexists. by eapply extract_iteration_no_crashes. Qed.

(** Dropping a record that is only logged changes neither the counters nor
    the effects. *)
Lemma extract_loop_skip (pod_name : string) (pre post : list raw) (r : raw) (k k' : nat)
  (s s' : ep.state) :
  only_logged FromString registry_get kubectl_cp_ok command pod_name r → same_extraction s s' →
  same_extraction
    (for_enumerate (extract_iteration FromString registry_get kubectl_cp_ok command pod_name)
       k (pre ++ r :: post) s)
    (for_enumerate (extract_iteration FromString registry_get kubectl_cp_ok command pod_name)
       k' (pre ++ post) s').
Proof.
  intros Hr Hs. rewrite !for_enumerate_app. simpl.
  apply for_enumerate_same; [intros; by apply extract_iteration_same |].
  destruct (Hr (k + length pre)%nat
              (for_enumerate (extract_iteration FromString registry_get kubectl_cp_ok
                                command pod_name) k pre s)) as (lvl & m & ->).
  transitivity (for_enumerate (extract_iteration FromString registry_get kubectl_cp_ok
                                 command pod_name) k pre s).
  - by apply same_extraction_logged.
  - apply for_enumerate_same; [intros; by apply extract_iteration_same | done].
Qed.

(** [extract_povs] on a non-empty list when a pod is found. *)
Lemma extract_povs_found (pod_name : string) (raws : list raw) :
  raws ≠ [] →
  get_pod_name kubectl_get_pods (ExtractPovsSettings.namespace command)
    (ExtractPovsSettings.pod_label command) = Some pod_name →
  extract_povs FromString registry_get kubectl_get_pods kubectl_cp_ok command raws
  = let s := for_enumerate
               (extract_iteration FromString registry_get kubectl_cp_ok command pod_name)
               0 raws
               (ep.emits
                  [Log INFO (Using_pod pod_name);
                   Mkdir (ExtractPovsSettings.output_dir command);
                   Log INFO (Found_submissions_extracting (length raws)
                               (ExtractPovsSettings.output_dir command))] ep.init) in
    ep.emits (extract_summary s) s.
Proof. intros Hne Hpod. unfold extract_povs. rewrite Hpod. by destruct raws. Qed.

Lemma extract_summary_logs (s : ep.state) : forallb is_log (extract_summary s) = true.
Proof.
  unfold extract_summary. cbv zeta. simpl.
  by induction (dict.to_list (ep.vuln_counter s)).
Qed.

Lemma extract_povs_skip (pod_name : string) (pre post : list raw) (r : raw) :
  get_pod_name kubectl_get_pods (ExtractPovsSettings.namespace command)
    (ExtractPovsSettings.pod_label command) = Some pod_name →
  only_logged FromString registry_get kubectl_cp_ok command pod_name r → pre ++ post ≠ [] →
  same_extraction
    (extract_povs FromString registry_get kubectl_get_pods kubectl_cp_ok command
       (pre ++ r :: post))
    (extract_povs FromString registry_get kubectl_get_pods kubectl_cp_ok command
       (pre ++ post)).
Proof.
  intros Hpod Hr Hne.
  rewrite !(extract_povs_found pod_name) by (done || by destruct pre).
  cbv zeta.
  etransitivity; [by apply same_extraction_logged, extract_summary_logs |].
  etransitivity; [| symmetry; by apply same_extraction_logged, extract_summary_logs].
  apply extract_loop_skip; [done |].
  by apply (same_extraction_emits [_; _; _] [_; _; _]).
Qed.

(** The log record of a record that is only logged is in the output. *)
Lemma extract_povs_logged (pod_name : string) (pre post : list raw) (r : raw)
  (lvl : level) (m : nat → message) :
  get_pod_name kubectl_get_pods (ExtractPovsSettings.namespace command)
    (ExtractPovsSettings.pod_label command) = Some pod_name →
  (∀ i s, extract_iteration FromString registry_get kubectl_cp_ok command pod_name i r s
          = ep.emits [Log lvl (m i)] s) →
  Log lvl (m (length pre))
  ∈ ep.out (extract_povs FromString registry_get kubectl_get_pods kubectl_cp_ok command
              (pre ++ r :: post)).
Proof.
  intros Hpod Hr.
  rewrite (extract_povs_found pod_name) by (done || by destruct pre).
  cbv zeta. eapply elem_of_prefix; [| apply emits_prefix].
  rewrite for_enumerate_app. simpl.
  eapply elem_of_prefix;
    [| apply for_enumerate_prefix; intros; apply extract_iteration_prefix].
  rewrite Hr. simpl. apply elem_of_app. right. apply list_elem_of_singleton. done.
Qed.

End ExtractProps.

(** ** Both scans *)

Section Scans.
Context {raw : Type}.
Variable FromString : raw → option SubmissionEntry.t.
Variable registry_get : string → option Task.t.
Variable kubectl_get_pods : string → string → option string.
Variable kubectl_cp_ok : string → string → string → list string → bool.
Variable read_command : ReadSubmissionsSettings.t.
Variable extract_command : ExtractPovsSettings.t.

(** C4: a stored record that does not decode is skipped and logged with its
    index in both scans, and the records before and after it are processed as
    they are without it.  In [read_submissions] the output is the output of
    the records before it, the error with the index of the corrupt record,
    and the output of the records after it at their own indices, and the
    record of every task is the one the scan has without the corrupt record.
    In [extract_povs], when a pod is found, the error is logged with the index
    and the counters, the directories made, the files written and the
    [kubectl cp] runs are those of the scan without the corrupt record. *)
Theorem corrupt_record_is_skipped_and_logged (pre post : list raw) (bad : raw) :
  FromString bad = None →
  rs.out (read_submissions FromString registry_get read_command (pre ++ bad :: post))
  = [Log INFO (Found_submissions (length (pre ++ bad :: post)))]
    ++ scan_events FromString registry_get read_command 0 pre
    ++ [Log ERROR (Failed_to_parse_submission (length pre) DecodeError)]
    ++ scan_events FromString registry_get read_command (S (length pre)) post
    ++ read_summary
         (rs.result (read_submissions FromString registry_get read_command
                       (pre ++ bad :: post)))
  ∧ (∀ t,
       dict.get (rs.result (read_submissions FromString registry_get read_command
                              (pre ++ bad :: post))) t
       = dict.get (rs.result (read_submissions FromString registry_get read_command
                                (pre ++ post))) t)
  ∧ (∀ pod_name,
       get_pod_name kubectl_get_pods (ExtractPovsSettings.namespace extract_command)
         (ExtractPovsSettings.pod_label extract_command) = Some pod_name →
       Log ERROR (Failed_to_process_submission (length pre) DecodeError)
         ∈ ep.out (extract_povs FromString registry_get kubectl_get_pods kubectl_cp_ok
                     extract_command (pre ++ bad :: post))
       ∧ (pre ++ post ≠ [] →
          same_extraction
            (extract_povs FromString registry_get kubectl_get_pods kubectl_cp_ok
               extract_command (pre ++ bad :: post))
            (extract_povs FromString registry_get kubectl_get_pods kubectl_cp_ok
               extract_command (pre ++ post)))).
Proof.
  intros Hbad. split; [| split].
  - rewrite read_submissions_out by (by destruct pre).
    rewrite scan_events_app. simpl. rewrite read_events_spec, Hbad. simpl.
    by rewrite <- !app_assoc.
  - intros t. apply read_submissions_skip. intros e He. congruence.
  - intros pod_name Hpod. split.
    + apply (extract_povs_logged _ _ _ _ _ pod_name pre post bad ERROR
               (λ i, Failed_to_process_submission i DecodeError)); [done |].
      intros i s. by apply extract_iteration_corrupt.
    + intros Hne. apply (extract_povs_skip _ _ _ _ _ pod_name); [done | | done].
      by apply only_logged_corrupt.
Qed.

(** C6: for a stored entry with [stop] set, [extract_povs] only logs that it
    skips it and the extraction is the one of the list without it;
    [read_submissions] skips it when [filter_stop] is set (it only logs the
    skip, and the record of every task is the one without it); when
    [filter_stop] is not set it is not skipped as stopped: it is read and
    reported as the same entry with [stop] cleared is. *)
Theorem stopped_entries_are_skipped (i : nat) (r : raw) (e : SubmissionEntry.t) :
  FromString r = Some e →
  SubmissionEntry.stop e = true →
  (∀ pod_name s,
     extract_iteration FromString registry_get kubectl_cp_ok extract_command pod_name i r s
     = ep.emits [Log DEBUG (Skipping_stopped_submission i)] s)
  ∧ (∀ pod_name pre post,
       get_pod_name kubectl_get_pods (ExtractPovsSettings.namespace extract_command)
         (ExtractPovsSettings.pod_label extract_command) = Some pod_name →
       pre ++ post ≠ [] →
       same_extraction
         (extract_povs FromString registry_get kubectl_get_pods kubectl_cp_ok
            extract_command (pre ++ r :: post))
         (extract_povs FromString registry_get kubectl_get_pods kubectl_cp_ok
            extract_command (pre ++ post)))
  ∧ (ReadSubmissionsSettings.filter_stop read_command = true →
     (∀ s, read_iteration FromString registry_get read_command i r s
           = rs.mk (rs.result s)
               (rs.out s ++ [Log INFO (Skipping_stopped_submission i)]))
     ∧ (∀ pre post t,
          dict.get (rs.result (read_submissions FromString registry_get read_command
                                 (pre ++ r :: post))) t
          = dict.get (rs.result (read_submissions FromString registry_get read_command
                                   (pre ++ post))) t))
  ∧ (ReadSubmissionsSettings.filter_stop read_command = false →
     (Log INFO (Skipping_stopped_submission i)
       ∉ read_events FromString registry_get read_command i r)
     ∧ (∀ r', FromString r' = Some (SubmissionEntry.set_stop false e) →
          (∀ s t,
             dict.get (rs.result (read_iteration FromString registry_get read_command
                                    i r s)) t
             = dict.get (rs.result (read_iteration FromString registry_get read_command
                                      i r' s)) t)
          ∧ List.filter is_log (read_events FromString registry_get read_command i r)
            = List.filter is_log (read_events FromString registry_get read_command i r')
          ∧ (read_events FromString registry_get read_command i r
             = [Print_submission i (shown read_command e)]
             ↔ read_events FromString registry_get read_command i r'
               = [Print_submission i
                    (shown read_command (SubmissionEntry.set_stop false e))]))).
Proof.
  intros Hr Hstop. split; [| split; [| split]].
  - intros pod_name s. by apply (extract_iteration_stopped _ _ _ _ _ _ _ e).
  - intros pod_name pre post Hpod Hne.
    apply (extract_povs_skip _ _ _ _ _ pod_name); [done | | done].
    by apply (only_logged_stopped _ _ _ _ _ _ e).
  - intros Hf. split.
    + intros s. by apply (read_iteration_stop_filtered _ _ _ _ _ e).
    + intros pre post t. apply read_submissions_skip. intros e' He'.
      assert (e' = e) as -> by congruence.
      unfold passes_stop_filter. by rewrite Hf, Hstop.
  - intros Hf. split.
    + rewrite read_events_spec, Hr. unfold entry_events, passes_stop_filter.
      rewrite Hf. simpl.
      destruct (entry_task e) as [t |]; [| by intros [=]%list_elem_of_singleton].
      destruct (registry_get t); [| by intros [=]%list_elem_of_singleton].
      destruct (selected read_command t); [| by intros [=]%list_elem_of_singleton].
      destruct (has_passed_patch e && negb (has_passed_crash e));
        by intros [=]%list_elem_of_singleton.
    + intros r' Hr'. split; [| split].
      * intros s t. rewrite !read_iteration_result, Hr, Hr'.
        rewrite counted_task_unfiltered by done. done.
      * rewrite !read_events_spec, Hr, Hr'. rewrite entry_events_unfiltered by done.
        destruct (entry_events_cases registry_get read_command i e) as [Hp | (lvl & m & Hl)].
        -- by rewrite !Hp.
        -- by rewrite !Hl.
      * rewrite !read_events_spec, Hr, Hr'. rewrite entry_events_unfiltered by done.
        destruct (entry_events_cases registry_get read_command i e) as [Hp | (lvl & m & Hl)].
        -- by rewrite !Hp.
        -- rewrite !Hl. by split.
Qed.

(** C10, amended: for a stored entry with no crash, [extract_povs] only logs
    that it skips it, by the stop check or by the check for crashes;
    [read_submissions] leaves [result] alone and only logs: the failure of
    [submission.crashes[0]] through its [except] clause, unless [filter_stop]
    is set and the entry is stopped, when the stop filter skips it first.  In
    both scans the other records are processed as without it. *)
Theorem entries_without_crashes_are_skipped (i : nat) (r : raw) (e : SubmissionEntry.t) :
  FromString r = Some e →
  SubmissionEntry.crashes e = [] →
  (∀ pod_name s,
     extract_iteration FromString registry_get kubectl_cp_ok extract_command pod_name i r s
     = ep.emits [Log DEBUG (if SubmissionEntry.stop e then Skipping_stopped_submission i
                            else Skipping_submission_with_no_crashes i)] s)
  ∧ (∀ s, read_iteration FromString registry_get read_command i r s
          = rs.mk (rs.result s)
              (rs.out s
               ++ [if ReadSubmissionsSettings.filter_stop read_command
                      && SubmissionEntry.stop e
                   then Log INFO (Skipping_stopped_submission i)
                   else Log ERROR (Failed_to_parse_submission i IndexError)]))
  ∧ (∀ pre post t,
       dict.get (rs.result (read_submissions FromString registry_get read_command
                              (pre ++ r :: post))) t
       = dict.get (rs.result (read_submissions FromString registry_get read_command
                                (pre ++ post))) t)
  ∧ (∀ pod_name pre post,
       get_pod_name kubectl_get_pods (ExtractPovsSettings.namespace extract_command)
         (ExtractPovsSettings.pod_label extract_command) = Some pod_name →
       pre ++ post ≠ [] →
       same_extraction
         (extract_povs FromString registry_get kubectl_get_pods kubectl_cp_ok
            extract_command (pre ++ r :: post))
         (extract_povs FromString registry_get kubectl_get_pods kubectl_cp_ok
            extract_command (pre ++ post))).
Proof.
  intros Hr Hcs. split; [| split; [| split]].
  - intros pod_name s. by apply extract_iteration_no_crashes.
  - intros s. by apply read_iteration_no_crashes.
  - intros pre post t. apply read_submissions_skip. intros e' He'.
    assert (e' = e) as -> by congruence.
    unfold entry_task. rewrite Hcs. simpl. apply andb_false_r.
  - intros pod_name pre post Hpod Hne.
    apply (extract_povs_skip _ _ _ _ _ pod_name); [done | | done].
    by apply (only_logged_no_crashes _ _ _ _ _ _ e).
Qed.

(** C1, amended: [extract_povs] does for an entry exactly what it does for the
    entry without its empty-diff patches; the patch loop writes a patch file
    and a metadata file for the patches with diff text only, numbered in
    order, and its final [patch_num], the [num_patches] of the metadata, is
    their number.  In [read_submissions] the record of every task, so the
    per-task patch count, is the same when the empty-diff patches whose result
    is not PASSED are removed from an entry. *)
Theorem placeholders_are_not_exported :
  (∀ pod_name i e s,
     extract_entry registry_get kubectl_cp_ok extract_command pod_name i e s
     = extract_entry registry_get kubectl_cp_ok extract_command pod_name i
         (without_placeholders e) s)
  ∧ (∀ patches_dir e s,
       extract_patches patches_dir (SubmissionEntry.patches e) 0 s
       = (length (non_placeholder_patches e),
          ep.emits (patch_files patches_dir 0 (non_placeholder_patches e)) s))
  ∧ (∀ i d s t,
       dict.get (rs.result (read_entry registry_get read_command i
                              (without_unpassed_placeholders d) s).1) t
       = dict.get (rs.result (read_entry registry_get read_command i d s).1) t).
Proof.
  split; [| split].
  - intros pod_name i e s. unfold extract_entry. simpl.
    destruct (SubmissionEntry.stop e); [done |].
    destruct (SubmissionEntry.crashes e) as [| c cs]; [done |].
    destruct (str_bool _ && negb _); [done |].
    destruct (ExtractPovsSettings.passed_only extract_command && negb _); [done |].
    run. destruct (negb (dict.contains (ep.vuln_counter s) (crash_task_id c))); simpl;
      rewrite !extract_patches_files; unfold non_placeholder_patches;
      by rewrite filter_filter_same.
  - intros patches_dir e s. by rewrite extract_patches_files.
  - intros i d s t. rewrite !read_entry_result.
    assert (has_passed_patch (without_unpassed_placeholders d) = has_passed_patch d) as Hp.
    { unfold has_passed_patch; simpl. apply existsb_filter_implied.
      intros p ->. apply orb_true_r. }
    unfold tally. rewrite Hp. done.
Qed.

End Scans.

(** ** The properties on the sample data *)

Lemma non_patched_iff_passed_crash_without_passed_patch_witness :
  Print_task Sample.record
    ∈ rs.out (read_submissions Sample.FromString Sample.registry_get Sample.read_all
                Sample.stored)
  ∧ TaskResult.non_patched_vulnerabilities Sample.record
    = first_passed_pov
      <$> List.filter (λ e, has_passed_crash e && negb (has_passed_patch e))
            (entries_for Sample.FromString Sample.read_all "T1" Sample.stored)
  ∧ TaskResult.patched_vulnerabilities Sample.record
    = first_passed_pov
      <$> List.filter (λ e, has_passed_crash e && has_passed_patch e)
            (entries_for Sample.FromString Sample.read_all "T1" Sample.stored)
  ∧ (∀ v, v ∈ TaskResult.non_patched_vulnerabilities Sample.record →
       Print_non_patched (TaskResult.project_name Sample.record) "T1" v
         ∈ rs.out (read_submissions Sample.FromString Sample.registry_get Sample.read_all
                     Sample.stored)).
Proof.
  apply (non_patched_iff_passed_crash_without_passed_patch Sample.FromString
           Sample.registry_get Sample.read_all Sample.stored "T1" Sample.record).
  vm_compute. reflexivity.
Defined.

Lemma read_submissions_counts_witness :
  ∃ tr,
    dict.get (rs.result (read_submissions Sample.FromString Sample.registry_get
                           Sample.read_all Sample.stored)) "T1"
    = Some tr
    ∧ Print_task tr
        ∈ rs.out (read_submissions Sample.FromString Sample.registry_get Sample.read_all
                    Sample.stored)
    ∧ TaskResult.n_vulnerabilities tr
      = count_if has_passed_crash
          (entries_for Sample.FromString Sample.read_all "T1" Sample.stored)
    ∧ TaskResult.n_patches tr
      = count_if has_passed_patch
          (entries_for Sample.FromString Sample.read_all "T1" Sample.stored)
    ∧ TaskResult.n_bundles tr
      = count_if (λ e, has_bundle e && implb (has_passed_patch e) (has_passed_crash e))
          (entries_for Sample.FromString Sample.read_all "T1" Sample.stored).
Proof.
  apply (read_submissions_counts Sample.FromString Sample.registry_get Sample.read_all
           Sample.stored "T1" (Task.mk "project" 1)).
  - reflexivity.
  - reflexivity.
  - vm_compute. discriminate.
Defined.

Lemma assertion_never_fails_witness :
  (∀ i, Log ERROR (Failed_to_parse_submission i AssertionError)
          ∉ rs.out (read_submissions Sample.FromString Sample.registry_get Sample.read_all
                      Sample.stored))
  ∧ (∀ i r e x, Sample.stored !! i = Some r → Sample.FromString r = Some e →
        has_passed_patch e = true →
        Log ERROR (Failed_to_parse_submission i x)
          ∉ rs.out (read_submissions Sample.FromString Sample.registry_get Sample.read_all
                      Sample.stored)).
Proof.
  apply (assertion_never_fails Sample.FromString Sample.registry_get Sample.read_all
           Sample.stored).
  intros r e Hin He Hp. unfold Sample.stored in Hin. unfold Sample.FromString in He.
  subst r.
  rewrite !elem_of_cons in Hin.
  destruct Hin as [Hin | [Hin | [Hin | [Hin | [Hin | Hin]]]]];
    try (by apply elem_of_nil in Hin); try discriminate Hin;
    injection Hin as ->; (reflexivity || (simpl in Hp; discriminate Hp)).
Defined.

Lemma corrupt_record_is_skipped_and_logged_witness :
  Log ERROR (Failed_to_parse_submission 1 DecodeError)
    ∈ rs.out (read_submissions Sample.FromString Sample.registry_get Sample.read_all
                ([Some Sample.unpatched] ++ None :: [Some Sample.patched]))
  ∧ dict.get (rs.result (read_submissions Sample.FromString Sample.registry_get
                           Sample.read_all
                           ([Some Sample.unpatched] ++ None :: [Some Sample.patched]))) "T1"
    = dict.get (rs.result (read_submissions Sample.FromString Sample.registry_get
                             Sample.read_all
                             ([Some Sample.unpatched] ++ [Some Sample.patched]))) "T1"
  ∧ Log ERROR (Failed_to_process_submission 1 DecodeError)
      ∈ ep.out (extract_povs Sample.FromString Sample.registry_get Sample.kubectl_get_pods
                  Sample.kubectl_cp_ok Sample.extract_all
                  ([Some Sample.unpatched] ++ None :: [Some Sample.patched]))
  ∧ same_extraction
      (extract_povs Sample.FromString Sample.registry_get Sample.kubectl_get_pods
         Sample.kubectl_cp_ok Sample.extract_all
         ([Some Sample.unpatched] ++ None :: [Some Sample.patched]))
      (extract_povs Sample.FromString Sample.registry_get Sample.kubectl_get_pods
         Sample.kubectl_cp_ok Sample.extract_all
         ([Some Sample.unpatched] ++ [Some Sample.patched])).
Proof.
  destruct (corrupt_record_is_skipped_and_logged Sample.FromString Sample.registry_get
              Sample.kubectl_get_pods Sample.kubectl_cp_ok Sample.read_all
              Sample.extract_all [Some Sample.unpatched] [Some Sample.patched] None
              eq_refl) as (Hout & Hresult & Hextract).
  destruct (Hextract "scheduler-0" eq_refl) as [Hlog Hsame].
  split; [| split; [apply Hresult | split; [exact Hlog | apply Hsame; discriminate]]].
  rewrite Hout. rewrite !elem_of_app. right. right. left.
  apply list_elem_of_singleton. reflexivity.
Defined.

Lemma stopped_entries_are_skipped_witness :
  extract_iteration Sample.FromString Sample.registry_get Sample.kubectl_cp_ok
    Sample.extract_all "scheduler-0" 3 (Some Sample.stopped) ep.init
  = ep.emits [Log DEBUG (Skipping_stopped_submission 3)] ep.init
  ∧ read_iteration Sample.FromString Sample.registry_get Sample.read_active 3
      (Some Sample.stopped) rs.init
    = rs.mk (rs.result rs.init)
        (rs.out rs.init ++ [Log INFO (Skipping_stopped_submission 3)]).
Proof.
  destruct (stopped_entries_are_skipped Sample.FromString Sample.registry_get
              Sample.kubectl_get_pods Sample.kubectl_cp_ok Sample.read_active
              Sample.extract_all 3 (Some Sample.stopped) Sample.stopped eq_refl eq_refl)
    as (Hextract & _ & Hfiltered & _).
  split; [apply Hextract | apply (proj1 (Hfiltered eq_refl))].
Defined.

Lemma entries_without_crashes_are_skipped_witness :
  extract_iteration Sample.FromString Sample.registry_get Sample.kubectl_cp_ok
    Sample.extract_all "scheduler-0" 4 (Some Sample.empty) ep.init
  = ep.emits [Log DEBUG (Skipping_submission_with_no_crashes 4)] ep.init
  ∧ read_iteration Sample.FromString Sample.registry_get Sample.read_all 4
      (Some Sample.empty) rs.init
    = rs.mk (rs.result rs.init)
        (rs.out rs.init ++ [Log ERROR (Failed_to_parse_submission 4 IndexError)]).
Proof.
  destruct (entries_without_crashes_are_skipped Sample.FromString Sample.registry_get
              Sample.kubectl_get_pods Sample.kubectl_cp_ok Sample.read_all
              Sample.extract_all 4 (Some Sample.empty) Sample.empty eq_refl eq_refl)
    as (Hextract & Hread & _).
  split; [apply Hextract | apply Hread].
Defined.

(** The patch loop on [Sample.patched]: the placeholder gets no file and the
    patch with diff text is number 1. *)
Example extract_patches_sample :
  extract_patches ["out"; "patches"] (SubmissionEntry.patches Sample.patched) 0 ep.init
  = (1%nat,
     ep.emits
       [Write_text ["out"; "patches"; "patch_001.patch"] "--- a/f.c";
        Write_json ["out"; "patches"; "patch_001_metadata.json"]
          [("internal_patch_id", JStr "p1"); ("competition_patch_id", JStr "cp1");
           ("result", JStr "PASSED")]] ep.init).
Proof. vm_compute. reflexivity. Qed.

(** ** Where the claims C1 and C10 fail as stated *)

(** The only patch entry of [Sample.placeholder_passed] has an empty diff, and
    [read_submissions] counts it: the patch count of T1 is 1, while it is 0
    for the same entry without its placeholder. *)
Lemma placeholder_with_passed_result_is_counted :
  non_placeholder_patches Sample.placeholder_passed = []
  ∧ TaskResult.n_patches
    <$> dict.get (rs.result (read_submissions Sample.FromString Sample.registry_get
                               Sample.read_all [Some Sample.placeholder_passed])) "T1"
    = Some 1%nat
  ∧ TaskResult.n_patches
    <$> dict.get (rs.result (read_submissions Sample.FromString Sample.registry_get
                               Sample.read_all
                               [Some (without_placeholders Sample.placeholder_passed)])) "T1"
    = Some 0%nat.
Proof. split; [reflexivity |]. split; vm_compute; reflexivity. Qed.

(** With [filter_stop] set, the stopped entry without crashes is skipped by
    the stop filter: the [except] clause logs nothing for it. *)
Lemma stopped_entry_without_crashes_is_filtered_first :
  SubmissionEntry.crashes Sample.stopped_empty = []
  ∧ rs.out (read_submissions Sample.FromString Sample.registry_get Sample.read_active
              [Some Sample.stopped_empty])
    = [Log INFO (Found_submissions 1); Log INFO (Skipping_stopped_submission 0);
       Print_totals 0 0 0; Print_none; Log INFO Done]
  ∧ (∀ x, Log ERROR (Failed_to_parse_submission 0 x)
            ∉ rs.out (read_submissions Sample.FromString Sample.registry_get
                        Sample.read_active [Some Sample.stopped_empty])).
Proof.
  assert (rs.out (read_submissions Sample.FromString Sample.registry_get Sample.read_active
                    [Some Sample.stopped_empty])
          = [Log INFO (Found_submissions 1); Log INFO (Skipping_stopped_submission 0);
             Print_totals 0 0 0; Print_none; Log INFO Done]) as Hout
    by (vm_compute; reflexivity).
  split; [reflexivity |]. split; [exact Hout |].
  intros x. rewrite Hout, !elem_of_cons, elem_of_nil.
  intros [H | [H | [H | [H | [H | []]]]]]; discriminate H.
Qed.

(** * Further properties of the two scans *)

(** ** [extract_povs]: what is extracted, and where to *)

Section MoreExtract.
Context {raw : Type}.
Variable FromString : raw → option SubmissionEntry.t.
Variable registry_get : string → option Task.t.
Variable kubectl_get_pods : string → string → option string.
Variable kubectl_cp_ok : string → string → string → list string → bool.
Variable command : ExtractPovsSettings.t.

(** One crash adds its effects to the output and counts its PoV file; it
    does so whatever the state. *)
Lemma extract_crash_run (pod_name : string) (crashes_dir : list string) (k : nat)
  (c : CrashWithId.t) (s : ep.state) :
  extract_crash kubectl_cp_ok command pod_name crashes_dir k c s
  = let run := extract_crash kubectl_cp_ok command pod_name crashes_dir k c ep.init in
    ep.mk (ep.vuln_counter s) (ep.povs_copied s + ep.povs_copied run)
      (ep.povs_failed s + ep.povs_failed run) (ep.out s ++ ep.out run).
Proof.
  destruct s as [vc copied failed out]. unfold extract_crash, kubectl_cp. cbv zeta.
  destruct (kubectl_cp_ok _ _ _ _);
    destruct (str_bool (Crash.stacktrace _));
    destruct (str_bool (TracedCrash.tracer_stacktrace _));
    unfold ep.emits, ep.count_pov; simpl;
    rewrite <- ?app_assoc; simpl; f_equal; lia.
Qed.

Lemma crash_loop_run (pod_name : string) (crashes_dir : list string)
  (cs : list CrashWithId.t) (k : nat) (s : ep.state) :
  for_enumerate (extract_crash kubectl_cp_ok command pod_name crashes_dir) k cs s
  = let run := crash_run kubectl_cp_ok command pod_name crashes_dir k cs in
    ep.mk (ep.vuln_counter s) (ep.povs_copied s + ep.povs_copied run)
      (ep.povs_failed s + ep.povs_failed run) (ep.out s ++ ep.out run).
Proof.
  unfold crash_run. cbv zeta. revert k s.
  induction cs as [| c cs IH]; intros k s; simpl.
  - destruct s. simpl. rewrite !Nat.add_0_r, app_nil_r. done.
  - rewrite IH, (IH _ (extract_crash _ _ _ _ _ _ ep.init)).
    rewrite (extract_crash_run pod_name crashes_dir k c s). cbv zeta. simpl.
    rewrite <- app_assoc. f_equal; lia.
Qed.

Lemma bump_get (t t' : string) (vc : dict.t nat) :
  dict.get (bump t vc) t'
  = if decide (t' = t) then Some (S (default 0%nat (dict.get vc t))) else dict.get vc t'.
Proof.
  unfold bump. rewrite dict_get_update, dict_contains_get.
  destruct (dict.get vc t) as [n |] eqn:Hn; case_decide; subst;
    rewrite ?dict_get_set, ?Hn; try done.
  - by rewrite decide_True.
  - by rewrite decide_False.
Qed.

(** An iteration on a record that is not extractable only logs. *)
Lemma extract_iteration_not_extractable (pod_name : string) (r : raw) :
  extractable FromString command r = false →
  only_logged FromString registry_get kubectl_cp_ok command pod_name r.
Proof.
  intros Hr i s. unfold extractable in Hr.
  unfold extract_iteration, try_except, extract_body.
  destruct (FromString r) as [e |]; run; [| by eauto].
  unfold extract_entry, extracted, has_passed_crash in *.
  destruct (SubmissionEntry.stop e); simpl in *; [by eauto |].
  destruct (SubmissionEntry.crashes e) as [| c cs]; simpl in *; [by eauto |].
  destruct (str_bool _ && negb _); simpl in *; [by eauto |].
  destruct (ExtractPovsSettings.passed_only command && negb _); simpl in *; [by eauto |].
  done.
Qed.

(** An iteration on an extracted entry of task [t]: the vulnerability gets the
    next number of [t] and its output is added. *)
Lemma extract_iteration_extracted (pod_name : string) (i : nat) (r : raw)
  (e : SubmissionEntry.t) (t : string) (s : ep.state) :
  FromString r = Some e → extracted command e = true → entry_task e = Some t →
  extract_iteration FromString registry_get kubectl_cp_ok command pod_name i r s
  = let n := S (default 0%nat (dict.get (ep.vuln_counter s) t)) in
    let run := crash_run kubectl_cp_ok command pod_name
                 (vuln_dir command (project_of registry_get t) t n // "crashes") 1
                 (SubmissionEntry.crashes e) in
    ep.mk (bump t (ep.vuln_counter s)) (ep.povs_copied s + ep.povs_copied run)
      (ep.povs_failed s + ep.povs_failed run)
      (ep.out s ++ entry_output registry_get kubectl_cp_ok command pod_name n t e).
Proof.
  intros Hr He Ht. unfold extracted, entry_task, has_passed_crash in *.
  unfold extract_iteration, try_except, extract_body. rewrite Hr. run.
  unfold extract_entry.
  destruct (SubmissionEntry.stop e) eqn:Hstop; simpl in *; [done |].
  destruct (SubmissionEntry.crashes e) as [| c cs] eqn:Hcs; simpl in *; [done |].
  injection Ht as <-.
  destruct (str_bool _ && negb _); simpl in *; [done |].
  destruct (ExtractPovsSettings.passed_only command && negb _); simpl in *; [done |].
  run. destruct s as [vc copied failed out]. simpl.
  assert (dict.get
            (dict.update (crash_task_id c) S
               (if negb (dict.contains vc (crash_task_id c))
                then dict.set (crash_task_id c) 0%nat vc else vc)) (crash_task_id c)
          = Some (S (default 0%nat (dict.get vc (crash_task_id c))))) as Hn.
  { pose proof (bump_get (crash_task_id c) (crash_task_id c) vc) as H.
    unfold bump in H. rewrite decide_True in H by done. rewrite <- H.
    by destruct (dict.contains vc (crash_task_id c)). }
  revert Hn. unfold bump, entry_output, vuln_dir, project_of. rewrite Hcs, Hstop.
  destruct (dict.contains vc (crash_task_id c)); simpl; intros Hn;
    rewrite Hn; simpl;
    rewrite extract_patches_files;
    change (extract_crash kubectl_cp_ok command pod_name ?d 1 c ?s0)
      with (for_enumerate (extract_crash kubectl_cp_ok command pod_name d) 1 [c] s0);
    rewrite <- (for_enumerate_app _ [c] cs 1);
    rewrite crash_loop_run; simpl;
    rewrite <- ?app_assoc; simpl; done.
Qed.
End MoreExtract.

Lemma under_weaken (dir dir' : list string) (ev : event) :
  dir `prefix_of` dir' → under dir' ev → under dir ev.
Proof. intros Hd Hev p Hp. etransitivity; [exact Hd | by apply Hev]. Qed.

Lemma pjoin_prefix (dir : list string) (name : string) : dir `prefix_of` dir // name.
Proof. by apply prefix_app_r. Qed.

Section MoreExtract2.
Context {raw : Type}.
Variable FromString : raw → option SubmissionEntry.t.
Variable registry_get : string → option Task.t.
Variable kubectl_get_pods : string → string → option string.
Variable kubectl_cp_ok : string → string → string → list string → bool.
Variable command : ExtractPovsSettings.t.

(** The crash loop, crash by crash. *)
Lemma extract_crash_output (pod_name : string) (crashes_dir : list string) (k : nat)
  (c : CrashWithId.t) :
  let run := extract_crash kubectl_cp_ok command pod_name crashes_dir k c ep.init in
  let ok := kubectl_cp_ok (ExtractPovsSettings.namespace command) pod_name
              (Crash.crash_input_path (TracedCrash.crash (CrashWithId.crash c)))
              (crashes_dir // ("crash_" +:+ fmt03d k) // "pov.bin") in
  ep.out run = crash_output kubectl_cp_ok command pod_name crashes_dir k c
  ∧ ep.povs_copied run = Nat.b2n ok
  ∧ ep.povs_failed run = Nat.b2n (negb ok).
Proof.
  unfold extract_crash, kubectl_cp, crash_output. cbv zeta.
  destruct (kubectl_cp_ok _ _ _ _);
    destruct (str_bool (Crash.stacktrace _));
    destruct (str_bool (TracedCrash.tracer_stacktrace _)); done.
Qed.

Lemma crash_run_cons (pod_name : string) (crashes_dir : list string) (k : nat)
  (c : CrashWithId.t) (cs : list CrashWithId.t) :
  let one := extract_crash kubectl_cp_ok command pod_name crashes_dir k c ep.init in
  let rest := crash_run kubectl_cp_ok command pod_name crashes_dir (S k) cs in
  crash_run kubectl_cp_ok command pod_name crashes_dir k (c :: cs)
  = ep.mk dict.empty (ep.povs_copied one + ep.povs_copied rest)
      (ep.povs_failed one + ep.povs_failed rest) (ep.out one ++ ep.out rest).
Proof.
  cbv zeta. unfold crash_run at 1. simpl. rewrite crash_loop_run. cbv zeta.
  f_equal. by rewrite extract_crash_run.
Qed.

Lemma crash_run_out (pod_name : string) (crashes_dir : list string)
  (cs : list CrashWithId.t) (k : nat) :
  ep.out (crash_run kubectl_cp_ok command pod_name crashes_dir k cs)
  = mjoin (imap (λ j c, crash_output kubectl_cp_ok command pod_name crashes_dir (k + j) c)
             cs).
Proof.
  revert k. induction cs as [| c cs IH]; intros k; [done |].
  rewrite crash_run_cons. cbv zeta. cbn [ep.out].
  rewrite IH, (proj1 (extract_crash_output pod_name crashes_dir k c)).
  rewrite imap_cons. cbn [mjoin list_join]. rewrite Nat.add_0_r.
  f_equal. f_equal. apply imap_ext. intros j c' _. simpl. f_equal. lia.
Qed.

Lemma crash_run_stats (pod_name : string) (crashes_dir : list string)
  (cs : list CrashWithId.t) (k : nat) :
  let run := crash_run kubectl_cp_ok command pod_name crashes_dir k cs in
  (ep.povs_copied run + ep.povs_failed run = length cs)%nat
  ∧ ep.povs_copied run = length (List.filter (is_cp true) (ep.out run))
  ∧ ep.povs_failed run = length (List.filter (is_cp false) (ep.out run)).
Proof.
  cbv zeta. revert k. induction cs as [| c cs IH]; intros k; [done |].
  rewrite crash_run_cons. cbv zeta. cbn [ep.out ep.povs_copied ep.povs_failed].
  destruct (IH (S k)) as (Hsum & Hcopied & Hfailed).
  destruct (extract_crash_output pod_name crashes_dir k c) as (Hout & Hc & Hf).
  rewrite Hout, Hc, Hf, !List.filter_app, !length_app, <- Hcopied, <- Hfailed.
  unfold crash_output. cbv zeta.
  destruct (kubectl_cp_ok _ _ _ _);
    destruct (str_bool (Crash.stacktrace _));
    destruct (str_bool (TracedCrash.tracer_stacktrace _)); simpl; lia.
Qed.
End MoreExtract2.

Lemma patch_files_no_cp (b : bool) (dir : list string) (ps : list SubmissionEntryPatch.t)
  (n : nat) :
  List.filter (is_cp b) (patch_files dir n ps) = [].
Proof. revert n. induction ps as [| p ps IH]; intros n; simpl; [done | apply IH]. Qed.

Lemma patch_files_under (dir : list string) (ps : list SubmissionEntryPatch.t) (n : nat) :
  Forall (under dir) (patch_files dir n ps).
Proof.
  revert n. induction ps as [| p ps IH]; intros n; simpl; [done |].
  repeat constructor; [intros q [= <-]; apply pjoin_prefix.. | apply IH].
Qed.

Section MoreExtract3.
Context {raw : Type}.
Variable FromString : raw → option SubmissionEntry.t.
Variable registry_get : string → option Task.t.
Variable kubectl_get_pods : string → string → option string.
Variable kubectl_cp_ok : string → string → string → list string → bool.
Variable command : ExtractPovsSettings.t.

Lemma extracted_entry_task (e : SubmissionEntry.t) :
  extracted command e = true → ∃ t, entry_task e = Some t.
Proof.
  unfold extracted, entry_task. intros [_ He]%andb_prop.
  destruct (head (SubmissionEntry.crashes e)); [by eauto | done].
Qed.

Lemma extracted_for_cons (t : string) (r : raw) (raws : list raw) :
  extracted_for FromString command t (r :: raws)
  = match FromString r with
    | Some e =>
        if extracted command e && bool_decide (entry_task e = Some t)
        then e :: extracted_for FromString command t raws
        else extracted_for FromString command t raws
    | None => extracted_for FromString command t raws
    end.
Proof. unfold extracted_for; simpl. by destruct (FromString r). Qed.

(** The counter of a task after the loop: one more for every entry of the
    task that is extracted. *)
Lemma extract_loop_counter (pod_name : string) (raws : list raw) (i : nat) (s : ep.state)
  (t : string) :
  dict.get (ep.vuln_counter
              (for_enumerate
                 (extract_iteration FromString registry_get kubectl_cp_ok command pod_name)
                 i raws s)) t
  = match extracted_for FromString command t raws with
    | [] => dict.get (ep.vuln_counter s) t
    | es => Some (default 0%nat (dict.get (ep.vuln_counter s) t) + length es)%nat
    end.
Proof.
  revert i s. induction raws as [| r raws IH]; intros i s; simpl; [done |].
  rewrite IH, extracted_for_cons. clear IH.
  destruct (extractable FromString command r) eqn:Hx.
  - unfold extractable in Hx. destruct (FromString r) as [e |] eqn:Hr; [| done].
    destruct (extracted_entry_task e Hx) as [t' Ht'].
    rewrite (extract_iteration_extracted _ _ _ _ pod_name i r e t' s) by done.
    cbv zeta. cbn [ep.vuln_counter]. rewrite bump_get, Hx, Ht'. simpl.
    case_decide as Htt.
    + subst t'. rewrite bool_decide_eq_true_2 by done.
      destruct (extracted_for FromString command t raws); simpl; f_equal; lia.
    + rewrite bool_decide_eq_false_2 by congruence. done.
  - destruct (extract_iteration_not_extractable FromString registry_get kubectl_cp_ok
                command pod_name r Hx i s) as (lvl & m & ->).
    unfold extractable in Hx. cbn [ep.vuln_counter ep.emits].
    destruct (FromString r) as [e |]; [| done]. by rewrite Hx.
Qed.

(** What one iteration adds to the statistics and to the [kubectl cp] runs. *)
Lemma extract_iteration_stats (pod_name : string) (i : nat) (r : raw) (s : ep.state) :
  let s' := extract_iteration FromString registry_get kubectl_cp_ok command pod_name i r s in
  ∃ copied failed : nat,
    ep.povs_copied s' = (ep.povs_copied s + copied)%nat
    ∧ ep.povs_failed s' = (ep.povs_failed s + failed)%nat
    ∧ length (List.filter (is_cp true) (ep.out s'))
      = (length (List.filter (is_cp true) (ep.out s)) + copied)%nat
    ∧ length (List.filter (is_cp false) (ep.out s'))
      = (length (List.filter (is_cp false) (ep.out s)) + failed)%nat
    ∧ (copied + failed)%nat
      = total_crashes (List.filter (extracted command) (omap FromString [r])).
Proof.
  cbv zeta. destruct (extractable FromString command r) eqn:Hx.
  - unfold extractable in Hx. destruct (FromString r) as [e |] eqn:Hr; [| done].
    destruct (extracted_entry_task e Hx) as [t' Ht'].
    rewrite (extract_iteration_extracted _ _ _ _ pod_name i r e t' s) by done.
    cbv zeta. cbn [ep.povs_copied ep.povs_failed ep.out].
    destruct (crash_run_stats kubectl_cp_ok command pod_name
                (vuln_dir command (project_of registry_get t') t'
                   (S (default 0%nat (dict.get (ep.vuln_counter s) t'))) // "crashes")
                (SubmissionEntry.crashes e) 1) as (Hrun & Hc & Hf).
    eexists _, _. split; [reflexivity |]. split; [reflexivity |].
    unfold entry_output. cbv zeta.
    rewrite !List.filter_app, !patch_files_no_cp, !length_app, <- Hc, <- Hf.
    simpl. rewrite Hr. simpl. rewrite Hx. unfold total_crashes. simpl. lia.
  - destruct (extract_iteration_not_extractable FromString registry_get kubectl_cp_ok
                command pod_name r Hx i s) as (lvl & m & ->).
    cbn [ep.povs_copied ep.povs_failed ep.out ep.emits].
    exists 0%nat, 0%nat. rewrite !List.filter_app, !length_app. simpl.
    unfold extractable in Hx. destruct (FromString r) as [e |]; simpl;
      rewrite ?Hx; unfold total_crashes; simpl; lia.
Qed.

Lemma total_crashes_app (es es' : list SubmissionEntry.t) :
  total_crashes (es ++ es') = (total_crashes es + total_crashes es')%nat.
Proof. unfold total_crashes. rewrite !fmap_app. apply sum_list_with_app. Qed.

(** The statistics after the loop. *)
Lemma extract_loop_stats (pod_name : string) (raws : list raw) (i : nat) (s : ep.state) :
  let s' := for_enumerate
              (extract_iteration FromString registry_get kubectl_cp_ok command pod_name)
              i raws s in
  ∃ copied failed : nat,
    ep.povs_copied s' = (ep.povs_copied s + copied)%nat
    ∧ ep.povs_failed s' = (ep.povs_failed s + failed)%nat
    ∧ length (List.filter (is_cp true) (ep.out s'))
      = (length (List.filter (is_cp true) (ep.out s)) + copied)%nat
    ∧ length (List.filter (is_cp false) (ep.out s'))
      = (length (List.filter (is_cp false) (ep.out s)) + failed)%nat
    ∧ (copied + failed)%nat
      = total_crashes (List.filter (extracted command) (omap FromString raws)).
Proof.
  cbv zeta. revert i s. induction raws as [| r raws IH]; intros i s.
  { exists 0%nat, 0%nat. simpl. unfold total_crashes. simpl. lia. }
  cbn [for_enumerate].
  destruct (extract_iteration_stats pod_name i r s) as (c1 & f1 & H1 & H2 & H3 & H4 & H5).
  destruct (IH (S i) (extract_iteration FromString registry_get kubectl_cp_ok command
                        pod_name i r s)) as (c2 & f2 & G1 & G2 & G3 & G4 & G5).
  exists (c1 + c2)%nat, (f1 + f2)%nat.
  rewrite G1, G2, G3, G4, H1, H2, H3, H4.
  change (r :: raws) with ([r] ++ raws).
  rewrite omap_app, List.filter_app, total_crashes_app. lia.
Qed.

(** A property of every log record and of the output of every extracted
    entry holds for everything the loop adds. *)
Lemma extract_loop_Forall (P : event → Prop) (pod_name : string) (raws : list raw)
  (i : nat) (s : ep.state) :
  (∀ lvl m, P (Log lvl m)) →
  (∀ n t r e, r ∈ raws → FromString r = Some e → extracted command e = true →
              entry_task e = Some t →
              Forall P (entry_output registry_get kubectl_cp_ok command pod_name n t e)) →
  Forall P (ep.out s) →
  Forall P (ep.out (for_enumerate
                      (extract_iteration FromString registry_get kubectl_cp_ok command
                         pod_name) i raws s)).
Proof.
  intros Hlog. revert i s.
  induction raws as [| r raws IH]; intros i s Hentry Hs; [done |].
  cbn [for_enumerate]. apply IH.
  { intros n t r' e Hin. apply Hentry. by right. }
  clear IH.
  destruct (extractable FromString command r) eqn:Hx.
  - unfold extractable in Hx. destruct (FromString r) as [e |] eqn:Hr; [| done].
    destruct (extracted_entry_task e Hx) as [t' Ht'].
    rewrite (extract_iteration_extracted _ _ _ _ pod_name i r e t' s) by done.
    cbv zeta. cbn [ep.out]. apply Forall_app. split; [done |].
    apply (Hentry _ _ r); [by left | done..].
  - destruct (extract_iteration_not_extractable FromString registry_get kubectl_cp_ok
                command pod_name r Hx i s) as (lvl & m & ->).
    cbn [ep.out ep.emits]. apply Forall_app. split; [done |].
    by apply Forall_singleton.
Qed.

End MoreExtract3.

Lemma get_pod_name_non_empty (kubectl_get_pods : string → string → option string)
  (namespace label pod_name : string) :
  get_pod_name kubectl_get_pods namespace label = Some pod_name →
  kubectl_get_pods namespace label = Some pod_name ∧ pod_name ≠ "".
Proof.
  unfold get_pod_name. destruct (kubectl_get_pods namespace label) as [p |]; [| done].
  destruct p; [done |]. by intros [= <-].
Qed.

Lemma cp_from_mono (kubectl_cp_ok : string → string → string → list string → bool)
  (namespace pod_name : string) (cs cs' : list CrashWithId.t) (ev : event) :
  cs ⊆ cs' → cp_from kubectl_cp_ok namespace pod_name cs ev →
  cp_from kubectl_cp_ok namespace pod_name cs' ev.
Proof.
  intros Hsub. destruct ev; try done. simpl.
  intros (-> & -> & -> & c & Hc & ->). repeat split; try done. exists c. split; [| done].
  by apply Hsub.
Qed.

Lemma cp_from_patch_files (kubectl_cp_ok : string → string → string → list string → bool)
  (namespace pod_name : string) (cs : list CrashWithId.t) (dir : list string)
  (ps : list SubmissionEntryPatch.t) (k : nat) :
  Forall (cp_from kubectl_cp_ok namespace pod_name cs) (patch_files dir k ps).
Proof.
  revert k. induction ps as [| p ps IH]; intros k; simpl; repeat constructor. apply IH.
Qed.

Section MoreExtract4.
Context {raw : Type}.
Variable FromString : raw → option SubmissionEntry.t.
Variable registry_get : string → option Task.t.
Variable kubectl_get_pods : string → string → option string.
Variable kubectl_cp_ok : string → string → string → list string → bool.
Variable command : ExtractPovsSettings.t.

Lemma crash_output_under (pod_name : string) (crashes_dir : list string) (k : nat)
  (c : CrashWithId.t) :
  Forall (λ ev, under crashes_dir ev
                ∧ cp_from kubectl_cp_ok (ExtractPovsSettings.namespace command) pod_name
                    [c] ev)
    (crash_output kubectl_cp_ok command pod_name crashes_dir k c).
Proof.
  assert (∀ name, crashes_dir `prefix_of`
                    crashes_dir // ("crash_" +:+ fmt03d k) // name) as Hp.
  { intros name. etransitivity; apply pjoin_prefix. }
  unfold crash_output. cbv zeta.
  destruct (kubectl_cp_ok _ _ _ _) eqn:Hok;
    destruct (str_bool (Crash.stacktrace _));
    destruct (str_bool (TracedCrash.tracer_stacktrace _)); simpl;
    repeat constructor; try (intros q [= <-]; (apply Hp || apply pjoin_prefix));
    try done; exists c; (split; [by left | done]).
Qed.

Lemma crash_run_under (pod_name : string) (crashes_dir : list string)
  (cs : list CrashWithId.t) (k : nat) :
  Forall (λ ev, under crashes_dir ev
                ∧ cp_from kubectl_cp_ok (ExtractPovsSettings.namespace command) pod_name
                    cs ev)
    (ep.out (crash_run kubectl_cp_ok command pod_name crashes_dir k cs)).
Proof.
  revert k. induction cs as [| c cs IH]; intros k; [constructor |].
  rewrite crash_run_cons. cbv zeta. cbn [ep.out].
  rewrite (proj1 (extract_crash_output kubectl_cp_ok command pod_name crashes_dir k c)).
  apply Forall_app. split.
  - eapply Forall_impl; [apply crash_output_under |]. intros ev [Hu Hc]. split; [done |].
    eapply cp_from_mono; [| done]. intros x Hx. apply list_elem_of_singleton in Hx as ->.
    by left.
  - eapply Forall_impl; [apply IH |]. intros ev [Hu Hc]. split; [done |].
    eapply cp_from_mono; [| done]. intros x Hx. by right.
Qed.

(** Everything an extracted entry makes or writes is inside its
    vulnerability directory, and what it copies are the inputs of its
    crashes, from the pod. *)
Lemma entry_output_under (pod_name : string) (n : nat) (t : string)
  (e : SubmissionEntry.t) :
  Forall (λ ev, under (vuln_dir command (project_of registry_get t) t n) ev
                ∧ cp_from kubectl_cp_ok (ExtractPovsSettings.namespace command) pod_name
                    (SubmissionEntry.crashes e) ev)
    (entry_output registry_get kubectl_cp_ok command pod_name n t e).
Proof.
  unfold entry_output. cbv zeta.
  set (dir := vuln_dir command (project_of registry_get t) t n).
  repeat (apply Forall_app; split).
  - repeat constructor; intros q [= <-]; apply pjoin_prefix.
  - eapply Forall_impl; [apply crash_run_under |]. intros ev [Hu Hc]. split; [| done].
    eapply under_weaken; [apply pjoin_prefix | done].
  - apply Forall_and. split.
    + eapply Forall_impl; [apply patch_files_under |]. intros ev Hu.
      eapply under_weaken; [apply pjoin_prefix | done].
    + apply cp_from_patch_files.
  - repeat constructor; try done. intros q [= <-]. apply pjoin_prefix.
Qed.

End MoreExtract4.

Lemma is_cp_log (b : bool) (l : list event) :
  forallb is_log l = true → List.filter (is_cp b) l = [].
Proof.
  induction l as [| ev l IH]; [done |]. simpl. intros [H1 H2]%andb_true_iff.
  destruct ev; try done; simpl; by apply IH.
Qed.

Section ExtractTop.
Context {raw : Type}.
Variable FromString : raw → option SubmissionEntry.t.
Variable registry_get : string → option Task.t.
Variable kubectl_get_pods : string → string → option string.
Variable kubectl_cp_ok : string → string → string → list string → bool.
Variable command : ExtractPovsSettings.t.

(** X1: when a pod is found, the vulnerability counter [extract_povs] keeps
    for a task is, at the end of the scan, the number of stored records of
    that task that are extracted (decoded, not stopped, with a first crash
    naming the task, passing the [task_id] and [passed_only] options); a
    task without such a record has no counter. *)
Theorem extract_povs_counts_extracted_entries (raw_submissions : list raw)
  (pod_name t : string) :
  get_pod_name kubectl_get_pods (ExtractPovsSettings.namespace command)
    (ExtractPovsSettings.pod_label command) = Some pod_name →
  dict.get (ep.vuln_counter
              (extract_povs FromString registry_get kubectl_get_pods kubectl_cp_ok
                 command raw_submissions)) t
  = match extracted_for FromString command t raw_submissions with
    | [] => None
    | es => Some (length es)
    end.
Proof.
  intros Hpod. destruct (decide (raw_submissions = [])) as [-> | Hne]; [done |].
  rewrite (extract_povs_found _ _ _ _ _ pod_name) by done. cbv zeta.
  cbn [ep.emits ep.vuln_counter].
  rewrite extract_loop_counter. cbn [ep.emits ep.vuln_counter ep.init].
  by destruct (extracted_for _ _ _ _).
Qed.

Lemma extract_loop_entry_output (pod_name : string) (pre post : list raw) (r : raw)
  (e : SubmissionEntry.t) (t : string) (k : nat) (s : ep.state) :
  FromString r = Some e → extracted command e = true → entry_task e = Some t →
  ∃ before after,
    ep.out (for_enumerate
              (extract_iteration FromString registry_get kubectl_cp_ok command pod_name)
              k (pre ++ r :: post) s)
    = before
      ++ entry_output registry_get kubectl_cp_ok command pod_name
           (S (default 0%nat (dict.get (ep.vuln_counter s) t)
               + length (extracted_for FromString command t pre))) t e
      ++ after.
Proof.
  intros Hr Hx Ht. rewrite for_enumerate_app. cbn [for_enumerate].
  set (s1 := for_enumerate _ k pre s).
  rewrite (extract_iteration_extracted _ _ _ _ pod_name _ r e t s1) by done.
  cbv zeta.
  assert (default 0%nat (dict.get (ep.vuln_counter s1) t)
          = (default 0%nat (dict.get (ep.vuln_counter s) t)
             + length (extracted_for FromString command t pre))%nat) as ->.
  { unfold s1. rewrite extract_loop_counter.
    destruct (extracted_for _ _ _ _); simpl; lia. }
  set (s2 := ep.mk _ _ _ (_ ++ _)).
  destruct (for_enumerate_prefix
              (extract_iteration FromString registry_get kubectl_cp_ok command pod_name)
              post (S (k + length pre)) s2) as [rest Hrest].
  { intros. apply extract_iteration_prefix. }
  rewrite Hrest. unfold s2. cbn [ep.out].
  eexists (ep.out s1), _. rewrite <- !app_assoc. reflexivity.
Qed.


(** X3: when a pod is found, [povs_copied] and [povs_failed] are the
    numbers of [kubectl cp] runs of the scan that succeeded and that failed,
    and together they count every crash of every extracted entry: each crash
    is copied exactly once. *)
Theorem extract_povs_counts_pov_files (raw_submissions : list raw) (pod_name : string) :
  get_pod_name kubectl_get_pods (ExtractPovsSettings.namespace command)
    (ExtractPovsSettings.pod_label command) = Some pod_name →
  let s := extract_povs FromString registry_get kubectl_get_pods kubectl_cp_ok command
             raw_submissions in
  ep.povs_copied s = length (List.filter (is_cp true) (ep.out s))
  ∧ ep.povs_failed s = length (List.filter (is_cp false) (ep.out s))
  ∧ (ep.povs_copied s + ep.povs_failed s)%nat
    = total_crashes (List.filter (extracted command) (omap FromString raw_submissions)).
Proof.
  intros Hpod. destruct (decide (raw_submissions = [])) as [-> | Hne]; [done |].
  rewrite (extract_povs_found _ _ _ _ _ pod_name) by done. cbv zeta.
  set (s0 := ep.emits _ ep.init).
  destruct (extract_loop_stats FromString registry_get kubectl_cp_ok command pod_name
              raw_submissions 0 s0) as (copied & failed & H1 & H2 & H3 & H4 & H5).
  cbv zeta in H1, H2, H3, H4.
  cbn [ep.emits ep.povs_copied ep.povs_failed ep.out].
  rewrite !List.filter_app, !length_app.
  rewrite !(is_cp_log _ (extract_summary _)) by apply extract_summary_logs.
  rewrite H1, H2, H3, H4, <- H5. unfold s0. simpl. lia.
Qed.


(** X5: the only thing [extract_povs] copies from the cluster is the
    [crash_input_path] of a crash of a stored entry that is extracted: every
    [kubectl cp] run uses [command.namespace], the non-empty pod name that
    [kubectl get pods] returned, and is recorded with the outcome of that
    very copy. *)
Theorem extract_povs_copies_crash_inputs (raw_submissions : list raw)
  (namespace pod_name remote_path : string) (local_path : list string) (ok : bool) :
  Kubectl_cp namespace pod_name remote_path local_path ok
    ∈ ep.out (extract_povs FromString registry_get kubectl_get_pods kubectl_cp_ok
                command raw_submissions) →
  namespace = ExtractPovsSettings.namespace command
  ∧ kubectl_get_pods namespace (ExtractPovsSettings.pod_label command) = Some pod_name
  ∧ pod_name ≠ ""
  ∧ ok = kubectl_cp_ok namespace pod_name remote_path local_path
  ∧ ∃ r e c, r ∈ raw_submissions ∧ FromString r = Some e ∧ extracted command e = true
             ∧ c ∈ SubmissionEntry.crashes e
             ∧ remote_path
               = Crash.crash_input_path (TracedCrash.crash (CrashWithId.crash c)).
Proof.
  unfold extract_povs. destruct raw_submissions as [| r0 raws].
  { intros H. apply list_elem_of_singleton in H. done. }
  destruct (get_pod_name _ _ _) as [pod |] eqn:Hpod.
  2: { intros H. apply list_elem_of_singleton in H. done. }
  apply get_pod_name_non_empty in Hpod as [Hpod Hne].
  cbv zeta. cbn [ep.emits ep.out]. intros Hin.
  set (P := λ ev : event,
         match ev with
         | Kubectl_cp ns p remote loc b =>
             ns = ExtractPovsSettings.namespace command ∧ p = pod
             ∧ b = kubectl_cp_ok ns p remote loc
             ∧ ∃ r e c, r ∈ r0 :: raws ∧ FromString r = Some e
                        ∧ extracted command e = true
                        ∧ c ∈ SubmissionEntry.crashes e
                        ∧ remote
                          = Crash.crash_input_path
                              (TracedCrash.crash (CrashWithId.crash c))
         | _ => True
         end).
  assert (P (Kubectl_cp namespace pod_name remote_path local_path ok)) as HP.
  { revert Hin. generalize (Kubectl_cp namespace pod_name remote_path local_path ok).
    apply Forall_forall, Forall_app. split.
    - apply extract_loop_Forall.
      + done.
      + intros n t r e Hr He Hx Ht.
        eapply Forall_impl; [apply entry_output_under |]. intros ev [_ Hc].
        destruct ev; try done. simpl in Hc. simpl.
        destruct Hc as (-> & -> & -> & c & Hc & ->). repeat split; try done.
        by exists r, e, c.
      + cbn [ep.emits ep.out ep.init]. by repeat constructor.
    - apply Forall_forall. intros ev Hev.
      match type of Hev with ev ∈ extract_summary ?s =>
        pose proof (extract_summary_logs s) as Hlogs end.
      rewrite forallb_forall in Hlogs. apply list_elem_of_In, Hlogs in Hev.
      by destruct ev. }
  simpl in HP. destruct HP as (-> & -> & -> & HP). done.
Qed.
End ExtractTop.

Section ExtractTop2.
Context {raw : Type}.
Variable FromString : raw → option SubmissionEntry.t.
Variable registry_get : string → option Task.t.
Variable kubectl_get_pods : string → string → option string.
Variable kubectl_cp_ok : string → string → string → list string → bool.
Variable command : ExtractPovsSettings.t.

Lemma extract_loop_filter (pod_name : string) (raws : list raw) (k k' : nat)
  (s s' : ep.state) :
  same_extraction s s' →
  same_extraction
    (for_enumerate (extract_iteration FromString registry_get kubectl_cp_ok command pod_name)
       k raws s)
    (for_enumerate (extract_iteration FromString registry_get kubectl_cp_ok command pod_name)
       k' (List.filter (extractable FromString command) raws) s').
Proof.
  revert k k' s s'. induction raws as [| r raws IH]; intros k k' s s' Hs; [done |].
  cbn [List.filter for_enumerate].
  destruct (extractable FromString command r) eqn:Hx.
  - cbn [for_enumerate]. apply IH. by apply extract_iteration_same.
  - apply IH.
    destruct (extract_iteration_not_extractable FromString registry_get kubectl_cp_ok
                command pod_name r Hx k s) as (lvl & m & ->).
    etransitivity; [| exact Hs]. by apply same_extraction_logged.
Qed.

(** X6: the records that are not extracted (corrupt, stopped, without
    crashes, of another task than [command.task_id], without a PASSED crash
    under [passed_only]) only add log records: when a pod is found and some
    record is extracted, the counters, directories, files and copies of the
    scan are those of the scan of the extracted records alone. *)
Theorem extract_povs_ignores_other_records (raw_submissions : list raw) (pod_name : string) :
  get_pod_name kubectl_get_pods (ExtractPovsSettings.namespace command)
    (ExtractPovsSettings.pod_label command) = Some pod_name →
  List.filter (extractable FromString command) raw_submissions ≠ [] →
  same_extraction
    (extract_povs FromString registry_get kubectl_get_pods kubectl_cp_ok command
       raw_submissions)
    (extract_povs FromString registry_get kubectl_get_pods kubectl_cp_ok command
       (List.filter (extractable FromString command) raw_submissions)).
Proof.
  intros Hpod Hne.
  assert (raw_submissions ≠ []) as Hne' by (by intros ->).
  rewrite !(extract_povs_found _ _ _ _ _ pod_name) by done. cbv zeta.
  assert (same_extraction
            (for_enumerate
               (extract_iteration FromString registry_get kubectl_cp_ok command pod_name)
               0 raw_submissions
               (ep.emits
                  [Log INFO (Using_pod pod_name);
                   Mkdir (ExtractPovsSettings.output_dir command);
                   Log INFO (Found_submissions_extracting (length raw_submissions)
                               (ExtractPovsSettings.output_dir command))] ep.init))
            (for_enumerate
               (extract_iteration FromString registry_get kubectl_cp_ok command pod_name)
               0 (List.filter (extractable FromString command) raw_submissions)
               (ep.emits
                  [Log INFO (Using_pod pod_name);
                   Mkdir (ExtractPovsSettings.output_dir command);
                   Log INFO (Found_submissions_extracting
                               (length (List.filter (extractable FromString command)
                                          raw_submissions))
                               (ExtractPovsSettings.output_dir command))] ep.init)))
    as Hloop.
  { apply extract_loop_filter. by apply same_extraction_emits. }
  etransitivity; [apply same_extraction_logged, extract_summary_logs |].
  etransitivity; [exact Hloop |].
  symmetry. apply same_extraction_logged, extract_summary_logs.
Qed.

(** X7: [extract_povs] touches the file system (makes a directory, writes
    a file, runs [kubectl cp]) exactly when the stored list is not empty and
    [kubectl get pods] succeeds with a non-empty pod name; with no record,
    a failing [kubectl] or an empty answer it only logs.  In the other
    direction, [output_dir] is made even when no record is extracted. *)
Theorem extract_povs_needs_records_and_pod (raw_submissions : list raw) :
  effects (ep.out (extract_povs FromString registry_get kubectl_get_pods kubectl_cp_ok
                     command raw_submissions)) ≠ []
  ↔ raw_submissions ≠ []
    ∧ ∃ pod_name, pod_name ≠ ""
        ∧ kubectl_get_pods (ExtractPovsSettings.namespace command)
            (ExtractPovsSettings.pod_label command) = Some pod_name.
Proof.
  split.
  - unfold extract_povs. destruct raw_submissions as [| r0 raws]; [done |].
    destruct (get_pod_name _ _ _) as [pod |] eqn:Hpod; [| done].
    apply get_pod_name_non_empty in Hpod as [Hpod Hne]. intros _. split; [done |].
    by exists pod.
  - intros (Hne & pod & Hpod & Hget).
    rewrite (extract_povs_found _ _ _ _ _ pod); [| done |].
    2: { unfold get_pod_name. rewrite Hget. by destruct pod. }
    cbv zeta. set (s0 := ep.emits _ ep.init). cbn [ep.emits ep.out].
    rewrite effects_app.
    destruct (for_enumerate_prefix
                (extract_iteration FromString registry_get kubectl_cp_ok command pod)
                raw_submissions 0 s0) as [rest ->].
    { intros. apply extract_iteration_prefix. }
    unfold s0. cbn [ep.out]. rewrite !effects_app. simpl. done.
Qed.
End ExtractTop2.


(** ** The numbers in file names, and the files of a crash *)

Lemma digit_pretty_N_char (d : N) : (d < 10)%N → digit (pretty_N_char d) = d.
Proof.
  intros Hd.
  assert (d = 0 ∨ d = 1 ∨ d = 2 ∨ d = 3 ∨ d = 4 ∨ d = 5 ∨ d = 6 ∨ d = 7 ∨ d = 8
          ∨ d = 9)%N as H by lia.
  by repeat (destruct H as [-> | H]; [done |]); subst.
Qed.

Lemma decimal_pretty_N_go (x : N) (s : string) :
  decimal (pretty_N_go x s) = (x * 10 ^ N.of_nat (String.length s) + decimal s)%N.
Proof.
  revert s. induction (N.lt_wf_0 x) as [x _ IH]. intros s.
  destruct (decide (x = 0)%N) as [-> | Hx]; [by rewrite pretty_N_go_0 |].
  rewrite pretty_N_go_step by lia. rewrite IH by (apply N.div_lt; lia).
  cbn [decimal String.length]. rewrite digit_pretty_N_char by (apply N.mod_lt; lia).
  rewrite Nat2N.inj_succ, N.pow_succ_r'.
  pose proof (N.div_mod x 10 ltac:(lia)) as Hdm.
  set (p := (10 ^ N.of_nat (String.length s))%N).
  rewrite Hdm at 3. lia.
Qed.

Lemma decimal_pretty (n : nat) : decimal (pretty n) = N.of_nat n.
Proof.
  unfold pretty, pretty_nat, pretty, pretty_N.
  destruct (decide (N.of_nat n = 0)%N) as [-> | Hn]; [done |].
  rewrite decimal_pretty_N_go. simpl. lia.
Qed.

(** The number can be read back from [f"{n:03d}"]. *)
Lemma decimal_fmt03d (n : nat) : decimal (fmt03d n) = N.of_nat n.
Proof.
  unfold fmt03d. cbv zeta. rewrite <- (decimal_pretty n).
  destruct (String.length (pretty n)) as [| [| [| k]]]; simpl;
    change ("" +:+ pretty n) with (pretty n); lia.
Qed.

(** X8: the zero-padded number [f"{n:03d}"] used in the names [vuln_NNN],
    [crash_NNN] and [patch_NNN] determines [n]: two different numbers never
    give the same name, also beyond 999 where the padding stops. *)
Theorem fmt03d_inj (n m : nat) : fmt03d n = fmt03d m → n = m.
Proof.
  intros H. apply Nat2N.inj. by rewrite <- !decimal_fmt03d, H.
Qed.

Lemma fmt03d_inj_witness : (7 = 7)%nat.
Proof. apply (fmt03d_inj 7 7). reflexivity. Defined.

Lemma pjoin_inj (p p' : list string) (name name' : string) :
  p // name = p' // name' → p = p' ∧ name = name'.
Proof. unfold pjoin. intros H. by apply app_inj_tail in H. Qed.

Lemma str_bool_true (s : string) : str_bool s = true ↔ s ≠ "".
Proof. by destruct s. Qed.

Section CrashFiles.
Variable kubectl_cp_ok : string → string → string → list string → bool.
Variable command : ExtractPovsSettings.t.

Lemma elem_of_crash_run (pod_name : string) (crashes_dir : list string)
  (cs : list CrashWithId.t) (k : nat) (ev : event) :
  ev ∈ ep.out (crash_run kubectl_cp_ok command pod_name crashes_dir k cs)
  ↔ ∃ j c, cs !! j = Some c
           ∧ ev ∈ crash_output kubectl_cp_ok command pod_name crashes_dir (k + j) c.
Proof.
  revert k. induction cs as [| c cs IH]; intros k.
  { split; [by intros ?%elem_of_nil | by intros (j & c & ? & _)]. }
  rewrite crash_run_cons. cbv zeta. cbn [ep.out].
  rewrite (proj1 (extract_crash_output kubectl_cp_ok command pod_name crashes_dir k c)).
  rewrite elem_of_app, IH. split.
  - intros [H | (j & c' & Hj & H)].
    + exists 0%nat, c. by rewrite Nat.add_0_r.
    + exists (S j), c'. split; [done |]. by rewrite Nat.add_succ_r.
  - intros ([| j] & c' & Hj & H).
    + left. simpl in Hj. injection Hj as <-. by rewrite Nat.add_0_r in H.
    + right. exists j, c'. split; [done |]. by rewrite Nat.add_succ_r in H.
Qed.

Lemma crash_dir_inj (crashes_dir : list string) (n n' : nat) (name name' : string) :
  crashes_dir // ("crash_" +:+ fmt03d n) // name
  = crashes_dir // ("crash_" +:+ fmt03d n') // name' →
  n = n' ∧ name = name'.
Proof.
  intros [[_ H]%pjoin_inj Hname]%pjoin_inj. split; [| done].
  assert (fmt03d n = fmt03d n') as H'.
  { change (String "c" (String "r" (String "a" (String "s" (String "h" (String "_"
              (fmt03d n))))))
            = String "c" (String "r" (String "a" (String "s" (String "h" (String "_"
                (fmt03d n'))))))) in H.
    by injection H. }
  apply Nat2N.inj. by rewrite <- !decimal_fmt03d, H'.
Qed.

Lemma crash_output_write_text (pod_name : string) (crashes_dir p : list string)
  (k : nat) (c : CrashWithId.t) (text : string) :
  let crash_dir := crashes_dir // ("crash_" +:+ fmt03d k) in
  let crash := CrashWithId.crash c in
  let remote := Crash.crash_input_path (TracedCrash.crash crash) in
  Write_text p text ∈ crash_output kubectl_cp_ok command pod_name crashes_dir k c
  ↔ (p = crash_dir // "pov_path.txt"
     ∧ kubectl_cp_ok (ExtractPovsSettings.namespace command) pod_name remote
         (crash_dir // "pov.bin") = false
     ∧ text = remote)
    ∨ (p = crash_dir // "stacktrace.txt" ∧ str_bool text = true
       ∧ text = Crash.stacktrace (TracedCrash.crash crash))
    ∨ (p = crash_dir // "tracer_stacktrace.txt" ∧ str_bool text = true
       ∧ text = TracedCrash.tracer_stacktrace crash).
Proof.
  cbv zeta. unfold crash_output. cbv zeta.
  destruct (kubectl_cp_ok _ _ _ _);
    destruct (str_bool (Crash.stacktrace _)) eqn:Hst;
    destruct (str_bool (TracedCrash.tracer_stacktrace _)) eqn:Htr;
    cbn [app]; rewrite ?elem_of_cons, elem_of_nil; split;
    intros H; repeat (destruct H as [H | H]); try done;
    try (injection H as -> ->; by auto);
    destruct H as (-> & H1 & ->); try congruence; auto 10.
Qed.

(** X9: in the crash loop of an entry, the crash at position [j] (from 0)
    is copied to [crash_NNN/pov.bin] with [NNN = j + 1]; [pov_path.txt] is
    written in that directory exactly when this copy fails, and then holds
    the remote path; [stacktrace.txt] and [tracer_stacktrace.txt] are written
    exactly when the crash has a non-empty stacktrace, respectively tracer
    stacktrace, and hold it. *)
Theorem crash_files_follow_copy_outcome (pod_name : string) (crashes_dir : list string)
  (crashes : list CrashWithId.t) (j : nat) (c : CrashWithId.t) :
  crashes !! j = Some c →
  let crash_dir := crashes_dir // ("crash_" +:+ fmt03d (S j)) in
  let crash := CrashWithId.crash c in
  let remote := Crash.crash_input_path (TracedCrash.crash crash) in
  let ok := kubectl_cp_ok (ExtractPovsSettings.namespace command) pod_name remote
              (crash_dir // "pov.bin") in
  let out := ep.out (crash_run kubectl_cp_ok command pod_name crashes_dir 1 crashes) in
  Kubectl_cp (ExtractPovsSettings.namespace command) pod_name remote
    (crash_dir // "pov.bin") ok ∈ out
  ∧ (∀ text, Write_text (crash_dir // "pov_path.txt") text ∈ out
             ↔ ok = false ∧ text = remote)
  ∧ (∀ text, Write_text (crash_dir // "stacktrace.txt") text ∈ out
             ↔ str_bool text = true
               ∧ text = Crash.stacktrace (TracedCrash.crash crash))
  ∧ (∀ text, Write_text (crash_dir // "tracer_stacktrace.txt") text ∈ out
             ↔ str_bool text = true ∧ text = TracedCrash.tracer_stacktrace crash).
Proof.
  intros Hj. cbv zeta.
  assert (∀ name text,
            Write_text (crashes_dir // ("crash_" +:+ fmt03d (S j)) // name) text
              ∈ ep.out (crash_run kubectl_cp_ok command pod_name crashes_dir 1 crashes)
            ↔ Write_text (crashes_dir // ("crash_" +:+ fmt03d (S j)) // name) text
                ∈ crash_output kubectl_cp_ok command pod_name crashes_dir (S j) c)
    as Hone.
  { intros name text. rewrite elem_of_crash_run. split.
    - intros (j' & c' & Hj' & Hin).
      assert (j' = j) as ->.
      { apply crash_output_write_text in Hin. cbv zeta in Hin.
        destruct Hin as [(Hp & _) | [(Hp & _) | (Hp & _)]];
          apply crash_dir_inj in Hp as [Hp _]; simpl in Hp; lia. }
      rewrite Hj in Hj'. by injection Hj' as <-.
    - intros Hin. by exists j, c. }
  split; [| split; [| split]].
  - apply elem_of_crash_run. exists j, c. split; [done |].
    unfold crash_output. cbv zeta. simpl. right. by left.
  - intros text. rewrite Hone, crash_output_write_text. cbv zeta. split.
    + intros [(_ & H) | [(Hp & _) | (Hp & _)]]; [done | |];
        by apply pjoin_inj in Hp as [_ Hp].
    + intros [H1 H2]. by left.
  - intros text. rewrite Hone, crash_output_write_text. cbv zeta. split.
    + intros [(Hp & _) | [(_ & H) | (Hp & _)]]; [| done |];
        by apply pjoin_inj in Hp as [_ Hp].
    + intros [H1 H2]. right. by left.
  - intros text. rewrite Hone, crash_output_write_text. cbv zeta. split.
    + intros [(Hp & _) | [(Hp & _) | (_ & H)]]; [| | done];
        by apply pjoin_inj in Hp as [_ Hp].
    + intros [H1 H2]. right. by right.
Qed.
End CrashFiles.


(** ** Unregistered tasks and stopped entries *)

Section Unregistered.
Context {raw : Type}.
Variable FromString : raw → option SubmissionEntry.t.
Variable registry_get : string → option Task.t.
Variable kubectl_get_pods : string → string → option string.
Variable kubectl_cp_ok : string → string → string → list string → bool.
Variable read_command : ReadSubmissionsSettings.t.
Variable extract_command : ExtractPovsSettings.t.

(** X10: the two scans treat a task that is not in the registry
    differently.  [read_submissions] gives it no record and, for each of its
    entries that the stop filter keeps, logs that the task is not found;
    [extract_povs] extracts its entries all the same, under the project name
    ["unknown"]. *)
Theorem unregistered_task_is_extracted_but_not_read (pre post : list raw) (r : raw)
  (e : SubmissionEntry.t) (t pod_name : string) :
  registry_get t = None → FromString r = Some e → entry_task e = Some t →
  (dict.get (rs.result (read_submissions FromString registry_get read_command
                          (pre ++ r :: post))) t = None
   ∧ (passes_stop_filter read_command e = true →
      Log ERROR (Task_not_found_in_registry t)
        ∈ rs.out (read_submissions FromString registry_get read_command
                    (pre ++ r :: post))))
  ∧ (extracted extract_command e = true →
     get_pod_name kubectl_get_pods (ExtractPovsSettings.namespace extract_command)
       (ExtractPovsSettings.pod_label extract_command) = Some pod_name →
     Mkdir (ExtractPovsSettings.output_dir extract_command // "unknown" // t
              // ("vuln_" +:+ fmt03d (S (length (extracted_for FromString extract_command
                                                    t pre))))
              // "crashes")
       ∈ ep.out (extract_povs FromString registry_get kubectl_get_pods kubectl_cp_ok
                   extract_command (pre ++ r :: post))).
Proof.
  intros Hreg Hr Ht. split; [split |].
  - by rewrite read_submissions_result, Hreg.
  - intros Hstop. rewrite read_submissions_out by (by destruct pre).
    rewrite !elem_of_app. right. left. apply elem_of_scan_events.
    exists (length pre), r. split; [by apply list_lookup_middle |].
    rewrite read_events_spec, Hr. unfold entry_events.
    rewrite Hstop, Ht, Hreg. by left.
  - intros Hx Hpod.
    rewrite (extract_povs_found _ _ _ _ _ pod_name) by (done || by destruct pre).
    cbv zeta. set (s0 := ep.emits _ ep.init).
    destruct (extract_loop_entry_output FromString registry_get kubectl_cp_ok
                extract_command pod_name pre post r e t 0 s0 Hr Hx Ht)
      as (before & after & Hout).
    cbn [ep.emits ep.out]. rewrite Hout, !elem_of_app. left. right. left.
    unfold entry_output, vuln_dir, project_of. rewrite Hreg. cbv zeta. by left.
Qed.
End Unregistered.

Section Stopped.
Context {raw : Type}.
Variable FromString : raw → option SubmissionEntry.t.
Variable registry_get : string → option Task.t.
Variable kubectl_get_pods : string → string → option string.
Variable kubectl_cp_ok : string → string → string → list string → bool.
Variable command : ExtractPovsSettings.t.

(** X23: the field ["stopped"] of the metadata [extract_povs] writes is
    always false: it is written for extracted entries only, and a stopped
    entry is never extracted. *)
Theorem extracted_metadata_is_never_stopped (raw_submissions : list raw)
  (file : list string) (metadata : list (string * jvalue)) (b : bool) :
  Write_json file metadata
    ∈ ep.out (extract_povs FromString registry_get kubectl_get_pods kubectl_cp_ok
                command raw_submissions) →
  ("stopped", JBool b) ∈ metadata → b = false.
Proof.
  set (P := λ ev : event,
         match ev with
         | Write_json _ j => ∀ b, ("stopped", JBool b) ∈ j → b = false
         | _ => True
         end).
  intros Hin. revert b. change (P (Write_json file metadata)).
  revert Hin. generalize (Write_json file metadata). apply Forall_forall.
  unfold extract_povs. destruct raw_submissions as [| r0 raws].
  { by repeat constructor. }
  destruct (get_pod_name _ _ _) as [pod_name |]; [| by repeat constructor].
  cbv zeta. cbn [ep.emits ep.out]. apply Forall_app. split.
  - apply extract_loop_Forall.
    + done.
    + intros n t r e _ _ Hx _. apply Forall_forall. intros ev Hev.
      unfold entry_output in Hev. cbv zeta in Hev.
      rewrite !elem_of_app in Hev. destruct Hev as [Hev | [Hev | [Hev | Hev]]].
      * rewrite !elem_of_cons in Hev. destruct Hev as [-> | [-> | Hev]]; [done.. |].
        by apply elem_of_nil in Hev.
      * apply elem_of_crash_run in Hev as (j & c & _ & Hev).
        unfold crash_output in Hev. cbv zeta in Hev.
        destruct (kubectl_cp_ok _ _ _ _);
          destruct (str_bool (Crash.stacktrace _));
          destruct (str_bool (TracedCrash.tracer_stacktrace _));
          cbn [app] in Hev; rewrite ?elem_of_cons, elem_of_nil in Hev;
          repeat (destruct Hev as [Hev | Hev]); try done; subst ev; try done;
          intros b' Hb; rewrite !elem_of_cons, elem_of_nil in Hb;
          repeat (destruct Hb as [Hb | Hb]); done.
      * revert Hev. generalize 0%nat.
        generalize (vuln_dir command (project_of registry_get t) t n // "patches").
        induction (non_placeholder_patches e) as [| p ps IH]; intros d k Hev.
        { by apply elem_of_nil in Hev. }
        cbn [patch_files app] in Hev. rewrite !elem_of_cons in Hev.
        destruct Hev as [-> | [-> | Hev]]; [done | | by eapply IH].
        intros b' Hb. rewrite !elem_of_cons, elem_of_nil in Hb.
        repeat (destruct Hb as [Hb | Hb]); done.
      * rewrite !elem_of_cons, elem_of_nil in Hev.
        destruct Hev as [-> | [-> | []]]; [| done].
        intros b' Hb. rewrite !elem_of_cons, elem_of_nil in Hb.
        repeat (destruct Hb as [Hb | Hb]); try done.
        injection Hb as ->. unfold extracted in Hx.
        apply andb_true_iff in Hx as [Hstop _]. by destruct (SubmissionEntry.stop e).
    + cbn [ep.emits ep.out ep.init]. by repeat constructor.
  - apply Forall_forall. intros ev Hev.
    match type of Hev with ev ∈ extract_summary ?s =>
      pose proof (extract_summary_logs s) as Hlogs end.
    rewrite forallb_forall in Hlogs. apply list_elem_of_In, Hlogs in Hev.
    by destruct ev.
Qed.
End Stopped.


(** ** [read_submissions]: the records and the output *)

Lemma dict_values_get {V} (d : dict.t V) :
  dict.values d = omap (dict.get d) (dict.keys d).
Proof.
  unfold dict.values, dict.to_list, dict.get.
  induction (dict.keys d) as [| k ks IH]; [done |]. simpl.
  destruct (dict.items d !! k); simpl; [f_equal |]; exact IH.
Qed.

Lemma omap_ext_in {A B} (f g : A → option B) (l : list A) :
  (∀ x, x ∈ l → f x = g x) → omap f l = omap g l.
Proof.
  induction l as [| x l IH]; intros H; [done |]. simpl.
  rewrite (H x) by left.
  assert (omap f l = omap g l) as Hl by (apply IH; intros y Hy; apply H; by right).
  destruct (g x); [f_equal |]; exact Hl.
Qed.

Lemma dict_ok_empty {V} : dict_ok (dict.empty : dict.t V).
Proof.
  split; [constructor |]. intros k. unfold dict.get. simpl. rewrite lookup_empty.
  split; [by intros ?%elem_of_nil | by intros [? ?]].
Qed.

Lemma omap_cons_eq {A B} (f : A → option B) (x : A) (l : list A) :
  omap f (x :: l) = match f x with Some y => y :: omap f l | None => omap f l end.
Proof. done. Qed.

(** The sum of a measure over the values, after the value of [t] has been
    replaced or, for a new key, added. *)
Lemma sum_upsert {V} (g : V → nat) (get get' : string → option V) (ks : list string)
  (t : string) (v' : V) :
  NoDup ks → (∀ k, k ∈ ks ↔ is_Some (get k)) →
  get' t = Some v' → (∀ k, k ≠ t → get' k = get k) →
  (sum_list_with g (omap get' (match get t with Some _ => ks | None => ks ++ [t] end))
   + from_option g 0 (get t) = sum_list_with g (omap get ks) + g v')%nat.
Proof.
  intros Hnd Hks Ht Hother. destruct (get t) as [v |] eqn:Hget.
  - assert (t ∈ ks) as Hin by (apply Hks; by rewrite Hget).
    apply list_elem_of_split in Hin as (l1 & l2 & ->).
    apply NoDup_app in Hnd as (_ & Hl1 & [Hl2 _]%NoDup_cons).
    rewrite !omap_app, !omap_cons_eq, Ht, Hget.
    rewrite (omap_ext_in get' get l1), (omap_ext_in get' get l2).
    + rewrite !sum_list_with_app. simpl. lia.
    + intros k Hk. apply Hother. by intros ->.
    + intros k Hk. apply Hother. intros ->. apply (Hl1 t); [done | by left].
  - assert (t ∉ ks) as Hin.
    { intros Hin%Hks. rewrite Hget in Hin. by destruct Hin. }
    rewrite omap_app, omap_cons_eq, Ht.
    rewrite (omap_ext_in get' get ks).
    + rewrite sum_list_with_app. simpl. lia.
    + intros k Hk. apply Hother. by intros ->.
Qed.

Lemma ok_upsert {V} (get get' : string → option V) (ks : list string) (t : string)
  (v' : V) :
  NoDup ks → (∀ k, k ∈ ks ↔ is_Some (get k)) →
  get' t = Some v' → (∀ k, k ≠ t → get' k = get k) →
  let ks' := match get t with Some _ => ks | None => ks ++ [t] end in
  NoDup ks' ∧ ∀ k, k ∈ ks' ↔ is_Some (get' k).
Proof.
  intros Hnd Hks Ht Hother. cbv zeta. destruct (get t) as [v |] eqn:Hget.
  - split; [done |]. intros k. destruct (decide (k = t)) as [-> | Hk].
    + rewrite Ht, Hks, Hget. split; by eauto.
    + by rewrite Hother, Hks.
  - assert (t ∉ ks) as Hin.
    { intros Hin%Hks. rewrite Hget in Hin. by destruct Hin. }
    split.
    + apply NoDup_app. repeat split; [done | | apply NoDup_singleton].
      intros k Hk ->%list_elem_of_singleton. done.
    + intros k. rewrite elem_of_app, list_elem_of_singleton.
      destruct (decide (k = t)) as [-> | Hk].
      * rewrite Ht. split; by eauto.
      * rewrite Hother, Hks by done. split; [by intros [? | ?] | by left].
Qed.

Section ReadMore.
Context {raw : Type}.
Variable FromString : raw → option SubmissionEntry.t.
Variable registry_get : string → option Task.t.
Variable command : ReadSubmissionsSettings.t.

Lemma read_entry_keys (i : nat) (d : SubmissionEntry.t) (s : rs.state) :
  dict.keys (rs.result (read_entry registry_get command i d s).1)
  = match counted_task registry_get command d with
    | Some (t, _) =>
        match dict.get (rs.result s) t with
        | Some _ => dict.keys (rs.result s)
        | None => dict.keys (rs.result s) ++ [t]
        end
    | None => dict.keys (rs.result s)
    end.
Proof.
  unfold read_entry, counted_task, passes_stop_filter, entry_task, selected.
  destruct (ReadSubmissionsSettings.filter_stop command && SubmissionEntry.stop d);
    simpl; [done |].
  destruct (head (SubmissionEntry.crashes d)) as [c |]; run; [| done].
  destruct (registry_get (crash_task_id c)) as [task |]; simpl; [| done].
  destruct (str_bool _ && negb _); simpl; [done |].
  rewrite dict_contains_get.
  destruct (dict.get (rs.result s) (crash_task_id c)) eqn:Hget;
    destruct (List.find crash_passed (SubmissionEntry.crashes d)) as [pc |];
    destruct (List.find patch_passed (SubmissionEntry.patches d)) as [pp |];
    destruct (SubmissionEntry.bundles d) as [| b bs]; simpl;
    rewrite ?dict_contains_get, ?Hget; done.
Qed.

Lemma read_iteration_keys (i : nat) (r : raw) (s : rs.state) :
  dict.keys (rs.result (read_iteration FromString registry_get command i r s))
  = match FromString r with
    | Some e =>
        match counted_task registry_get command e with
        | Some (t, _) =>
            match dict.get (rs.result s) t with
            | Some _ => dict.keys (rs.result s)
            | None => dict.keys (rs.result s) ++ [t]
            end
        | None => dict.keys (rs.result s)
        end
    | None => dict.keys (rs.result s)
    end.
Proof.
  destruct (FromString r) as [e |] eqn:Hr.
  - rewrite (read_iteration_decoded _ _ _ _ _ e) by done.
    rewrite <- (shown_counted_task registry_get command e).
    rewrite <- (read_entry_keys i (shown command e) s).
    by destruct (read_entry _ _ _ _ _) as [s' [x | []]].
  - by rewrite read_iteration_corrupt.
Qed.
End ReadMore.

Lemma dict_ext {V} (d d' : dict.t V) :
  dict.keys d = dict.keys d' → (∀ k, dict.get d k = dict.get d' k) → d = d'.
Proof.
  destruct d as [ks m], d' as [ks' m']. unfold dict.get. simpl. intros -> H.
  f_equal. by apply map_eq.
Qed.

Lemma count_if_sum {A} (f : A → bool) (l : list A) :
  sum_list_with (λ x, Nat.b2n (f x)) l = count_if f l.
Proof.
  unfold count_if. induction l as [| x l IH]; [done |]. simpl.
  destruct (f x); simpl; by rewrite IH.
Qed.

Section ReadMore2.
Context {raw : Type}.
Variable FromString : raw → option SubmissionEntry.t.
Variable registry_get : string → option Task.t.
Variable command : ReadSubmissionsSettings.t.

Lemma read_iteration_upsert (i : nat) (r : raw) (s : rs.state) (e : SubmissionEntry.t)
  (t : string) (task : Task.t) :
  FromString r = Some e → counted_task registry_get command e = Some (t, task) →
  let s' := read_iteration FromString registry_get command i r s in
  let v' := tally e (default (new_task_result t task) (dict.get (rs.result s) t)) in
  dict.keys (rs.result s')
  = match dict.get (rs.result s) t with
    | Some _ => dict.keys (rs.result s)
    | None => dict.keys (rs.result s) ++ [t]
    end
  ∧ dict.get (rs.result s') t = Some v'
  ∧ ∀ k, k ≠ t → dict.get (rs.result s') k = dict.get (rs.result s) k.
Proof.
  intros Hr Hc. cbv zeta. rewrite read_iteration_keys, Hr, Hc. split; [done |].
  split.
  - by rewrite read_iteration_result, Hr, Hc, decide_True.
  - intros k Hk. by rewrite read_iteration_result, Hr, Hc, decide_False.
Qed.

Lemma read_iteration_uncounted (i : nat) (r : raw) (s : rs.state) :
  match FromString r with
  | Some e => counted_task registry_get command e = None
  | None => True
  end →
  rs.result (read_iteration FromString registry_get command i r s) = rs.result s.
Proof.
  intros H. apply dict_ext.
  - rewrite read_iteration_keys. destruct (FromString r); [by rewrite H | done].
  - intros k. rewrite read_iteration_result. destruct (FromString r); [by rewrite H | done].
Qed.

Lemma read_iteration_ok (i : nat) (r : raw) (s : rs.state) :
  dict_ok (rs.result s) →
  dict_ok (rs.result (read_iteration FromString registry_get command i r s)).
Proof.
  intros [Hnd Hks].
  destruct (FromString r) as [e |] eqn:Hr.
  2: { rewrite read_iteration_uncounted; [done | by rewrite Hr]. }
  destruct (counted_task registry_get command e) as [[t task] |] eqn:Hc.
  2: { rewrite read_iteration_uncounted; [done | by rewrite Hr]. }
  destruct (read_iteration_upsert i r s e t task Hr Hc) as (Hkeys & Hget & Hother).
  unfold dict_ok. rewrite Hkeys.
  exact (ok_upsert (dict.get (rs.result s)) _ (dict.keys (rs.result s)) t _
           Hnd Hks Hget Hother).
Qed.

Lemma read_loop_ok (raws : list raw) (i : nat) (s : rs.state) :
  dict_ok (rs.result s) →
  dict_ok (rs.result (for_enumerate (read_iteration FromString registry_get command)
                        i raws s)).
Proof.
  revert i s. induction raws as [| r raws IH]; intros i s Hs; [done |].
  cbn [for_enumerate]. by apply IH, read_iteration_ok.
Qed.

Lemma read_submissions_ok (raws : list raw) :
  dict_ok (rs.result (read_submissions FromString registry_get command raws)).
Proof.
  destruct (decide (raws = [])) as [-> | Hne]; [apply dict_ok_empty |].
  rewrite read_submissions_nonempty by done. cbv zeta. cbn [rs.result].
  apply read_loop_ok, dict_ok_empty.
Qed.

Section Sums.
Variable g : TaskResult.t → nat.
Variable δ : SubmissionEntry.t → nat.
Hypothesis g_tally : ∀ e tr, g (tally e tr) = (g tr + δ e)%nat.
Hypothesis g_new : ∀ t task, g (new_task_result t task) = 0%nat.

Lemma read_iteration_sum (i : nat) (r : raw) (s : rs.state) :
  dict_ok (rs.result s) →
  sum_list_with g (dict.values (rs.result (read_iteration FromString registry_get command
                                              i r s)))
  = (sum_list_with g (dict.values (rs.result s))
     + sum_list_with δ (counted_entries FromString registry_get command [r]))%nat.
Proof.
  intros [Hnd Hks]. unfold counted_entries. simpl.
  destruct (FromString r) as [e |] eqn:Hr.
  2: { rewrite read_iteration_uncounted by (by rewrite Hr). simpl. lia. }
  simpl. destruct (counted_task registry_get command e) as [[t task] |] eqn:Hc.
  2: { rewrite read_iteration_uncounted by (by rewrite Hr). simpl. lia. }
  rewrite bool_decide_true by done. simpl.
  destruct (read_iteration_upsert i r s e t task Hr Hc) as (Hkeys & Hget & Hother).
  cbv zeta in Hkeys, Hget, Hother.
  rewrite !dict_values_get, Hkeys.
  pose proof (sum_upsert g (dict.get (rs.result s)) _ (dict.keys (rs.result s)) t _
                Hnd Hks Hget Hother) as Hsum.
  rewrite g_tally in Hsum.
  destruct (dict.get (rs.result s) t) as [tr |]; simpl in Hsum |- *.
  - lia.
  - rewrite g_new in Hsum. lia.
Qed.

Lemma counted_entries_cons (r : raw) (raws : list raw) :
  counted_entries FromString registry_get command (r :: raws)
  = counted_entries FromString registry_get command [r]
    ++ counted_entries FromString registry_get command raws.
Proof.
  unfold counted_entries. simpl. destruct (FromString r) as [e |]; [| done].
  simpl. by destruct (bool_decide _).
Qed.

Lemma read_loop_sum (raws : list raw) (i : nat) (s : rs.state) :
  dict_ok (rs.result s) →
  sum_list_with g (dict.values (rs.result
                     (for_enumerate (read_iteration FromString registry_get command)
                        i raws s)))
  = (sum_list_with g (dict.values (rs.result s))
     + sum_list_with δ (counted_entries FromString registry_get command raws))%nat.
Proof.
  revert i s. induction raws as [| r raws IH]; intros i s Hs.
  { simpl. unfold counted_entries. simpl. lia. }
  cbn [for_enumerate]. rewrite IH by (by apply read_iteration_ok).
  rewrite read_iteration_sum by done.
  rewrite (counted_entries_cons r raws), sum_list_with_app. lia.
Qed.
End Sums.

Lemma sum_list_fmap {A} (g : A → nat) (l : list A) :
  sum_list (g <$> l) = sum_list_with g l.
Proof.
  induction l as [| x l IH]; [done |].
  change (g x + sum_list (g <$> l) = g x + sum_list_with g l)%nat. by rewrite IH.
Qed.

(** X11: the totals line of the summary: the total of vulnerabilities is
    the number of counted entries (decoded, kept by the stop filter, of a
    registered and selected task) with a PASSED crash, over all tasks, and
    the total of patches is the number of counted entries with a PASSED
    patch, including those whose assertion failed; the third number is the
    number of reported tasks with at least one vulnerability. *)
Theorem read_submissions_totals (raw_submissions : list raw) :
  raw_submissions ≠ [] →
  Print_totals
    (count_if has_passed_crash
       (counted_entries FromString registry_get command raw_submissions))
    (count_if has_passed_patch
       (counted_entries FromString registry_get command raw_submissions))
    (length (filter (λ tr, 0 < TaskResult.n_vulnerabilities tr)%nat
               (dict.values
                  (rs.result (read_submissions FromString registry_get command
                                raw_submissions)))))
  ∈ rs.out (read_submissions FromString registry_get command raw_submissions).
Proof.
  intros Hne. rewrite read_submissions_out by done.
  rewrite !elem_of_app. right. right.
  unfold read_summary. cbv zeta. rewrite elem_of_app. left.
  apply list_elem_of_singleton.
  rewrite read_submissions_nonempty by done. cbv zeta. cbn [rs.result].
  rewrite !sum_list_fmap.
  rewrite (read_loop_sum TaskResult.n_vulnerabilities (λ e, Nat.b2n (has_passed_crash e)))
    by (done || apply dict_ok_empty).
  rewrite (read_loop_sum TaskResult.n_patches (λ e, Nat.b2n (has_passed_patch e)))
    by (done || apply dict_ok_empty).
  rewrite !count_if_sum. simpl. reflexivity.
Qed.
End ReadMore2.

Lemma summarize_consistent (tr : TaskResult.t) (es : list SubmissionEntry.t) :
  let tr' := summarize tr es in
  (TaskResult.n_vulnerabilities tr'
   + (length (TaskResult.patched_vulnerabilities tr)
      + length (TaskResult.non_patched_vulnerabilities tr))
   = TaskResult.n_vulnerabilities tr
     + (length (TaskResult.patched_vulnerabilities tr')
        + length (TaskResult.non_patched_vulnerabilities tr')))%nat
  ∧ (length (TaskResult.patched_vulnerabilities tr') + TaskResult.n_patches tr
     ≤ length (TaskResult.patched_vulnerabilities tr) + TaskResult.n_patches tr')%nat
  ∧ (TaskResult.n_vulnerabilities tr' ≤ TaskResult.n_vulnerabilities tr + length es)%nat
  ∧ (TaskResult.n_patches tr' ≤ TaskResult.n_patches tr + length es)%nat
  ∧ (TaskResult.n_bundles tr' ≤ TaskResult.n_bundles tr + length es)%nat.
Proof.
  revert tr. induction es as [| e es IH]; intros tr.
  { rewrite summarize_nil. cbv zeta. lia. }
  rewrite summarize_cons. specialize (IH (tally e tr)). cbv zeta in IH |- *.
  destruct IH as (H1 & H2 & H3 & H4 & H5).
  revert H1 H2 H3 H4 H5. unfold tally. cbn [TaskResult.n_vulnerabilities
    TaskResult.n_patches TaskResult.n_bundles TaskResult.patched_vulnerabilities
    TaskResult.non_patched_vulnerabilities].
  rewrite !length_app.
  destruct (has_passed_crash e), (has_passed_patch e), (has_bundle e); simpl; lia.
Qed.

Section ReadMore3.
Context {raw : Type}.
Variable FromString : raw → option SubmissionEntry.t.
Variable registry_get : string → option Task.t.
Variable command : ReadSubmissionsSettings.t.

Lemma read_submissions_record (raws : list raw) (t : string) (tr : TaskResult.t) :
  dict.get (rs.result (read_submissions FromString registry_get command raws)) t = Some tr
  ↔ ∃ task, registry_get t = Some task ∧ selected command t = true
            ∧ entries_for FromString command t raws ≠ []
            ∧ tr = summarize (new_task_result t task)
                     (entries_for FromString command t raws).
Proof.
  rewrite read_submissions_result. split.
  - destruct (registry_get t) as [task |]; [| done].
    destruct (selected command t); [| done].
    intros H. exists task. repeat split; [| by apply extend_Some].
    intros Hnil. by rewrite Hnil in H.
  - intros (task & -> & -> & Hne & ->).
    by destruct (entries_for FromString command t raws).
Qed.

(** X12: a task record is printed in the summary exactly for the tasks
    that are registered, selected by [command.task_id] and have at least one
    entry read; the record then carries the task id, the project name and
    [str(task_type)] of the registry entry, and the counts and lists that
    [summarize] computes from the entries read for the task. *)
Theorem task_is_reported_iff_read (raw_submissions : list raw) (tr : TaskResult.t) :
  Print_task tr ∈ rs.out (read_submissions FromString registry_get command raw_submissions)
  ↔ ∃ t task, registry_get t = Some task ∧ selected command t = true
              ∧ entries_for FromString command t raw_submissions ≠ []
              ∧ tr = summarize (new_task_result t task)
                       (entries_for FromString command t raw_submissions).
Proof.
  rewrite read_submissions_reports. split.
  - intros [t Ht]. exists t. by apply read_submissions_record.
  - intros (t & task & H). exists t. apply read_submissions_record. by exists task.
Qed.

(** X13: in every printed task record the number of vulnerabilities is
    the length of the patched list plus the length of the non-patched list,
    the patched list is no longer than the number of patches, and none of
    the three counts exceeds the number of entries read for the task. *)
Theorem reported_record_is_consistent (raw_submissions : list raw) (tr : TaskResult.t) :
  Print_task tr
    ∈ rs.out (read_submissions FromString registry_get command raw_submissions) →
  let es := entries_for FromString command (TaskResult.task_id tr) raw_submissions in
  TaskResult.n_vulnerabilities tr
  = (length (TaskResult.patched_vulnerabilities tr)
     + length (TaskResult.non_patched_vulnerabilities tr))%nat
  ∧ (length (TaskResult.patched_vulnerabilities tr) ≤ TaskResult.n_patches tr)%nat
  ∧ (TaskResult.n_vulnerabilities tr ≤ length es)%nat
  ∧ (TaskResult.n_patches tr ≤ length es)%nat
  ∧ (TaskResult.n_bundles tr ≤ length es)%nat.
Proof.
  intros [t Ht]%read_submissions_reports.
  apply read_submissions_record in Ht as (task & _ & _ & _ & ->).
  change (TaskResult.task_id (summarize (new_task_result t task) _)) with t.
  cbv zeta.
  generalize (summarize_consistent (new_task_result t task)
                (entries_for FromString command t raw_submissions)).
  generalize (entries_for FromString command t raw_submissions). intros es.
  cbv zeta. generalize (summarize (new_task_result t task) es). intros tr.
  simpl. lia.
Qed.
End ReadMore3.

Lemma fmap_omap_keys {V} (f : V → string) (get : string → option V) (ks : list string) :
  (∀ k, k ∈ ks → ∃ v, get k = Some v ∧ f v = k) → f <$> omap get ks = ks.
Proof.
  induction ks as [| k ks IH]; intros H; [done |].
  destruct (H k) as (v & Hv & Hf); [by left |].
  rewrite omap_cons_eq, Hv, fmap_cons, Hf. f_equal. apply IH. intros k' Hk'.
  apply H. by right.
Qed.

Lemma without_submissions_app (l1 l2 : list event) :
  without_submissions (l1 ++ l2) = without_submissions l1 ++ without_submissions l2.
Proof. apply List.filter_app. Qed.

Section ReadMore4.
Context {raw : Type}.
Variable FromString : raw → option SubmissionEntry.t.
Variable registry_get : string → option Task.t.
Variable command : ReadSubmissionsSettings.t.

(** X14: the summary has one record per task: the task ids of the
    records are the keys of [result], in insertion order, without
    repetition. *)
Theorem read_submissions_one_record_per_task (raw_submissions : list raw) :
  let result := rs.result (read_submissions FromString registry_get command
                             raw_submissions) in
  TaskResult.task_id <$> dict.values result = dict.keys result
  ∧ NoDup (TaskResult.task_id <$> dict.values result).
Proof.
  cbv zeta.
  destruct (read_submissions_ok FromString registry_get command raw_submissions)
    as [Hnd Hks].
  assert (TaskResult.task_id
            <$> dict.values (rs.result (read_submissions FromString registry_get command
                                          raw_submissions))
          = dict.keys (rs.result (read_submissions FromString registry_get command
                                    raw_submissions))) as Heq.
  { rewrite dict_values_get. apply fmap_omap_keys. intros k [tr Htr]%Hks.
    exists tr. split; [done |].
    apply read_submissions_record in Htr as (task & _ & _ & _ & ->). done. }
  split; [done | by rewrite Heq].
Qed.

Lemma read_events_single (i : nat) (r : raw) :
  ∃ ev, read_events FromString registry_get command i r = [ev].
Proof.
  rewrite read_events_spec. destruct (FromString r) as [e |]; [| by eexists].
  destruct (entry_events_cases registry_get command i e) as [H | (lvl & m & H)];
    rewrite H; by eexists.
Qed.

Lemma scan_events_lookup (raws : list raw) (i j : nat) (r : raw) :
  raws !! j = Some r →
  scan_events FromString registry_get command i raws !! j
  = head (read_events FromString registry_get command (i + j) r).
Proof.
  revert i j. induction raws as [| r0 raws IH]; intros i j Hj; [done |].
  cbn [scan_events].
  destruct (read_events_single i r0) as [ev Hev]. rewrite Hev.
  destruct j as [| j]; simpl in Hj.
  - injection Hj as ->. rewrite Nat.add_0_r, Hev. done.
  - simpl. rewrite (IH (S i) j Hj). do 2 f_equal. lia.
Qed.

(** X15: no stored record is dropped silently: for a non-empty stored
    list the output starts with the header followed by exactly one item per
    stored record, in stored order (the item of record [j] is at index
    [j + 1]); it is the printed submission, a skip message or the error
    logged for that record. *)
Theorem read_submissions_line_per_record (raw_submissions : list raw) (j : nat) (r : raw) :
  raw_submissions !! j = Some r →
  ∃ ev,
    rs.out (read_submissions FromString registry_get command raw_submissions) !! S j
    = Some ev
    ∧ [ev] = match FromString r with
             | Some e => entry_events registry_get command j e (shown command e)
             | None => [Log ERROR (Failed_to_parse_submission j DecodeError)]
             end.
Proof.
  intros Hj. rewrite read_submissions_out by (by intros ->).
  rewrite <- read_events_spec.
  destruct (read_events_single j r) as [ev Hev]. exists ev. rewrite Hev. split; [| done].
  rewrite (lookup_app_r [_]) by (simpl; lia).
  replace (S j - length [Log INFO (Found_submissions (length raw_submissions))])%nat
    with j by (simpl; lia).
  rewrite lookup_app_l.
  - rewrite (scan_events_lookup _ 0 j r Hj). simpl. by rewrite Hev.
  - apply lookup_lt_is_Some. rewrite (scan_events_lookup _ 0 j r Hj). simpl.
    rewrite Hev. by eexists.
Qed.

Lemma read_summary_no_submission (d : dict.t TaskResult.t) :
  without_submissions (read_summary d) = read_summary d.
Proof.
  unfold without_submissions. apply List.forallb_filter_id, forallb_forall.
  intros ev Hev%list_elem_of_In. unfold read_summary in Hev. cbv zeta in Hev.
  rewrite !elem_of_app in Hev.
  destruct Hev as [Hev | [Hev | [Hev | Hev]]].
  - apply list_elem_of_singleton in Hev as ->. done.
  - apply list_elem_of_fmap in Hev as (tr & -> & _). done.
  - destruct (_ ≫= _) eqn:E.
    + apply list_elem_of_singleton in Hev as ->. done.
    + rewrite <- E in Hev. apply list_elem_of_bind in Hev as (tr & Hev & _).
      apply list_elem_of_fmap in Hev as (v & -> & _). done.
  - apply list_elem_of_singleton in Hev as ->. done.
Qed.

(** X16: [--- Submission i ---] is printed with the message [d] exactly
    when the [i]-th stored record decodes to an entry that is counted (kept
    by the stop filter, of a registered and selected task) and whose
    assertion holds, [d] being that entry, truncated unless [verbose] is
    set. *)
Theorem submission_is_printed_iff_counted (raw_submissions : list raw) (i : nat)
  (d : SubmissionEntry.t) :
  Print_submission i d
    ∈ rs.out (read_submissions FromString registry_get command raw_submissions)
  ↔ ∃ r e, raw_submissions !! i = Some r ∧ FromString r = Some e
           ∧ d = shown command e ∧ printed registry_get command e = true.
Proof.
  destruct (decide (raw_submissions = [])) as [-> | Hne].
  { simpl. split.
    - intros H%list_elem_of_singleton. done.
    - by intros (r & e & H & _). }
  rewrite read_submissions_out by done.
  rewrite !elem_of_app, list_elem_of_singleton, elem_of_scan_events.
  assert (Print_submission i d
            ∉ read_summary (rs.result (read_submissions FromString registry_get command
                                         raw_submissions))) as Hsum.
  { intros Hin. pose proof (read_summary_no_submission
                              (rs.result (read_submissions FromString registry_get command
                                            raw_submissions))) as Hs.
    assert (Print_submission i d
              ∈ without_submissions
                  (read_summary (rs.result (read_submissions FromString registry_get
                                              command raw_submissions)))) as Hin'
      by (by rewrite Hs).
    unfold without_submissions in Hin'.
    apply list_elem_of_In, List.filter_In in Hin' as [_ Hin']. done. }
  assert (∀ j e, Print_submission i d
                   ∈ entry_events registry_get command j e (shown command e)
                 ↔ j = i ∧ d = shown command e ∧ printed registry_get command e = true)
    as Hentry.
  { intros j e. unfold entry_events, printed, counted_task.
    destruct (passes_stop_filter command e); simpl.
    2: { rewrite list_elem_of_singleton. split; [done | by intros (_ & _ & ?)]. }
    destruct (entry_task e) as [t |]; simpl.
    2: { rewrite list_elem_of_singleton. split; [done | by intros (_ & _ & ?)]. }
    destruct (registry_get t) as [task |]; simpl.
    2: { rewrite list_elem_of_singleton. split; [done | by intros (_ & _ & ?)]. }
    destruct (selected command t); simpl.
    2: { rewrite list_elem_of_singleton. split; [done | by intros (_ & _ & ?)]. }
    destruct (has_passed_patch e), (has_passed_crash e); simpl;
      rewrite list_elem_of_singleton; split;
      (by intros [= -> ->]) || (by intros (-> & -> & _)) || (by intros (_ & _ & ?))
      || done. }
  split.
  - intros [H | [(j & r & Hj & Hin) | H]]; [done | | done].
    rewrite read_events_spec in Hin. destruct (FromString r) as [e |] eqn:Hr.
    + apply Hentry in Hin as (Hji & -> & Hp). simpl in Hji. subst j.
      by exists r, e.
    + apply list_elem_of_singleton in Hin. done.
  - intros (r & e & Hi & Hr & -> & Hp). right. left. exists i, r. split; [done |].
    rewrite read_events_spec, Hr. by apply Hentry.
Qed.
End ReadMore4.

Section ReadMore5.
Context {raw : Type}.
Variable FromString : raw → option SubmissionEntry.t.
Variable registry_get : string → option Task.t.
Variable command : ReadSubmissionsSettings.t.

Lemma read_iteration_result_verbose (b : bool) (i i' : nat) (r : raw) (s s' : rs.state) :
  rs.result s = rs.result s' →
  rs.result (read_iteration FromString registry_get (with_verbose b command) i r s)
  = rs.result (read_iteration FromString registry_get command i' r s').
Proof.
  intros Hs. apply dict_ext.
  - rewrite !read_iteration_keys, Hs. reflexivity.
  - intros k. rewrite !read_iteration_result, Hs. reflexivity.
Qed.

Lemma read_loop_result_verbose (b : bool) (raws : list raw) (i i' : nat)
  (s s' : rs.state) :
  rs.result s = rs.result s' →
  rs.result (for_enumerate (read_iteration FromString registry_get (with_verbose b command))
               i raws s)
  = rs.result (for_enumerate (read_iteration FromString registry_get command) i' raws s').
Proof.
  revert i i' s s'. induction raws as [| r raws IH]; intros i i' s s' Hs; [done |].
  cbn [for_enumerate]. by apply IH, read_iteration_result_verbose.
Qed.

Lemma entry_events_without_submissions (b : bool) (i : nat) (e d d' : SubmissionEntry.t) :
  without_submissions (entry_events registry_get (with_verbose b command) i e d)
  = without_submissions (entry_events registry_get command i e d').
Proof.
  unfold entry_events, passes_stop_filter, selected. simpl.
  destruct (negb _); [| done].
  destruct (entry_task e) as [t |]; [| done].
  destruct (registry_get t); [| done].
  destruct (negb _); [| done].
  by destruct (has_passed_patch e && negb (has_passed_crash e)).
Qed.

Lemma scan_events_without_submissions (b : bool) (raws : list raw) (i : nat) :
  without_submissions (scan_events FromString registry_get (with_verbose b command) i raws)
  = without_submissions (scan_events FromString registry_get command i raws).
Proof.
  revert i. induction raws as [| r raws IH]; intros i; [done |].
  cbn [scan_events]. rewrite !without_submissions_app, IH. f_equal.
  rewrite !read_events_spec. destruct (FromString r) as [e |]; [| done].
  apply entry_events_without_submissions.
Qed.

(** X17: the [verbose] option only changes the text of the printed
    submissions: the task records, and every line of the output that is not a
    printed submission (skip messages, errors, the summary), are the same
    with and without it.  Truncation never changes what is counted. *)
Theorem verbose_only_changes_printed_submissions (raw_submissions : list raw) (b : bool) :
  let s := read_submissions FromString registry_get command raw_submissions in
  let s' := read_submissions FromString registry_get (with_verbose b command)
              raw_submissions in
  rs.result s' = rs.result s
  ∧ without_submissions (rs.out s') = without_submissions (rs.out s).
Proof.
  cbv zeta. destruct (decide (raw_submissions = [])) as [-> | Hne]; [done |].
  assert (rs.result (read_submissions FromString registry_get (with_verbose b command)
                       raw_submissions)
          = rs.result (read_submissions FromString registry_get command raw_submissions))
    as Hres.
  { rewrite !read_submissions_nonempty by done. cbv zeta. cbn [rs.result].
    by apply read_loop_result_verbose. }
  split; [done |].
  rewrite !read_submissions_out by done. rewrite Hres.
  rewrite !without_submissions_app. by rewrite scan_events_without_submissions.
Qed.

(** X18: when [assert c is not None] fails, for a counted entry with a
    PASSED patch and no PASSED crash, the iteration logs the failure and the
    update made before the assertion stays: the record of the task (created
    if need be) has its patch count incremented and nothing else changed;
    the bundle is not counted and the submission is not printed. *)
Theorem failed_assertion_keeps_patch_count (i : nat) (r : raw) (e : SubmissionEntry.t)
  (t : string) (task : Task.t) (s : rs.state) :
  FromString r = Some e →
  counted_task registry_get command e = Some (t, task) →
  has_passed_patch e = true → has_passed_crash e = false →
  let s' := read_iteration FromString registry_get command i r s in
  rs.out s' = rs.out s ++ [Log ERROR (Failed_to_parse_submission i AssertionError)]
  ∧ dict.get (rs.result s') t
    = Some (TaskResult.incr_n_patches
              (default (new_task_result t task) (dict.get (rs.result s) t)))
  ∧ ∀ t', t' ≠ t → dict.get (rs.result s') t' = dict.get (rs.result s) t'.
Proof.
  intros Hr Hc Hp Hcr. cbv zeta. split; [| split].
  - rewrite read_iteration_out, Hr. f_equal.
    apply counted_task_Some in Hc as (Hstop & Ht & Hreg & Hsel).
    unfold entry_events. by rewrite Hstop, Ht, Hreg, Hsel, Hp, Hcr.
  - rewrite read_iteration_result, Hr, Hc, decide_True by done. f_equal.
    unfold tally, TaskResult.incr_n_patches. rewrite Hp, Hcr. simpl.
    rewrite andb_false_r. simpl. rewrite !app_nil_r.
    destruct (default _ _); simpl. f_equal; lia.
  - intros t' Ht'. by rewrite read_iteration_result, Hr, Hc, decide_False.
Qed.
End ReadMore5.

Lemma read_summary_none (d : dict.t TaskResult.t) :
  Print_none ∈ read_summary d
  ↔ ∀ tr, tr ∈ dict.values d → TaskResult.non_patched_vulnerabilities tr = [].
Proof.
  unfold read_summary. cbv zeta. rewrite !elem_of_app. split.
  - intros [H | [H | [H | H]]].
    + apply list_elem_of_singleton in H. discriminate.
    + apply list_elem_of_fmap in H as (? & ? & _). discriminate.
    + destruct (dict.values d ≫= _) as [| ev evs] eqn:Hevs.
      * intros tr Htr.
        destruct (TaskResult.non_patched_vulnerabilities tr) as [| v vs] eqn:Hv; [done |].
        assert (Print_non_patched (TaskResult.project_name tr) (TaskResult.task_id tr) v
                  ∈ @nil event) as Hin; [| by apply elem_of_nil in Hin].
        rewrite <- Hevs. apply list_elem_of_bind. exists tr. split; [| done].
        apply list_elem_of_fmap. exists v. split; [done |]. rewrite Hv. by left.
      * rewrite <- Hevs in H. apply list_elem_of_bind in H as (tr' & H & _).
        apply list_elem_of_fmap in H as (? & ? & _). discriminate.
    + apply list_elem_of_singleton in H. discriminate.
  - intros Hall. right. right. left.
    destruct (dict.values d ≫= _) as [| ev evs] eqn:Hevs; [by left |].
    assert (ev ∈ ev :: evs) as Hin by left.
    rewrite <- Hevs in Hin. apply list_elem_of_bind in Hin as (tr & Hin & Htr).
    rewrite (Hall tr Htr) in Hin. by apply elem_of_nil in Hin.
Qed.

Section ReadNone.
Context {raw : Type}.
Variable FromString : raw → option SubmissionEntry.t.
Variable registry_get : string → option Task.t.
Variable command : ReadSubmissionsSettings.t.

Lemma elem_of_counted_entries (e : SubmissionEntry.t) (raws : list raw) :
  e ∈ counted_entries FromString registry_get command raws
  ↔ ∃ t task, counted_task registry_get command e = Some (t, task)
              ∧ e ∈ entries_for FromString command t raws.
Proof.
  unfold counted_entries, entries_for.
  rewrite list_elem_of_In, List.filter_In, <- list_elem_of_In. split.
  - intros [Hin Hc]. apply bool_decide_eq_true in Hc as [[t task] Hc].
    exists t, task. split; [done |].
    apply counted_task_Some in Hc as (Hstop & Ht & _).
    apply list_elem_of_In, List.filter_In. split; [by apply list_elem_of_In |].
    rewrite Hstop. by apply bool_decide_eq_true.
  - intros (t & task & Hc & Hin).
    apply list_elem_of_In, List.filter_In in Hin as [Hin _].
    split; [by apply list_elem_of_In |]. apply bool_decide_eq_true. by rewrite Hc.
Qed.

(** X22: for a non-empty stored list, the list of non-patched
    vulnerabilities of the summary is replaced by [None] exactly when every
    counted entry with a PASSED crash also has a PASSED patch. *)
Theorem none_is_printed_iff_nothing_unpatched (raw_submissions : list raw) :
  raw_submissions ≠ [] →
  Print_none ∈ rs.out (read_submissions FromString registry_get command raw_submissions)
  ↔ ∀ e, e ∈ counted_entries FromString registry_get command raw_submissions →
         has_passed_crash e = true → has_passed_patch e = true.
Proof.
  intros Hne. rewrite read_submissions_out by done.
  rewrite !elem_of_app, list_elem_of_singleton, elem_of_scan_events, read_summary_none.
  split.
  - intros [H | [(j & r & _ & H) | Hall]]; [done | |].
    { destruct (read_events_single FromString registry_get command (0 + j) r)
        as [ev Hev].
      rewrite read_events_spec in H. destruct (FromString r) as [e |].
      - destruct (entry_events_cases registry_get command (0 + j) e)
          as [Hc | (lvl & m & Hc)]; rewrite Hc in H;
          apply list_elem_of_singleton in H; discriminate.
      - apply list_elem_of_singleton in H. discriminate. }
    intros e (t & task & Hc & Hin)%elem_of_counted_entries Hcrash.
    apply counted_task_Some in Hc as (_ & _ & Hreg & Hsel).
    destruct (has_passed_patch e) eqn:Hpatch; [done |].
    assert (dict.get (rs.result (read_submissions FromString registry_get command
                                   raw_submissions)) t
            = Some (summarize (new_task_result t task)
                      (entries_for FromString command t raw_submissions))) as Hget.
    { apply read_submissions_record. exists task. repeat split; try done.
      intros Hnil. rewrite Hnil in Hin. by apply elem_of_nil in Hin. }
    eapply dict_values_elem_of in Hget; [| apply read_submissions_wf].
    apply Hall in Hget. simpl in Hget. apply fmap_nil_inv in Hget.
    assert (e ∈ List.filter (λ e, has_passed_crash e && negb (has_passed_patch e))
                  (entries_for FromString command t raw_submissions)) as Hin'.
    { apply list_elem_of_In, List.filter_In. split; [by apply list_elem_of_In |].
      by rewrite Hcrash, Hpatch. }
    rewrite Hget in Hin'. by apply elem_of_nil in Hin'.
  - intros Hall. right. right. intros tr [t Ht]%elem_of_dict_values.
    apply read_submissions_record in Ht as (task & Hreg & Hsel & _ & ->). simpl.
    destruct (List.filter _ _) as [| e es] eqn:Hf; [done |].
    assert (e ∈ e :: es) as Hin by left. rewrite <- Hf in Hin.
    apply list_elem_of_In, List.filter_In in Hin as [Hin He].
    apply list_elem_of_In in Hin.
    apply andb_true_iff in He as [Hcrash Hpatch].
    assert (e ∈ counted_entries FromString registry_get command raw_submissions) as Hc.
    { apply elem_of_counted_entries. exists t, task. split; [| done].
      apply counted_task_Some.
      apply list_elem_of_In, List.filter_In in Hin as [_ [Hs Ht]%andb_true_iff].
      apply bool_decide_eq_true in Ht. done. }
    rewrite (Hall e Hc Hcrash) in Hpatch. done.
Qed.
End ReadNone.


(** ** [extract_povs]: the summary *)

Lemma bump_keys (t : string) (vc : dict.t nat) :
  dict.keys (bump t vc)
  = match dict.get vc t with
    | Some _ => dict.keys vc
    | None => dict.keys vc ++ [t]
    end.
Proof.
  unfold bump. rewrite dict_contains_get. simpl.
  destruct (dict.get vc t) eqn:Hget; [done |]. simpl.
  by rewrite dict_contains_get, Hget.
Qed.

Lemma bump_ok (t : string) (vc : dict.t nat) : dict_ok vc → dict_ok (bump t vc).
Proof.
  intros [Hnd Hks]. unfold dict_ok. rewrite bump_keys.
  apply (ok_upsert (dict.get vc) (dict.get (bump t vc)) (dict.keys vc) t
           (S (default 0%nat (dict.get vc t))) Hnd Hks).
  - by rewrite bump_get, decide_True.
  - intros k Hk. by rewrite bump_get, decide_False.
Qed.

Lemma bump_sum (t : string) (vc : dict.t nat) :
  dict_ok vc → sum_list (dict.values (bump t vc)) = S (sum_list (dict.values vc)).
Proof.
  intros [Hnd Hks]. rewrite !dict_values_get, bump_keys.
  pose proof (sum_upsert id (dict.get vc) (dict.get (bump t vc)) (dict.keys vc) t
                (S (default 0%nat (dict.get vc t))) Hnd Hks) as Hsum.
  rewrite bump_get, decide_True in Hsum by done. specialize (Hsum eq_refl).
  assert (∀ k, k ≠ t → dict.get (bump t vc) k = dict.get vc k) as Hother.
  { intros k Hk. by rewrite bump_get, decide_False. }
  specialize (Hsum Hother). destruct (dict.get vc t); simpl in Hsum; unfold id in *; lia.
Qed.

Lemma length_omap_total {A B} (f : A → option B) (l : list A) :
  (∀ x, x ∈ l → is_Some (f x)) → length (omap f l) = length l.
Proof.
  induction l as [| x l IH]; intros H; [done |].
  destruct (H x) as [y Hy]; [by left |].
  rewrite omap_cons_eq, Hy. simpl. f_equal. apply IH. intros z Hz. apply H. by right.
Qed.

Lemma dict_to_list_length {V} (d : dict.t V) :
  dict_ok d → length (dict.to_list d) = length (dict.keys d).
Proof.
  intros [_ Hks]. unfold dict.to_list. apply length_omap_total.
  intros k [v Hv]%Hks. unfold dict.get in Hv. rewrite Hv. by eexists.
Qed.

Lemma dict_to_list_elem_of {V} (d : dict.t V) (k : string) (v : V) :
  dict_ok d → dict.get d k = Some v → (k, v) ∈ dict.to_list d.
Proof.
  intros [_ Hks] Hget. unfold dict.to_list. apply list_elem_of_omap.
  exists k. split.
  - apply Hks. by rewrite Hget.
  - unfold dict.get in Hget. by rewrite Hget.
Qed.

Section ExtractSummary.
Context {raw : Type}.
Variable FromString : raw → option SubmissionEntry.t.
Variable registry_get : string → option Task.t.
Variable kubectl_get_pods : string → string → option string.
Variable kubectl_cp_ok : string → string → string → list string → bool.
Variable command : ExtractPovsSettings.t.

Lemma extract_loop_total (pod_name : string) (raws : list raw) (i : nat) (s : ep.state) :
  dict_ok (ep.vuln_counter s) →
  let s' := for_enumerate
              (extract_iteration FromString registry_get kubectl_cp_ok command pod_name)
              i raws s in
  dict_ok (ep.vuln_counter s')
  ∧ sum_list (dict.values (ep.vuln_counter s'))
    = (sum_list (dict.values (ep.vuln_counter s))
       + length (List.filter (extracted command) (omap FromString raws)))%nat.
Proof.
  revert i s. induction raws as [| r raws IH]; intros i s Hs; cbv zeta.
  { simpl. split; [done | lia]. }
  cbn [for_enumerate].
  destruct (extractable FromString command r) eqn:Hx.
  - unfold extractable in Hx. destruct (FromString r) as [e |] eqn:Hr; [| done].
    destruct (extracted_entry_task command e Hx) as [t Ht].
    destruct (IH (S i) (extract_iteration FromString registry_get kubectl_cp_ok command
                          pod_name i r s)) as [Hok Hsum].
    { rewrite (extract_iteration_extracted _ _ _ _ pod_name i r e t s) by done.
      cbv zeta. cbn [ep.vuln_counter]. by apply bump_ok. }
    split; [done |]. rewrite Hsum.
    rewrite (extract_iteration_extracted _ _ _ _ pod_name i r e t s) by done.
    cbv zeta. cbn [ep.vuln_counter]. rewrite bump_sum by done.
    rewrite omap_cons_eq, Hr. cbn [List.filter]. rewrite Hx. cbn [length]. lia.
  - destruct (extract_iteration_not_extractable FromString registry_get kubectl_cp_ok
                command pod_name r Hx i s) as (lvl & m & ->).
    destruct (IH (S i) (ep.emits [Log lvl m] s) Hs) as [Hok Hsum].
    split; [done |]. rewrite Hsum. cbn [ep.emits ep.vuln_counter].
    unfold extractable in Hx. rewrite omap_cons_eq.
    destruct (FromString r) as [e |]; [| done].
    cbn [List.filter]. by rewrite Hx.
Qed.

(** X21: the summary [extract_povs] logs after a scan with a pod: the
    total of [Extraction complete] is the number of extracted stored entries
    and its number of tasks is the number of distinct tasks that have an
    extracted entry; the [PoV files] line shows the two counters; and every
    such task has its line with the number of its extracted entries. *)
Theorem extract_povs_summary (raw_submissions : list raw) (pod_name : string) :
  get_pod_name kubectl_get_pods (ExtractPovsSettings.namespace command)
    (ExtractPovsSettings.pod_label command) = Some pod_name →
  raw_submissions ≠ [] →
  let s := extract_povs FromString registry_get kubectl_get_pods kubectl_cp_ok command
             raw_submissions in
  Log INFO (Extraction_complete
              (length (List.filter (extracted command) (omap FromString raw_submissions)))
              (length (dict.keys (ep.vuln_counter s)))) ∈ ep.out s
  ∧ NoDup (dict.keys (ep.vuln_counter s))
  ∧ (∀ t, t ∈ dict.keys (ep.vuln_counter s)
          ↔ extracted_for FromString command t raw_submissions ≠ [])
  ∧ Log INFO (PoV_files (ep.povs_copied s) (ep.povs_failed s)) ∈ ep.out s
  ∧ (∀ t, extracted_for FromString command t raw_submissions ≠ [] →
          Log INFO (Task_vulnerabilities t
                      (length (extracted_for FromString command t raw_submissions)))
            ∈ ep.out s).
Proof.
  intros Hpod Hne. cbv zeta.
  rewrite (extract_povs_found _ _ _ _ _ pod_name) by done. cbv zeta.
  set (s0 := ep.emits _ ep.init).
  set (s1 := for_enumerate _ 0%nat raw_submissions s0).
  destruct (extract_loop_total pod_name raw_submissions 0 s0 dict_ok_empty)
    as [Hok Hsum].
  fold s1 in Hok, Hsum. cbn [ep.emits ep.vuln_counter ep.povs_copied ep.povs_failed ep.out].
  assert (∀ t, dict.get (ep.vuln_counter s1) t
               = match extracted_for FromString command t raw_submissions with
                 | [] => None
                 | es => Some (length es)
                 end) as Hget.
  { intros t. unfold s1. rewrite extract_loop_counter. unfold s0.
    cbn [ep.emits ep.vuln_counter ep.init].
    by destruct (extracted_for _ _ _ _). }
  split; [| split; [| split; [| split]]].
  - rewrite elem_of_app. right. unfold extract_summary. cbv zeta.
    rewrite elem_of_app. left. rewrite elem_of_cons. left.
    fold (dict.values (ep.vuln_counter s1)). rewrite Hsum, dict_to_list_length by done.
    unfold s0. cbn [ep.emits ep.vuln_counter ep.init]. done.
  - apply Hok.
  - intros t. rewrite (proj2 Hok t), Hget.
    destruct (extracted_for _ _ _ _) as [| e es].
    + split; [by intros [? ?] | done].
    + split; [done | by eauto].
  - rewrite elem_of_app. right. unfold extract_summary. cbv zeta.
    rewrite elem_of_app. left. rewrite !elem_of_cons. right. by left.
  - intros t Ht. rewrite elem_of_app. right. unfold extract_summary. cbv zeta.
    rewrite elem_of_app. right. apply list_elem_of_fmap.
    exists (t, length (extracted_for FromString command t raw_submissions)).
    split; [done |]. apply dict_to_list_elem_of; [done |]. rewrite Hget.
    by destruct (extracted_for _ _ _ _).
Qed.
End ExtractSummary.


(** ** [truncate_stacktraces]: lengths *)

Lemma length_append (s t : string) :
  String.length (s +:+ t) = (String.length s + String.length t)%nat.
Proof. induction s as [| c s IH]; simpl; [done | by rewrite IH]. Qed.

Lemma length_substring_0 (n : nat) (s : string) :
  String.length (String.substring 0 n s) = Nat.min n (String.length s).
Proof.
  revert n. induction s as [| c s IH]; intros [| n]; simpl; try done. by rewrite IH.
Qed.

Lemma substring_0_append (n : nat) (s t : string) :
  String.length s = n → String.substring 0 n (s +:+ t) = s.
Proof.
  revert n. induction s as [| c s IH]; intros n Hn; simpl in *; subst n.
  - by destruct t.
  - by rewrite IH.
Qed.

Lemma truncate_field_length (m : Z) (s : string) :
  0 ≤ m → py_len (truncate_field m s) ≤ m + py_len TRUNCATED.
Proof.
  intros Hm. unfold truncate_field.
  destruct (Z.ltb_spec m (py_len s)) as [Hlt | Hge].
  - rewrite str_bool_length by lia. simpl.
    rewrite py_slice_to_nonneg by done. unfold py_len, first_chars in *.
    rewrite length_append, length_substring_0. lia.
  - rewrite andb_false_r. unfold py_len in *. lia.
Qed.

Lemma truncate_field_idemp (m : Z) (s : string) :
  0 ≤ m → truncate_field m (truncate_field m s) = truncate_field m s.
Proof.
  intros Hm. unfold truncate_field at 2.
  destruct (str_bool s && (m <? py_len s)) eqn:Hs.
  2: { unfold truncate_field. by rewrite Hs. }
  apply andb_true_iff in Hs as [_ Hlt%Z.ltb_lt].
  rewrite py_slice_to_nonneg by done. unfold first_chars.
  assert (String.length (String.substring 0 (Z.to_nat m) s) = Z.to_nat m) as Hlen.
  { rewrite length_substring_0. unfold py_len in Hlt. lia. }
  unfold truncate_field.
  assert ((m <? py_len (String.substring 0 (Z.to_nat m) s +:+ TRUNCATED)) = true) as ->.
  { apply Z.ltb_lt. unfold py_len. rewrite length_append, Hlen. simpl. lia. }
  rewrite str_bool_length.
  2: { unfold py_len. rewrite length_append. simpl. lia. }
  simpl. rewrite py_slice_to_nonneg by done. unfold first_chars.
  rewrite (substring_0_append _ _ _ Hlen).
  rewrite (str_bool_length s) by lia. rewrite (proj2 (Z.ltb_lt _ _) Hlt). simpl.
  by rewrite py_slice_to_nonneg.
Qed.

(** X19: for [max_length >= 0], the stacktrace, tracer stacktrace and
    crash token of every crash of the display copy have at most
    [max_length + 15] characters, 15 being the length of the marker. *)
Theorem truncate_stacktraces_bounds_texts (submission : SubmissionEntry.t)
  (max_length : Z) (c : CrashWithId.t) :
  0 ≤ max_length →
  c ∈ SubmissionEntry.crashes (truncate_stacktraces submission max_length) →
  py_len (Crash.stacktrace (TracedCrash.crash (CrashWithId.crash c))) ≤ max_length + 15
  ∧ py_len (TracedCrash.tracer_stacktrace (CrashWithId.crash c)) ≤ max_length + 15
  ∧ py_len (Crash.crash_token (TracedCrash.crash (CrashWithId.crash c)))
    ≤ max_length + 15.
Proof.
  intros Hm Hc. unfold truncate_stacktraces in Hc. simpl in Hc.
  apply list_elem_of_In, in_map_iff in Hc as (c0 & <- & _).
  unfold truncate_crash. simpl.
  repeat split; apply (truncate_field_length max_length _ Hm).
Qed.

(** X20: for [max_length >= 0], truncating a display copy again with the
    same [max_length] returns an equal message: the marker is not appended
    twice. *)
Theorem truncate_stacktraces_idempotent (submission : SubmissionEntry.t) (max_length : Z) :
  0 ≤ max_length →
  truncate_stacktraces (truncate_stacktraces submission max_length) max_length
  = truncate_stacktraces submission max_length.
Proof.
  intros Hm. unfold truncate_stacktraces. cbv zeta.
  destruct submission as [stop crashes patches bundles idx].
  unfold SubmissionEntry.set_crashes. simpl. f_equal.
  rewrite map_map. apply map_ext. intros [[k tracer] pov res].
  destruct k as [target harness input st tok].
  unfold truncate_crash. simpl.
  unfold CrashWithId.set_crash, TracedCrash.set_crash, TracedCrash.set_tracer_stacktrace,
    Crash.set_stacktrace, Crash.set_crash_token. simpl.
  by rewrite !truncate_field_idemp.
Qed.


(** ** The further properties on the sample data *)

Lemma extract_povs_counts_extracted_entries_witness :
  dict.get (ep.vuln_counter
              (extract_povs Sample.FromString Sample.registry_get Sample.kubectl_get_pods
                 Sample.kubectl_cp_ok Sample.extract_all Sample.stored)) "T1"
  = Some 2%nat.
Proof.
  apply (extract_povs_counts_extracted_entries Sample.FromString Sample.registry_get
           Sample.kubectl_get_pods Sample.kubectl_cp_ok Sample.extract_all Sample.stored
           "scheduler-0" "T1").
  reflexivity.
Defined.


Lemma extract_povs_counts_pov_files_witness :
  let s := extract_povs Sample.FromString Sample.registry_get Sample.kubectl_get_pods
             Fixture.kubectl_cp_fails Sample.extract_all Sample.stored in
  ep.povs_copied s = length (List.filter (is_cp true) (ep.out s))
  ∧ ep.povs_failed s = length (List.filter (is_cp false) (ep.out s))
  ∧ (ep.povs_copied s + ep.povs_failed s)%nat
    = total_crashes (List.filter (extracted Sample.extract_all)
                       (omap Sample.FromString Sample.stored)).
Proof.
  apply (extract_povs_counts_pov_files Sample.FromString Sample.registry_get
           Sample.kubectl_get_pods Fixture.kubectl_cp_fails Sample.extract_all
           Sample.stored "scheduler-0").
  reflexivity.
Defined.


Lemma extract_povs_copies_crash_inputs_witness :
  "crs" = ExtractPovsSettings.namespace Sample.extract_all
  ∧ Sample.kubectl_get_pods "crs" (ExtractPovsSettings.pod_label Sample.extract_all)
    = Some "scheduler-0"
  ∧ "scheduler-0" ≠ ""
  ∧ true = Sample.kubectl_cp_ok "crs" "scheduler-0" "/pov/1"
             ["out"; "project"; "T1"; "vuln_001"; "crashes"; "crash_001"; "pov.bin"]
  ∧ ∃ r e c, r ∈ Sample.stored ∧ Sample.FromString r = Some e
             ∧ extracted Sample.extract_all e = true
             ∧ c ∈ SubmissionEntry.crashes e
             ∧ "/pov/1"
               = Crash.crash_input_path (TracedCrash.crash (CrashWithId.crash c)).
Proof.
  apply (extract_povs_copies_crash_inputs Sample.FromString Sample.registry_get
           Sample.kubectl_get_pods Sample.kubectl_cp_ok Sample.extract_all Sample.stored
           "crs" "scheduler-0" "/pov/1"
           ["out"; "project"; "T1"; "vuln_001"; "crashes"; "crash_001"; "pov.bin"] true).
  vm_compute. repeat constructor.
Defined.

Lemma extract_povs_ignores_other_records_witness :
  same_extraction
    (extract_povs Sample.FromString Sample.registry_get Sample.kubectl_get_pods
       Sample.kubectl_cp_ok Sample.extract_all Sample.stored)
    (extract_povs Sample.FromString Sample.registry_get Sample.kubectl_get_pods
       Sample.kubectl_cp_ok Sample.extract_all
       (List.filter (extractable Sample.FromString Sample.extract_all) Sample.stored)).
Proof.
  apply (extract_povs_ignores_other_records Sample.FromString Sample.registry_get
           Sample.kubectl_get_pods Sample.kubectl_cp_ok Sample.extract_all Sample.stored
           "scheduler-0").
  - reflexivity.
  - vm_compute. discriminate.
Defined.

Lemma unregistered_task_is_extracted_but_not_read_witness :
  (dict.get (rs.result (read_submissions Sample.FromString Sample.registry_get
                          Sample.read_all
                          ([Some Sample.unpatched] ++ Some Fixture.unregistered :: []))) "T2"
   = None
   ∧ (passes_stop_filter Sample.read_all Fixture.unregistered = true →
      Log ERROR (Task_not_found_in_registry "T2")
        ∈ rs.out (read_submissions Sample.FromString Sample.registry_get Sample.read_all
                    ([Some Sample.unpatched] ++ Some Fixture.unregistered :: []))))
  ∧ (extracted Sample.extract_all Fixture.unregistered = true →
     get_pod_name Sample.kubectl_get_pods
       (ExtractPovsSettings.namespace Sample.extract_all)
       (ExtractPovsSettings.pod_label Sample.extract_all) = Some "scheduler-0" →
     Mkdir (ExtractPovsSettings.output_dir Sample.extract_all // "unknown" // "T2"
              // ("vuln_" +:+ fmt03d (S (length (extracted_for Sample.FromString
                                                    Sample.extract_all "T2"
                                                    [Some Sample.unpatched]))))
              // "crashes")
       ∈ ep.out (extract_povs Sample.FromString Sample.registry_get
                   Sample.kubectl_get_pods Sample.kubectl_cp_ok Sample.extract_all
                   ([Some Sample.unpatched] ++ Some Fixture.unregistered :: []))).
Proof.
  apply (unregistered_task_is_extracted_but_not_read Sample.FromString Sample.registry_get
           Sample.kubectl_get_pods Sample.kubectl_cp_ok Sample.read_all Sample.extract_all
           [Some Sample.unpatched] [] (Some Fixture.unregistered) Fixture.unregistered
           "T2" "scheduler-0"); reflexivity.
Defined.

Lemma crash_files_follow_copy_outcome_witness :
  let crash_dir := ["out"; "crashes"] // ("crash_" +:+ fmt03d 1) in
  let out := ep.out (crash_run Fixture.kubectl_cp_fails Sample.extract_all "scheduler-0"
                       ["out"; "crashes"] 1 (SubmissionEntry.crashes Sample.unpatched)) in
  Kubectl_cp "crs" "scheduler-0" "/pov/1" (crash_dir // "pov.bin") false ∈ out
  ∧ (∀ text, Write_text (crash_dir // "pov_path.txt") text ∈ out
             ↔ false = false ∧ text = "/pov/1")
  ∧ (∀ text, Write_text (crash_dir // "stacktrace.txt") text ∈ out
             ↔ str_bool text = true ∧ text = "stack")
  ∧ (∀ text, Write_text (crash_dir // "tracer_stacktrace.txt") text ∈ out
             ↔ str_bool text = true ∧ text = "tracer").
Proof.
  apply (crash_files_follow_copy_outcome Fixture.kubectl_cp_fails Sample.extract_all
           "scheduler-0" ["out"; "crashes"] (SubmissionEntry.crashes Sample.unpatched) 0
           (Sample.crash "T1" "token" "stack" "tracer" "pov-1" PASSED)).
  reflexivity.
Defined.

Lemma read_submissions_totals_witness :
  Print_totals
    (count_if has_passed_crash
       (counted_entries Sample.FromString Sample.registry_get Sample.read_all Sample.stored))
    (count_if has_passed_patch
       (counted_entries Sample.FromString Sample.registry_get Sample.read_all Sample.stored))
    (length (filter (λ tr, 0 < TaskResult.n_vulnerabilities tr)%nat
               (dict.values
                  (rs.result (read_submissions Sample.FromString Sample.registry_get
                                Sample.read_all Sample.stored)))))
  ∈ rs.out (read_submissions Sample.FromString Sample.registry_get Sample.read_all
              Sample.stored).
Proof.
  apply (read_submissions_totals Sample.FromString Sample.registry_get Sample.read_all
           Sample.stored).
  discriminate.
Defined.

Lemma reported_record_is_consistent_witness :
  let es := entries_for Sample.FromString Sample.read_all
              (TaskResult.task_id Sample.record) Sample.stored in
  TaskResult.n_vulnerabilities Sample.record
  = (length (TaskResult.patched_vulnerabilities Sample.record)
     + length (TaskResult.non_patched_vulnerabilities Sample.record))%nat
  ∧ (length (TaskResult.patched_vulnerabilities Sample.record)
     ≤ TaskResult.n_patches Sample.record)%nat
  ∧ (TaskResult.n_vulnerabilities Sample.record ≤ length es)%nat
  ∧ (TaskResult.n_patches Sample.record ≤ length es)%nat
  ∧ (TaskResult.n_bundles Sample.record ≤ length es)%nat.
Proof.
  apply (reported_record_is_consistent Sample.FromString Sample.registry_get
           Sample.read_all Sample.stored Sample.record).
  vm_compute. repeat constructor.
Defined.

Lemma read_submissions_line_per_record_witness :
  ∃ ev,
    rs.out (read_submissions Sample.FromString Sample.registry_get Sample.read_all
              Sample.stored) !! 2%nat
    = Some ev
    ∧ [ev] = match Sample.FromString None with
             | Some e => entry_events Sample.registry_get Sample.read_all 1 e
                           (shown Sample.read_all e)
             | None => [Log ERROR (Failed_to_parse_submission 1 DecodeError)]
             end.
Proof.
  apply (read_submissions_line_per_record Sample.FromString Sample.registry_get
           Sample.read_all Sample.stored 1 None).
  reflexivity.
Defined.

Lemma failed_assertion_keeps_patch_count_witness :
  let s' := read_iteration Sample.FromString Sample.registry_get Sample.read_all 0
              (Some Fixture.patch_only) rs.init in
  rs.out s' = rs.out rs.init ++ [Log ERROR (Failed_to_parse_submission 0 AssertionError)]
  ∧ dict.get (rs.result s') "T1"
    = Some (TaskResult.incr_n_patches
              (default (new_task_result "T1" (Task.mk "project" 1))
                 (dict.get (rs.result rs.init) "T1")))
  ∧ ∀ t', t' ≠ "T1" → dict.get (rs.result s') t' = dict.get (rs.result rs.init) t'.
Proof.
  apply (failed_assertion_keeps_patch_count Sample.FromString Sample.registry_get
           Sample.read_all 0 (Some Fixture.patch_only) Fixture.patch_only "T1"
           (Task.mk "project" 1) rs.init); reflexivity.
Defined.

Lemma truncate_stacktraces_bounds_texts_witness :
  py_len (Crash.stacktrace
            (TracedCrash.crash
               (CrashWithId.crash
                  (truncate_crash 2
                     (Sample.crash "T1" "token" "stack" "tracer" "pov-1" PASSED)))))
  ≤ 2 + 15
  ∧ py_len (TracedCrash.tracer_stacktrace
              (CrashWithId.crash
                 (truncate_crash 2
                    (Sample.crash "T1" "token" "stack" "tracer" "pov-1" PASSED))))
    ≤ 2 + 15
  ∧ py_len (Crash.crash_token
              (TracedCrash.crash
                 (CrashWithId.crash
                    (truncate_crash 2
                       (Sample.crash "T1" "token" "stack" "tracer" "pov-1" PASSED)))))
    ≤ 2 + 15.
Proof.
  apply (truncate_stacktraces_bounds_texts Sample.unpatched 2
           (truncate_crash 2 (Sample.crash "T1" "token" "stack" "tracer" "pov-1" PASSED))).
  - lia.
  - simpl. left.
Defined.

Lemma truncate_stacktraces_idempotent_witness :
  truncate_stacktraces (truncate_stacktraces Sample.unpatched 2) 2
  = truncate_stacktraces Sample.unpatched 2.
Proof. apply (truncate_stacktraces_idempotent Sample.unpatched 2). lia. Defined.

Lemma extract_povs_summary_witness :
  let s := extract_povs Sample.FromString Sample.registry_get Sample.kubectl_get_pods
             Sample.kubectl_cp_ok Sample.extract_all Sample.stored in
  Log INFO (Extraction_complete
              (length (List.filter (extracted Sample.extract_all)
                         (omap Sample.FromString Sample.stored)))
              (length (dict.keys (ep.vuln_counter s)))) ∈ ep.out s
  ∧ NoDup (dict.keys (ep.vuln_counter s))
  ∧ (∀ t, t ∈ dict.keys (ep.vuln_counter s)
          ↔ extracted_for Sample.FromString Sample.extract_all t Sample.stored ≠ [])
  ∧ Log INFO (PoV_files (ep.povs_copied s) (ep.povs_failed s)) ∈ ep.out s
  ∧ (∀ t, extracted_for Sample.FromString Sample.extract_all t Sample.stored ≠ [] →
          Log INFO (Task_vulnerabilities t
                      (length (extracted_for Sample.FromString Sample.extract_all t
                                 Sample.stored)))
            ∈ ep.out s).
Proof.
  apply (extract_povs_summary Sample.FromString Sample.registry_get
           Sample.kubectl_get_pods Sample.kubectl_cp_ok Sample.extract_all Sample.stored
           "scheduler-0").
  - reflexivity.
  - discriminate.
Defined.

Lemma none_is_printed_iff_nothing_unpatched_witness :
  Print_none
    ∈ rs.out (read_submissions Sample.FromString Sample.registry_get Sample.read_all
                [Some Sample.patched])
  ↔ ∀ e, e ∈ counted_entries Sample.FromString Sample.registry_get Sample.read_all
               [Some Sample.patched] →
         has_passed_crash e = true → has_passed_patch e = true.
Proof.
  apply (none_is_printed_iff_nothing_unpatched Sample.FromString Sample.registry_get
           Sample.read_all [Some Sample.patched]).
  discriminate.
Defined.

Lemma extracted_metadata_is_never_stopped_witness : false = false.
Proof.
  apply (extracted_metadata_is_never_stopped Sample.FromString Sample.registry_get
           Sample.kubectl_get_pods Sample.kubectl_cp_ok Sample.extract_all Sample.stored
           ["out"; "project"; "T1"; "vuln_001"; "metadata.json"]
           [("task_id", JStr "T1"); ("project_name", JStr "project");
            ("num_crashes", JInt 1); ("num_patches", JInt 0); ("num_bundles", JInt 0);
            ("patch_idx", JInt 0); ("stopped", JBool false)] false).
  - vm_compute. repeat constructor.
  - repeat constructor.
Defined.
